(** * animal-share-back: the storage layer and its feed query

    A shallow embedding of [storage.ts] (class [DatabaseStorage]), of the
    tables of [schema.ts] and of the [GET /api/tags] handler of [routes.ts].

    The relational store is a record of tables, every table a list of rows in
    insertion order.  The constraints are the ones [schema.ts] declares:
    primary keys, [notNull], [references] and [unique()].  The four
    [index(...)] declarations of the junction tables and of [tags] are plain
    (non-unique) indexes, so they constrain nothing.

    Values the database generates ([gen_random_uuid()], [now()]) are passed
    to the writing operations as an explicit [Gen] argument.  Identifiers
    are strings; a stored [uuid] is the text the store prints for it.  Where
    a caller's text is compared with a [uuid] column in a delete or in the
    lookup of one post, the store first reads the text as a uuid ([uuid_in])
    and rejects the statement when it does not read. *)

From Stdlib Require Import List String Ascii ZArith Bool Arith Lia.
From Stdlib Require Import Permutation Sorted.
Import ListNotations.
Local Open Scope string_scope.
Local Open Scope list_scope.

Set Implicit Arguments.

(** ** schema.ts *)

(** [tagCategoryEnum]: the Postgres enum [tag_category]. *)
Inductive TagCategory : Type :=
| Bunrui   (* "分類" *)
| Kakudo   (* "角度" *)
| Parts    (* "パーツ" *)
| Jiyuu.   (* "自由" *)

Definition TagCategory_label (c : TagCategory) : string :=
  match c with
  | Bunrui => "分類"
  | Kakudo => "角度"
  | Parts => "パーツ"
  | Jiyuu => "自由"
  end.

Definition tagCategoryEnum : list TagCategory := [Bunrui; Kakudo; Parts; Jiyuu].

Definition TagCategory_eqb (a b : TagCategory) : bool :=
  match a, b with
  | Bunrui, Bunrui | Kakudo, Kakudo | Parts, Parts | Jiyuu, Jiyuu => true
  | _, _ => false
  end.

(** Position of a label in the enum: Postgres orders enum values by it. *)
Definition TagCategory_rank (c : TagCategory) : nat :=
  match c with Bunrui => 0 | Kakudo => 1 | Parts => 2 | Jiyuu => 3 end.

(** A query parameter compared with the enum column is cast to the enum;
    a string that is none of the four labels has no such cast. *)
Definition TagCategory_of_label (s : string) : option TagCategory :=
  find (fun c => String.eqb (TagCategory_label c) s) tagCategoryEnum.

(** Timestamps are instants on the integer line; a [timestamp] column
    without [notNull] is nullable. *)
Definition timestamp := Z.

Module users.
Record row : Type := {
  id : string;
  email : option string;
  firstName : option string;
  lastName : option string;
  profileImageUrl : option string;
  createdAt : option timestamp;
  updatedAt : option timestamp
}.
End users.

Module tags.
Record row : Type := {
  id : string;
  name : string;
  category : TagCategory;
  createdAt : option timestamp
}.
End tags.

Module posts.
Record row : Type := {
  id : string;
  userId : string;
  imageUrl : string;
  caption : option string;
  createdAt : option timestamp
}.
End posts.

Module postTags.
Record row : Type := {
  postId : string;
  tagId : string
}.
End postTags.

Module favorites.
Record row : Type := {
  userId : string;
  postId : string;
  createdAt : option timestamp
}.
End favorites.

Module userExcludeTags.
Record row : Type := {
  userId : string;
  tagId : string;
  createdAt : option timestamp
}.
End userExcludeTags.

Definition User := users.row.
Definition Tag := tags.row.
Definition Post := posts.row.
Definition PostTag := postTags.row.
Definition Favorite := favorites.row.
Definition UserExcludeTag := userExcludeTags.row.

(** [insertPostSchema] omits [id] and [createdAt]; [insertTagSchema] too. *)
Record InsertPost : Type := {
  ip_userId : string;
  ip_imageUrl : string;
  ip_caption : option string
}.

Record InsertTag : Type := {
  it_name : string;
  it_category : TagCategory
}.

(** [PostWithTags = Post & { tags; user; isFavorited }].  The spread
    [...result.post] is kept as the field [post]; [user] comes from a left
    join and is asserted non-null with [!], so it may be absent. *)
Module PostWithTags.
Record t : Type := {
  post : Post;
  user : option User;
  tags : list Tag;
  isFavorited : bool
}.
Definition id (p : t) : string := posts.id (post p).
End PostWithTags.

(** The database. *)
Record DB : Type := {
  tbl_users : list User;
  tbl_tags : list Tag;
  tbl_posts : list Post;
  tbl_postTags : list PostTag;
  tbl_favorites : list Favorite;
  tbl_userExcludeTags : list UserExcludeTag
}.

Definition empty_db : DB :=
  {| tbl_users := []; tbl_tags := []; tbl_posts := []; tbl_postTags := [];
     tbl_favorites := []; tbl_userExcludeTags := [] |}.

(** Unique constraints of a table, each given as "these two rows collide".
    A primary key is one of them.  [index(...)] adds none. *)
Definition users_unique : list (User -> User -> bool) :=
  [ (fun a b => String.eqb (users.id a) (users.id b));
    (fun a b => match users.email a, users.email b with
                | Some x, Some y => String.eqb x y
                | _, _ => false
                end) ].
Definition tags_unique : list (Tag -> Tag -> bool) :=
  [ (fun a b => String.eqb (tags.id a) (tags.id b)) ].
Definition posts_unique : list (Post -> Post -> bool) :=
  [ (fun a b => String.eqb (posts.id a) (posts.id b)) ].
Definition postTags_unique : list (PostTag -> PostTag -> bool) := [].
Definition favorites_unique : list (Favorite -> Favorite -> bool) := [].
Definition userExcludeTags_unique
  : list (UserExcludeTag -> UserExcludeTag -> bool) := [].

(** ** The store: statements, promises, transactions *)

(** The faults a statement of this program can raise in Postgres. *)
Inductive PgError : Type :=
| unique_violation
| foreign_key_violation
| invalid_text_representation.

Inductive Outcome (A : Type) : Type :=
| Resolved (a : A)
| Rejected (e : PgError).
Arguments Resolved {A} a.
Arguments Rejected {A} e.

(** An awaited database action: it settles and leaves a database.  Outside
    a transaction every statement commits on its own, so what an earlier
    statement wrote stays when a later one is rejected. *)
Definition Promise (A : Type) : Type := DB -> Outcome A * DB.

Definition resolve {A} (a : A) : Promise A := fun db => (Resolved a, db).
Definition reject {A} (e : PgError) : Promise A := fun db => (Rejected e, db).

Definition await {A B} (c : Promise A) (k : A -> Promise B) : Promise B :=
  fun db =>
    match c db with
    | (Resolved a, db') => k a db'
    | (Rejected e, db') => (Rejected e, db')
    end.

Declare Scope promise_scope.
Delimit Scope promise_scope with promise.
Notation "x <- c ;; k" := (await c (fun x => k))
  (at level 61, c at next level, right associativity) : promise_scope.
Notation "c ;;; k" := (await c (fun _ => k))
  (at level 61, right associativity) : promise_scope.

(** A read: one statement over the current snapshot. *)
Definition query {A} (f : DB -> A) : Promise A := fun db => (Resolved (f db), db).

(** [db.transaction(async (tx) => ...)]: commit when the callback
    resolves, roll back to the state at entry when it rejects. *)
Definition transaction {A} (body : Promise A) : Promise A :=
  fun db =>
    match body db with
    | (Resolved a, db') => (Resolved a, db')
    | (Rejected e, _) => (Rejected e, db)
    end.

(** Values generated by column defaults for one inserted row. *)
Record Gen : Type := {
  gen_random_uuid : string;
  now : timestamp
}.

Definition set_tags (v : list Tag) (db : DB) : DB :=
  {| tbl_users := tbl_users db; tbl_tags := v; tbl_posts := tbl_posts db;
     tbl_postTags := tbl_postTags db; tbl_favorites := tbl_favorites db;
     tbl_userExcludeTags := tbl_userExcludeTags db |}.
Definition set_posts (v : list Post) (db : DB) : DB :=
  {| tbl_users := tbl_users db; tbl_tags := tbl_tags db; tbl_posts := v;
     tbl_postTags := tbl_postTags db; tbl_favorites := tbl_favorites db;
     tbl_userExcludeTags := tbl_userExcludeTags db |}.
Definition set_postTags (v : list PostTag) (db : DB) : DB :=
  {| tbl_users := tbl_users db; tbl_tags := tbl_tags db; tbl_posts := tbl_posts db;
     tbl_postTags := v; tbl_favorites := tbl_favorites db;
     tbl_userExcludeTags := tbl_userExcludeTags db |}.
Definition set_favorites (v : list Favorite) (db : DB) : DB :=
  {| tbl_users := tbl_users db; tbl_tags := tbl_tags db; tbl_posts := tbl_posts db;
     tbl_postTags := tbl_postTags db; tbl_favorites := v;
     tbl_userExcludeTags := tbl_userExcludeTags db |}.

(** Does [r] collide with a stored row on one of the unique constraints? *)
Definition conflicts {A} (uniq : list (A -> A -> bool)) (r : A) (table : list A) : bool :=
  existsb (fun old => existsb (fun u => u old r) uniq) table.

(** [references(() => t.id)]: the referenced key must be present. *)
Definition has_user (db : DB) (uid : string) : bool :=
  existsb (fun u => String.eqb (users.id u) uid) (tbl_users db).
Definition has_tag (db : DB) (tid : string) : bool :=
  existsb (fun t => String.eqb (tags.id t) tid) (tbl_tags db).
Definition has_post (db : DB) (pid : string) : bool :=
  existsb (fun p => String.eqb (posts.id p) pid) (tbl_posts db).

(** [db.insert(tags).values(tag).returning()] *)
Definition insert_tags (g : Gen) (v : InsertTag) : Promise Tag :=
  fun db =>
    let r := {| tags.id := gen_random_uuid g; tags.name := it_name v;
                tags.category := it_category v; tags.createdAt := Some (now g) |} in
    if conflicts tags_unique r (tbl_tags db) then (Rejected unique_violation, db)
    else (Resolved r, set_tags (tbl_tags db ++ [r]) db).

(** [tx.insert(posts).values(post).returning()] *)
Definition insert_posts (g : Gen) (v : InsertPost) : Promise Post :=
  fun db =>
    let r := {| posts.id := gen_random_uuid g; posts.userId := ip_userId v;
                posts.imageUrl := ip_imageUrl v; posts.caption := ip_caption v;
                posts.createdAt := Some (now g) |} in
    if conflicts posts_unique r (tbl_posts db) then (Rejected unique_violation, db)
    else if negb (has_user db (posts.userId r)) then (Rejected foreign_key_violation, db)
    else (Resolved r, set_posts (tbl_posts db ++ [r]) db).

(** [tx.insert(postTags).values(rows)]: one statement for all the rows; it
    stores all of them or none. *)
Definition insert_postTags (rows : list PostTag) : Promise unit :=
  fun db =>
    if existsb (fun r => conflicts postTags_unique r (tbl_postTags db)) rows
    then (Rejected unique_violation, db)
    else if forallb (fun r => has_post db (postTags.postId r)
                              && has_tag db (postTags.tagId r)) rows
    then (Resolved tt, set_postTags (tbl_postTags db ++ rows) db)
    else (Rejected foreign_key_violation, db).

(** [db.insert(favorites).values({ userId, postId }).onConflictDoNothing()]:
    a row that collides on a unique constraint is skipped silently; any
    other row is checked against the foreign keys and stored. *)
Definition insert_favorites_onConflictDoNothing (g : Gen) (userId postId : string)
  : Promise unit :=
  fun db =>
    let r := {| favorites.userId := userId; favorites.postId := postId;
                favorites.createdAt := Some (now g) |} in
    if conflicts favorites_unique r (tbl_favorites db) then (Resolved tt, db)
    else if has_user db userId && has_post db postId
    then (Resolved tt, set_favorites (tbl_favorites db ++ [r]) db)
    else (Rejected foreign_key_violation, db).

(** [ORDER BY]: a stable insertion sort stands for the engine's sort; rows
    that compare equal keep their scan order. *)
Fixpoint insert_by {A} (le : A -> A -> bool) (x : A) (l : list A) : list A :=
  match l with
  | [] => [x]
  | y :: l' => if le x y then x :: y :: l' else y :: insert_by le x l'
  end.

Fixpoint orderBy {A} (le : A -> A -> bool) (l : list A) : list A :=
  match l with
  | [] => []
  | x :: l' => insert_by le x (orderBy le l')
  end.

(** [desc(col)] on a nullable timestamp: Postgres puts NULL first. *)
Definition desc_le (a b : option timestamp) : bool :=
  match a, b with
  | None, _ => true
  | Some _, None => false
  | Some x, Some y => (y <=? x)%Z
  end.

(** [LEFT JOIN]: every left row with each matching right row, or once with
    NULL when there is none. *)
Definition leftJoin {R B} (rows : list R) (tbl : list B)
    (on : R -> B -> bool) (put : R -> option B -> R) : list R :=
  flat_map (fun r =>
              match filter (on r) tbl with
              | [] => [put r None]
              | m :: ms => map (fun b => put r (Some b)) (m :: ms)
              end) rows.

(** [inArray(col, values)] *)
Definition inArray (x : string) (values : list string) : bool :=
  existsb (String.eqb x) values.
Definition notInArray (x : string) (values : list string) : bool :=
  negb (inArray x values).

(** JavaScript truthiness of an optional string: [undefined] and the empty
    string are falsy. *)
Definition truthy (s : option string) : bool :=
  match s with
  | None => false
  | Some s => negb (String.eqb s "")
  end.

(** A JavaScript [Map] with string keys: entries in insertion order;
    [set] on a present key replaces the value in place. *)
Definition JsMap (V : Type) : Type := list (string * V).

Definition Map_has {V} (k : string) (m : JsMap V) : bool :=
  existsb (fun kv => String.eqb (fst kv) k) m.
Definition Map_get {V} (k : string) (m : JsMap V) : option V :=
  option_map snd (find (fun kv => String.eqb (fst kv) k) m).
Definition Map_set {V} (k : string) (v : V) (m : JsMap V) : JsMap V :=
  if Map_has k m
  then map (fun kv => if String.eqb (fst kv) k then (k, v) else kv) m
  else m ++ [(k, v)].
Definition Map_values {V} (m : JsMap V) : list V := map snd m.

(** ** storage.ts: tags *)

Section Collation.

(** [ORDER BY name] follows the collation of the database, which the
    program does not choose: any total preorder on text. *)
Variable collate_le : string -> string -> bool.

(** [orderBy(tags.category, tags.name)]: enum position, then name. *)
Definition category_name_le (a b : Tag) : bool :=
  Nat.ltb (TagCategory_rank (tags.category a)) (TagCategory_rank (tags.category b))
  || (Nat.eqb (TagCategory_rank (tags.category a)) (TagCategory_rank (tags.category b))
      && collate_le (tags.name a) (tags.name b)).

Definition name_le (a b : Tag) : bool := collate_le (tags.name a) (tags.name b).

Definition getAllTags (db : DB) : list Tag :=
  orderBy category_name_le (tbl_tags db).

Definition getTagsByCategory (category : TagCategory) (db : DB) : list Tag :=
  orderBy name_le
    (filter (fun t => TagCategory_eqb (tags.category t) category) (tbl_tags db)).

(** *** routes.ts: [GET /api/tags] *)

(** A value of [req.query]: a string, or a repeated parameter. *)
Inductive QueryValue : Type :=
| QString (s : string)
| QArray (l : list string).

Inductive Body : Type :=
| body_tags (l : list Tag)
| body_tag (t : Tag)
| body_message (m : string).

Record Response : Type := json { status : nat; body : Body }.

(** [storage.getTagsByCategory(category as any)]: the cast lets any
    string through to the statement, where it is compared with the enum
    column; the engine rejects the statement when the string is not a
    label of the enum. *)
Definition getTagsByCategory_as_any (category : string) : Promise (list Tag) :=
  match TagCategory_of_label category with
  | Some c => query (getTagsByCategory c)
  | None => reject invalid_text_representation
  end.

Definition get_api_tags (category : option QueryValue) (db : DB) : Response :=
  match category with
  | Some (QString s) =>
      if truthy (Some s)
      then match fst (getTagsByCategory_as_any s db) with
           | Resolved l => json 200 (body_tags l)
           | Rejected _ => json 500 (body_message "Failed to fetch tags")
           end
      else json 200 (body_tags (getAllTags db))
  | _ => json 200 (body_tags (getAllTags db))
  end.

End Collation.

(** [createTag] *)
Definition createTag (g : Gen) (tag : InsertTag) : Promise Tag :=
  insert_tags g tag.

(** *** routes.ts: [POST /api/tags], for a caller that is signed in

    [name] and [category] are the properties of the body, [None] when the
    property is missing or no string.  [insertTagSchema.parse(req.body)]
    wants a string [name] and a [category] that is a label of the enum;
    whatever throws, the parse or the insert, is answered with status 400. *)
Definition post_api_tags (g : Gen) (name category : option string) (db : DB)
  : Response * DB :=
  match name, category with
  | Some n, Some c =>
      match TagCategory_of_label c with
      | Some cat =>
          match createTag g {| it_name := n; it_category := cat |} db with
          | (Resolved tag, db') => (json 200 (body_tag tag), db')
          | (Rejected _, db') => (json 400 (body_message "Invalid tag data"), db')
          end
      | None => (json 400 (body_message "Invalid tag data"), db)
      end
  | _, _ => (json 400 (body_message "Invalid tag data"), db)
  end.

(** [getOrCreateTag]: a select, and an insert when the select found no row.
    The two statements are separate awaits. *)
Definition select_tags_name_category (name : string) (category : TagCategory)
    (db : DB) : list Tag :=
  filter (fun t => String.eqb (tags.name t) name
                   && TagCategory_eqb (tags.category t) category) (tbl_tags db).

Definition getOrCreateTag (g : Gen) (name : string) (category : TagCategory)
  : Promise Tag :=
  (rows <- query (select_tags_name_category name category) ;;
   match rows with
   | existingTag :: _ => resolve existingTag
   | [] => createTag g {| it_name := name; it_category := category |}
   end)%promise.

(** [validatePostTags] *)
Definition validatePostTags (tagIds : list string) (db : DB) : bool :=
  if Nat.eqb (List.length tagIds) 0 then false
  else
    let tagResults := filter (fun t => inArray (tags.id t) tagIds) (tbl_tags db) in
    if negb (Nat.eqb (List.length tagResults) (List.length tagIds)) then false
    else existsb (fun tag => TagCategory_eqb (tags.category tag) Bunrui) tagResults.

(** ** storage.ts: the feed query *)

(** A row of [posts] left-joined with [users], [postTags], [tags] and,
    for a viewer, [favorites]. *)
Record JoinRow : Type := {
  j_post : Post;
  j_user : option User;
  j_postTag : option PostTag;
  j_tag : option Tag;
  j_favorite : option Favorite
}.

(** The selected fields [{ post, user, tag, isFavorited }]. *)
Module Row.
Record t : Type := {
  post : Post;
  user : option User;
  tag : option Tag;
  isFavorited : bool
}.
End Row.

(** The select builder of the query library.  Its configuration has one
    slot for the condition: [.where(c)] stores [c] there, so of several
    [.where] calls on one builder the last one is the condition of the
    statement (the calls after the first are the ones the source marks
    [@ts-ignore]). *)
Record PgSelect : Type := {
  config_fields : JoinRow -> Row.t;
  config_rows : list JoinRow;
  config_where : option (JoinRow -> bool)
}.

Definition where_ (c : JoinRow -> bool) (q : PgSelect) : PgSelect :=
  {| config_fields := config_fields q; config_rows := config_rows q;
     config_where := Some c |}.

Definition with_rows (rows : list JoinRow) (q : PgSelect) : PgSelect :=
  {| config_fields := config_fields q; config_rows := rows;
     config_where := config_where q |}.

(** [db.select(fields).from(posts).leftJoin(users, ...).leftJoin(postTags,
    ...).leftJoin(tags, ...)] *)
Definition select_from_posts (fields : JoinRow -> Row.t) (db : DB) : PgSelect :=
  let r0 := map (fun p => {| j_post := p; j_user := None; j_postTag := None;
                             j_tag := None; j_favorite := None |}) (tbl_posts db) in
  let r1 := leftJoin r0 (tbl_users db)
              (fun j u => String.eqb (posts.userId (j_post j)) (users.id u))
              (fun j u => {| j_post := j_post j; j_user := u; j_postTag := j_postTag j;
                             j_tag := j_tag j; j_favorite := j_favorite j |}) in
  let r2 := leftJoin r1 (tbl_postTags db)
              (fun j pt => String.eqb (posts.id (j_post j)) (postTags.postId pt))
              (fun j pt => {| j_post := j_post j; j_user := j_user j; j_postTag := pt;
                              j_tag := j_tag j; j_favorite := j_favorite j |}) in
  let r3 := leftJoin r2 (tbl_tags db)
              (fun j t => match j_postTag j with
                          | Some pt => String.eqb (postTags.tagId pt) (tags.id t)
                          | None => false
                          end)
              (fun j t => {| j_post := j_post j; j_user := j_user j;
                             j_postTag := j_postTag j; j_tag := t;
                             j_favorite := j_favorite j |}) in
  {| config_fields := fields; config_rows := r3; config_where := None |}.

(** [query.leftJoin(favorites, and(eq(favorites.postId, posts.id),
    eq(favorites.userId, userId)))] *)
Definition leftJoin_favorites (userId : string) (db : DB) (q : PgSelect) : PgSelect :=
  with_rows
    (leftJoin (config_rows q) (tbl_favorites db)
       (fun j f => String.eqb (favorites.postId f) (posts.id (j_post j))
                   && String.eqb (favorites.userId f) userId)
       (fun j f => {| j_post := j_post j; j_user := j_user j; j_postTag := j_postTag j;
                      j_tag := j_tag j; j_favorite := f |}))
    q.

Definition filtered (q : PgSelect) : list JoinRow :=
  match config_where q with
  | Some c => filter c (config_rows q)
  | None => config_rows q
  end.

(** [await query] *)
Definition run (q : PgSelect) : list Row.t :=
  map (config_fields q) (filtered q).

(** [await query.orderBy(desc(posts.createdAt)).limit(limit).offset(offset)] *)
Definition run_page (limit offset : nat) (q : PgSelect) : list Row.t :=
  map (config_fields q)
    (firstn limit
       (skipn offset
          (orderBy (fun a b => desc_le (posts.createdAt (j_post a))
                                       (posts.createdAt (j_post b)))
             (filtered q)))).

(** [CASE WHEN favorites.userId IS NOT NULL THEN true ELSE false END], or
    the constant [false] without a viewer. *)
Definition isFavoritedExpr (userId : option string) (j : JoinRow) : bool :=
  if truthy userId
  then match j_favorite j with Some _ => true | None => false end
  else false.

Definition fields (userId : option string) (j : JoinRow) : Row.t :=
  {| Row.post := j_post j; Row.user := j_user j; Row.tag := j_tag j;
     Row.isFavorited := isFavoritedExpr userId j |}.

(** [GROUP BY key] with [count()]: one group per distinct key. *)
Definition groupBy_count (keys : list string) : list (string * nat) :=
  map (fun k => (k, count_occ string_dec keys k)) (nodup string_dec keys).

(** The subquery [postsWithAllTags]. *)
Definition postsWithAllTags (tagIds : list string) (db : DB) : list string :=
  map fst
    (filter (fun g => Nat.eqb (snd g) (List.length tagIds))
       (groupBy_count
          (map postTags.postId
             (filter (fun pt => inArray (postTags.tagId pt) tagIds)
                (tbl_postTags db))))).

(** The subquery [postsWithExcludedTags]. *)
Definition postsWithExcludedTags (excludeTagIds : list string) (db : DB) : list string :=
  map postTags.postId
    (filter (fun pt => inArray (postTags.tagId pt) excludeTagIds) (tbl_postTags db)).

(** The subqueries [excludedTagIds] and [postsWithUserExcludedTags]. *)
Definition excludedTagIds (userId : string) (db : DB) : list string :=
  map userExcludeTags.tagId
    (filter (fun e => String.eqb (userExcludeTags.userId e) userId)
       (tbl_userExcludeTags db)).

Definition postsWithUserExcludedTags (userId : string) (db : DB) : list string :=
  map postTags.postId
    (filter (fun pt => inArray (postTags.tagId pt) (excludedTagIds userId db))
       (tbl_postTags db)).

(** The loop body of the grouping over [results]. *)
Definition collect_step (postsMap : JsMap PostWithTags.t) (result : Row.t)
  : JsMap PostWithTags.t :=
  let postId := posts.id (Row.post result) in
  let postsMap :=
    if negb (Map_has postId postsMap)
    then Map_set postId
           {| PostWithTags.post := Row.post result;
              PostWithTags.user := Row.user result;
              PostWithTags.tags := [];
              PostWithTags.isFavorited := Row.isFavorited result |} postsMap
    else postsMap in
  match Row.tag result with
  | Some tag =>
      match Map_get postId postsMap with
      | Some existingPost =>
          if negb (existsb (fun t => String.eqb (tags.id t) (tags.id tag))
                     (PostWithTags.tags existingPost))
          then Map_set postId
                 {| PostWithTags.post := PostWithTags.post existingPost;
                    PostWithTags.user := PostWithTags.user existingPost;
                    PostWithTags.tags := PostWithTags.tags existingPost ++ [tag];
                    PostWithTags.isFavorited := PostWithTags.isFavorited existingPost |}
                 postsMap
          else postsMap
      | None => postsMap
      end
  | None => postsMap
  end.

Definition collect (results : list Row.t) : list PostWithTags.t :=
  Map_values (fold_left collect_step results []).

Definition default_limit : nat := 20.
Definition default_offset : nat := 0.

(** The builder [query] of [getPosts] as it stands before it is awaited. *)
Definition getPosts_query (tagIds : option (list string))
    (userId : option string) (excludeTagIds : option (list string)) (db : DB)
  : PgSelect :=
  let query := select_from_posts (fields userId) db in
  let query :=
    match userId with
    | Some uid => if truthy userId then leftJoin_favorites uid db query else query
    | None => query
    end in
  let query :=
    match tagIds with
    | Some tagIds =>
        if Nat.ltb 0 (List.length tagIds)
        then where_ (fun j => inArray (posts.id (j_post j)) (postsWithAllTags tagIds db))
               query
        else query
    | None => query
    end in
  let query :=
    match excludeTagIds with
    | Some excludeTagIds =>
        if Nat.ltb 0 (List.length excludeTagIds)
        then where_ (fun j => notInArray (posts.id (j_post j))
                                (postsWithExcludedTags excludeTagIds db)) query
        else query
    | None => query
    end in
  let query :=
    match userId with
    | Some uid =>
        if truthy userId
        then where_ (fun j => notInArray (posts.id (j_post j))
                                (postsWithUserExcludedTags uid db)) query
        else query
    | None => query
    end in
  query.

(** [getPosts(limit, offset, tagIds?, userId?, excludeTagIds?)].  [limit]
    and [offset] are the non-negative integers the statement accepts. *)
Definition getPosts (limit offset : nat) (tagIds : option (list string))
    (userId : option string) (excludeTagIds : option (list string)) (db : DB)
  : list PostWithTags.t :=
  let query := getPosts_query tagIds userId excludeTagIds db in
  let results := run_page limit offset query in
  collect results.

(** [getPost(id, userId?)], for an [id] as the store holds it.  The text
    a caller sends is read as a uuid first: see [get_api_posts_id]. *)
Definition getPost (id : string) (userId : option string) (db : DB)
  : option PostWithTags.t :=
  let query := select_from_posts (fields userId) db in
  let query :=
    match userId with
    | Some uid => if truthy userId then leftJoin_favorites uid db query else query
    | None => query
    end in
  let query := where_ (fun j => String.eqb (posts.id (j_post j)) id) query in
  let results := run query in
  match results with
  | [] => None
  | r0 :: _ =>
      let postWithTags :=
        {| PostWithTags.post := Row.post r0; PostWithTags.user := Row.user r0;
           PostWithTags.tags := []; PostWithTags.isFavorited := Row.isFavorited r0 |} in
      Some
        (fold_left
           (fun (acc : PostWithTags.t) (row : Row.t) =>
              match Row.tag row with
              | Some tag =>
                  if negb (existsb (fun t => String.eqb (tags.id t) (tags.id tag))
                             (PostWithTags.tags acc))
                  then {| PostWithTags.post := PostWithTags.post acc;
                          PostWithTags.user := PostWithTags.user acc;
                          PostWithTags.tags := PostWithTags.tags acc ++ [tag];
                          PostWithTags.isFavorited := PostWithTags.isFavorited acc |}
                  else acc
              | None => acc
              end)
           results postWithTags)
  end.

(** ** The [uuid] columns

    [posts.id], [tags.id] and the columns that reference them have type
    [uuid].  A text parameter compared with such a column is read by the
    uuid input function of the store: sixteen bytes of two hexadecimal
    digits each, upper or lower case, a hyphen allowed after every second
    byte but not after the last, the whole optionally in braces.  The value
    prints in lower case, grouped 8-4-4-4-12.  Text that does not read is
    refused with [invalid_text_representation] (SQLSTATE 22P02). *)
Definition isxdigit (c : ascii) : bool :=
  let n := nat_of_ascii c in
  (Nat.leb 48 n && Nat.leb n 57) || (Nat.leb 97 n && Nat.leb n 102)
  || (Nat.leb 65 n && Nat.leb n 70).

Definition tolower (c : ascii) : ascii :=
  let n := nat_of_ascii c in
  if Nat.leb 65 n && Nat.leb n 90 then ascii_of_nat (n + 32) else c.

(** Reads [n] more bytes, [i] of sixteen being read already: the digits in
    lower case and the text that is left. *)
Fixpoint uuid_bytes (n i : nat) (src : string) : option (list ascii * string) :=
  match n with
  | O => Some ([], src)
  | S n' =>
      match src with
      | String a (String b rest) =>
          if isxdigit a && isxdigit b
          then
            let rest :=
              match rest with
              | String c r =>
                  if Ascii.eqb c "-" && Nat.odd i && Nat.ltb i 15 then r else rest
              | EmptyString => rest
              end in
            match uuid_bytes n' (S i) rest with
            | Some (digits, tail) => Some (tolower a :: tolower b :: digits, tail)
            | None => None
            end
          else None
      | _ => None
      end
  end.

Definition uuid_out (digits : list ascii) : string :=
  string_of_list_ascii
    (firstn 8 digits ++ "-"%char :: firstn 4 (skipn 8 digits)
       ++ "-"%char :: firstn 4 (skipn 12 digits)
       ++ "-"%char :: firstn 4 (skipn 16 digits)
       ++ "-"%char :: skipn 20 digits).

(** The uuid a text stands for, as the store prints it; [None] when the
    text is not uuid syntax. *)
Definition uuid_in (source : string) : option string :=
  let braces := match source with
                | String c _ => Ascii.eqb c "{"
                | EmptyString => false
                end in
  let src := match source with
             | String c r => if Ascii.eqb c "{" then r else source
             | EmptyString => source
             end in
  match uuid_bytes 16 0 src with
  | Some (digits, tail) =>
      if String.eqb tail (if braces then "}" else "") then Some (uuid_out digits) else None
  | None => None
  end.

(** A statement with a text parameter [text] for a [uuid] column. *)
Definition as_uuid {A} (text : string) (statement : string -> Promise A) : Promise A :=
  match uuid_in text with
  | Some u => statement u
  | None => reject invalid_text_representation
  end.

(** ** storage.ts: writes *)

(** [createPost(post, tagIds)] *)
Definition createPost (g : Gen) (post : InsertPost) (tagIds : list string)
  : Promise Post :=
  transaction
    (newPost <- insert_posts g post ;;
     (if Nat.ltb 0 (List.length tagIds)
      then insert_postTags
             (map (fun tagId => {| postTags.postId := posts.id newPost;
                                   postTags.tagId := tagId |}) tagIds)
      else resolve tt) ;;;
     resolve newPost)%promise.

(** [db.delete(posts).where(cond).returning()]: the rows that satisfy the
    condition leave [posts]; [onDelete: "cascade"] takes the [postTags] and
    [favorites] rows that reference them along. *)
Definition delete_posts (cond : Post -> bool) : Promise (list Post) :=
  fun db =>
    let deleted := filter cond (tbl_posts db) in
    let gone := map posts.id deleted in
    (Resolved deleted,
     {| tbl_users := tbl_users db;
        tbl_tags := tbl_tags db;
        tbl_posts := filter (fun p => negb (cond p)) (tbl_posts db);
        tbl_postTags :=
          filter (fun pt => notInArray (postTags.postId pt) gone) (tbl_postTags db);
        tbl_favorites :=
          filter (fun f => notInArray (favorites.postId f) gone) (tbl_favorites db);
        tbl_userExcludeTags := tbl_userExcludeTags db |}).

(** [deletePost(id, userId)]: [posts.id] is a [uuid] column, so [id] is
    read as a uuid by the statement; [posts.userId] is a [varchar]. *)
Definition deletePost (id userId : string) : Promise bool :=
  as_uuid id
    (fun id =>
       (result <- delete_posts (fun p => String.eqb (posts.id p) id
                                         && String.eqb (posts.userId p) userId) ;;
        resolve (Nat.ltb 0 (List.length result)))%promise).

(** [addFavorite(userId, postId)] *)
Definition addFavorite (g : Gen) (userId postId : string) : Promise unit :=
  insert_favorites_onConflictDoNothing g userId postId.

(** ** Concurrent callers of [getOrCreateTag]

    Requests run on one event loop and give way at every [await]; a
    statement is atomic in the store.  A call of [getOrCreateTag] is thus
    two atomic steps, and other calls may run between them. *)
Module Interleaving.

Inductive Task : Type :=
| at_select (g : Gen) (name : string) (category : TagCategory)
| at_insert (g : Gen) (name : string) (category : TagCategory)
| settled (r : Outcome Tag).

Definition step (t : Task) (db : DB) : Task * DB :=
  match t with
  | at_select g name category =>
      match select_tags_name_category name category db with
      | existingTag :: _ => (settled (Resolved existingTag), db)
      | [] => (at_insert g name category, db)
      end
  | at_insert g name category =>
      let (r, db') := createTag g {| it_name := name; it_category := category |} db in
      (settled r, db')
  | settled r => (settled r, db)
  end.

Definition is_settled (t : Task) : bool :=
  match t with settled _ => true | _ => false end.

(** Advance the task at position [i]. *)
Fixpoint step_nth (i : nat) (ts : list Task) (db : DB) : list Task * DB :=
  match ts, i with
  | [], _ => ([], db)
  | t :: ts', O => let (t', db') := step t db in (t' :: ts', db')
  | t :: ts', S i' => let (ts'', db') := step_nth i' ts' db in (t :: ts'', db')
  end.

(** A schedule names, turn by turn, the call that runs next. *)
Fixpoint run_schedule (schedule : list nat) (ts : list Task) (db : DB)
  : list Task * DB :=
  match schedule with
  | [] => (ts, db)
  | i :: rest => let (ts', db') := step_nth i ts db in run_schedule rest ts' db'
  end.

Definition rows_for (name : string) (category : TagCategory) (db : DB) : nat :=
  List.length (select_tags_name_category name category db).

End Interleaving.

(** Vocabulary of the statements about the feed: the post [pid] carries
    the tag [tid]; the number of its association rows whose tag is in
    [tagIds]. *)
Definition carries (db : DB) (pid tid : string) : bool :=
  existsb (fun pt => String.eqb (postTags.postId pt) pid
                     && String.eqb (postTags.tagId pt) tid) (tbl_postTags db).

Definition matching_rows (db : DB) (pid : string) (tagIds : list string) : nat :=
  List.length
    (filter (fun pt => String.eqb (postTags.postId pt) pid
                       && inArray (postTags.tagId pt) tagIds) (tbl_postTags db)).

Definition set_userExcludeTags (v : list UserExcludeTag) (db : DB) : DB :=
  {| tbl_users := tbl_users db; tbl_tags := tbl_tags db; tbl_posts := tbl_posts db;
     tbl_postTags := tbl_postTags db; tbl_favorites := tbl_favorites db;
     tbl_userExcludeTags := v |}.

(** ** storage.ts: users *)

Definition set_users (v : list User) (db : DB) : DB :=
  {| tbl_users := v; tbl_tags := tbl_tags db; tbl_posts := tbl_posts db;
     tbl_postTags := tbl_postTags db; tbl_favorites := tbl_favorites db;
     tbl_userExcludeTags := tbl_userExcludeTags db |}.

(** [getUser(id)]: the first row of the select, or [undefined]. *)
Definition getUser (id : string) (db : DB) : option User :=
  match filter (fun u => String.eqb (users.id u) id) (tbl_users db) with
  | user :: _ => Some user
  | [] => None
  end.

(** A property of an insert value of type [T | null | undefined]. *)
Inductive Field (A : Type) : Type :=
| undefined
| null
| value (a : A).
Arguments undefined {A}.
Arguments null {A}.
Arguments value {A} a.

(** [UpsertUser = typeof users.$inferInsert]: every column is optional;
    [id] is not nullable. *)
Record UpsertUser : Type := {
  uu_id : option string;
  uu_email : Field string;
  uu_firstName : Field string;
  uu_lastName : Field string;
  uu_profileImageUrl : Field string;
  uu_createdAt : Field timestamp;
  uu_updatedAt : Field timestamp
}.

(** What [.values(...)] stores for a property: the column default when it
    is [undefined], NULL when it is [null]. *)
Definition stored {A} (default : option A) (f : Field A) : option A :=
  match f with
  | undefined => default
  | null => None
  | value a => Some a
  end.

(** What [set: { col: v }] does to a column: an [undefined] property is
    left out of the SET clause. *)
Definition assigned {A} (old : option A) (f : Field A) : option A :=
  match f with
  | undefined => old
  | null => None
  | value a => Some a
  end.

Definition same_email (email : option string) (u : User) : bool :=
  match email, users.email u with
  | Some x, Some y => String.eqb y x
  | _, _ => false
  end.

(** The row [.values(userData)] proposes: column defaults fill what
    [userData] leaves [undefined]. *)
Definition upsert_values (g : Gen) (userData : UpsertUser) : User :=
  {| users.id := match uu_id userData with
                 | Some i => i
                 | None => gen_random_uuid g
                 end;
     users.email := stored None (uu_email userData);
     users.firstName := stored None (uu_firstName userData);
     users.lastName := stored None (uu_lastName userData);
     users.profileImageUrl := stored None (uu_profileImageUrl userData);
     users.createdAt := stored (Some (now g)) (uu_createdAt userData);
     users.updatedAt := stored (Some (now g)) (uu_updatedAt userData) |}.

(** [set: { firstName, lastName, profileImageUrl, updatedAt: new Date() }]
    applied to the stored row [u]; [jsNow] is the clock of [new Date()]. *)
Definition upsert_set (jsNow : timestamp) (userData : UpsertUser) (u : User) : User :=
  {| users.id := users.id u;
     users.email := users.email u;
     users.firstName := assigned (users.firstName u) (uu_firstName userData);
     users.lastName := assigned (users.lastName u) (uu_lastName userData);
     users.profileImageUrl :=
       assigned (users.profileImageUrl u) (uu_profileImageUrl userData);
     users.createdAt := users.createdAt u;
     users.updatedAt := Some jsNow |}.

(** [upsertUser(userData)]: [insert ... onConflictDoUpdate({ target:
    users.email, set: ... }).returning()].  A row with the same (non-null)
    email is updated in place; otherwise the row is inserted, and a used [id]
    rejects the statement. *)
Definition upsertUser (g : Gen) (jsNow : timestamp) (userData : UpsertUser)
  : Promise User :=
  fun db =>
    let r := upsert_values g userData in
    match filter (same_email (users.email r)) (tbl_users db) with
    | u :: _ =>
        (Resolved (upsert_set jsNow userData u),
         set_users (map (fun x => if same_email (users.email r) x
                                  then upsert_set jsNow userData x else x)
                      (tbl_users db)) db)
    | [] =>
        if existsb (fun u => String.eqb (users.id u) (users.id r)) (tbl_users db)
        then (Rejected unique_violation, db)
        else (Resolved r, set_users (tbl_users db ++ [r]) db)
    end.

(** *** auth.ts: the verify callback of the Google strategy *)

(** The parts of a passport profile the callback reads. *)
Record Profile : Type := {
  emails : option (list string);
  name : option (option string * option string);
  photos : option (list string)
}.

(** [xs?.[0]?.value ?? ""] *)
Definition first_or_empty (xs : option (list string)) : string :=
  match xs with
  | Some (x :: _) => x
  | _ => ""
  end.

Definition or_empty (s : option string) : string :=
  match s with Some x => x | None => "" end.

Definition upsert_of_profile (profile : Profile) : UpsertUser :=
  {| uu_id := None;
     uu_email := value (first_or_empty (emails profile));
     uu_firstName := value (or_empty (match name profile with
                                      | Some (given, _) => given
                                      | None => None
                                      end));
     uu_lastName := value (or_empty (match name profile with
                                     | Some (_, family) => family
                                     | None => None
                                     end));
     uu_profileImageUrl := value (first_or_empty (photos profile));
     uu_createdAt := undefined;
     uu_updatedAt := undefined |}.

(** The callback: [done(null, user)] or [done(err, undefined)]; the
    outcome of [upsertUser] is the one handed to [done]. *)
Definition google_verify (g : Gen) (jsNow : timestamp) (profile : Profile)
  : Promise User :=
  upsertUser g jsNow (upsert_of_profile profile).

(** ** storage.ts: favorites and exclusions *)

(** [removeFavorite(userId, postId)], for a [postId] as the store holds
    it.  The text a caller sends is read as a uuid first: see
    [delete_api_favorites_postId]. *)
Definition removeFavorite (userId postId : string) : Promise unit :=
  fun db =>
    (Resolved tt,
     set_favorites
       (filter (fun f => negb (String.eqb (favorites.userId f) userId
                               && String.eqb (favorites.postId f) postId))
          (tbl_favorites db)) db).

(** [insert(userExcludeTags).values(rows).onConflictDoNothing()]: one
    statement; a row that collides with a stored row, or with a row the
    statement has already taken, is skipped; the others must satisfy the
    foreign keys, and are stored together. *)
Definition insert_userExcludeTags_onConflictDoNothing (g : Gen)
    (rows : list (string * string)) : Promise unit :=
  fun db =>
    let taken :=
      fold_left
        (fun acc r => if conflicts userExcludeTags_unique r (tbl_userExcludeTags db ++ acc)
                      then acc else acc ++ [r])
        (map (fun ut => {| userExcludeTags.userId := fst ut;
                           userExcludeTags.tagId := snd ut;
                           userExcludeTags.createdAt := Some (now g) |}) rows)
        [] in
    if forallb (fun r => has_user db (userExcludeTags.userId r)
                         && has_tag db (userExcludeTags.tagId r)) taken
    then (Resolved tt, set_userExcludeTags (tbl_userExcludeTags db ++ taken) db)
    else (Rejected foreign_key_violation, db).

(** [addExcludeTag(userId, tagId)] *)
Definition addExcludeTag (g : Gen) (userId tagId : string) : Promise unit :=
  insert_userExcludeTags_onConflictDoNothing g [(userId, tagId)].

(** [removeExcludeTag(userId, tagId)]: [userExcludeTags.tagId] is a
    [uuid] column, so [tagId] is read as a uuid by the statement. *)
Definition removeExcludeTag (userId tagId : string) : Promise unit :=
  as_uuid tagId
    (fun tagId db =>
       (Resolved tt,
        set_userExcludeTags
          (filter (fun e => negb (String.eqb (userExcludeTags.userId e) userId
                                  && String.eqb (userExcludeTags.tagId e) tagId))
             (tbl_userExcludeTags db)) db)).

(** [results.map((r) => r.tag!).filter(Boolean)] *)
Definition filter_Boolean {A} (l : list (option A)) : list A :=
  flat_map (fun o => match o with Some a => [a] | None => [] end) l.

(** [getUserExcludeTags(userId)]: [userExcludeTags] left-joined with
    [tags], the rows of the user, the joined tag of each. *)
Definition getUserExcludeTags (userId : string) (db : DB) : list Tag :=
  let joined :=
    leftJoin (map (fun e => (e, @None Tag)) (tbl_userExcludeTags db)) (tbl_tags db)
      (fun r t => String.eqb (userExcludeTags.tagId (fst r)) (tags.id t))
      (fun r t => (fst r, t)) in
  let results :=
    filter (fun r => String.eqb (userExcludeTags.userId (fst r)) userId) joined in
  filter_Boolean (map snd results).

(** [tx.delete(userExcludeTags).where(eq(userExcludeTags.userId, userId))] *)
Definition delete_userExcludeTags_of (userId : string) : Promise unit :=
  fun db =>
    (Resolved tt,
     set_userExcludeTags
       (filter (fun e => negb (String.eqb (userExcludeTags.userId e) userId))
          (tbl_userExcludeTags db)) db).

(** [setUserExcludeTags(userId, tagIds)] *)
Definition setUserExcludeTags (g : Gen) (userId : string) (tagIds : list string)
  : Promise unit :=
  transaction
    (delete_userExcludeTags_of userId ;;;
     (if Nat.ltb 0 (List.length tagIds)
      then insert_userExcludeTags_onConflictDoNothing g
             (map (fun tagId => (userId, tagId)) tagIds)
      else resolve tt))%promise.

(** ** storage.ts: the favorites of a user *)

(** A row of [favorites] left-joined with [posts], [users], [postTags] and
    [tags]. *)
Record FavJoinRow : Type := {
  fj_favorite : Favorite;
  fj_post : option Post;
  fj_user : option User;
  fj_postTag : option PostTag;
  fj_tag : option Tag
}.

(** The selected fields: [post] is nullable here, it comes from a left
    join. *)
Module FavRow.
Record t : Type := {
  post : option Post;
  user : option User;
  tag : option Tag;
  isFavorited : bool
}.
End FavRow.

Definition favorites_join (db : DB) : list FavJoinRow :=
  let r0 := map (fun f => {| fj_favorite := f; fj_post := None; fj_user := None;
                             fj_postTag := None; fj_tag := None |}) (tbl_favorites db) in
  let r1 := leftJoin r0 (tbl_posts db)
              (fun j p => String.eqb (favorites.postId (fj_favorite j)) (posts.id p))
              (fun j p => {| fj_favorite := fj_favorite j; fj_post := p;
                             fj_user := fj_user j; fj_postTag := fj_postTag j;
                             fj_tag := fj_tag j |}) in
  let r2 := leftJoin r1 (tbl_users db)
              (fun j u => match fj_post j with
                          | Some p => String.eqb (posts.userId p) (users.id u)
                          | None => false
                          end)
              (fun j u => {| fj_favorite := fj_favorite j; fj_post := fj_post j;
                             fj_user := u; fj_postTag := fj_postTag j;
                             fj_tag := fj_tag j |}) in
  let r3 := leftJoin r2 (tbl_postTags db)
              (fun j pt => match fj_post j with
                           | Some p => String.eqb (posts.id p) (postTags.postId pt)
                           | None => false
                           end)
              (fun j pt => {| fj_favorite := fj_favorite j; fj_post := fj_post j;
                              fj_user := fj_user j; fj_postTag := pt;
                              fj_tag := fj_tag j |}) in
  leftJoin r3 (tbl_tags db)
    (fun j t => match fj_postTag j with
                | Some pt => String.eqb (postTags.tagId pt) (tags.id t)
                | None => false
                end)
    (fun j t => {| fj_favorite := fj_favorite j; fj_post := fj_post j;
                   fj_user := fj_user j; fj_postTag := fj_postTag j; fj_tag := t |}).

(** The loop body of the grouping in [getUserFavorites]. *)
Definition collect_favorites_step (postsMap : JsMap PostWithTags.t) (result : FavRow.t)
  : JsMap PostWithTags.t :=
  match FavRow.post result with
  | None => postsMap
  | Some post =>
      let postId := posts.id post in
      let postsMap :=
        if negb (Map_has postId postsMap)
        then Map_set postId
               {| PostWithTags.post := post;
                  PostWithTags.user := FavRow.user result;
                  PostWithTags.tags := [];
                  PostWithTags.isFavorited := true |} postsMap
        else postsMap in
      match FavRow.tag result with
      | Some tag =>
          match Map_get postId postsMap with
          | Some existingPost =>
              if negb (existsb (fun t => String.eqb (tags.id t) (tags.id tag))
                         (PostWithTags.tags existingPost))
              then Map_set postId
                     {| PostWithTags.post := PostWithTags.post existingPost;
                        PostWithTags.user := PostWithTags.user existingPost;
                        PostWithTags.tags := PostWithTags.tags existingPost ++ [tag];
                        PostWithTags.isFavorited :=
                          PostWithTags.isFavorited existingPost |}
                     postsMap
              else postsMap
          | None => postsMap
          end
      | None => postsMap
      end
  end.

(** The rows [getUserFavorites] awaits. *)
Definition getUserFavorites_rows (userId : string) (limit offset : nat) (db : DB)
  : list FavRow.t :=
  map (fun j => {| FavRow.post := fj_post j; FavRow.user := fj_user j;
                   FavRow.tag := fj_tag j; FavRow.isFavorited := true |})
    (firstn limit
       (skipn offset
          (orderBy (fun a b => desc_le (favorites.createdAt (fj_favorite a))
                                       (favorites.createdAt (fj_favorite b)))
             (filter (fun j => String.eqb (favorites.userId (fj_favorite j)) userId)
                (favorites_join db))))).

(** [getUserFavorites(userId, limit, offset)] *)
Definition getUserFavorites (userId : string) (limit offset : nat) (db : DB)
  : list PostWithTags.t :=
  Map_values (fold_left collect_favorites_step
                (getUserFavorites_rows userId limit offset db) []).

(** ** routes.ts: the handlers of posts and favorites, the default tags *)

(** What a handler of posts answers with: [res.json(post)],
    [res.json(posts)] or [res.status(status).json({ message })]. *)
Inductive Answer : Type :=
| answer_post (post : PostWithTags.t)
| answer_posts (posts : list PostWithTags.t)
| answer_message (status : nat) (message : string).

(** [GET /api/posts/:id]: [id] is the path parameter as sent, and the
    statement of [getPost] compares it with the [uuid] column [posts.id]. *)
Definition get_api_posts_id (id : string) (userId : option string) (db : DB) : Answer :=
  match as_uuid id (fun id => query (getPost id userId)) db with
  | (Resolved (Some post), _) => answer_post post
  | (Resolved None, _) => answer_message 404 "Post not found"
  | (Rejected _, _) => answer_message 500 "Failed to fetch post"
  end.

(** A number as [parseInt] returns it: an integer or [NaN]. *)
Inductive JsNumber : Type :=
| NaN
| Num (z : Z).

(** The largest [bigint], the type of the parameters of [LIMIT] and
    [OFFSET]. *)
Definition int8_max : Z := 9223372036854775807.

(** What [.limit(limit).offset(offset)] make of such numbers.  The query
    builder writes a [LIMIT] only for a limit that is [>= 0] and an [OFFSET]
    only for an offset that is truthy (neither [0] nor [NaN]); the store
    refuses a negative [OFFSET] and a number that is no [bigint].  [whole] is
    the number of rows of the statement, all of which it returns when it has
    no [LIMIT].  The result is the number of rows kept and the number skipped
    before them, or [None] when the store refuses the statement. *)
Definition page_bounds (limit offset : JsNumber) (whole : nat) : option (nat * nat) :=
  let take := match limit with
              | Num z => if (z <? 0)%Z then Some whole
                         else if (z <=? int8_max)%Z then Some (Z.to_nat z) else None
              | NaN => Some whole
              end in
  let skip := match offset with
                 | Num z => if (z <? 0)%Z then None
                            else if (z <=? int8_max)%Z then Some (Z.to_nat z) else None
                 | NaN => Some 0
                 end in
  match take, skip with
  | Some n, Some m => Some (n, m)
  | _, _ => None
  end.

(** [GET /api/user/posts]: [limit] and [offset] are [parseInt(limit)] and
    [parseInt(offset)]; a page of the feed for the viewer, of which the
    viewer's own posts are kept. *)
Definition get_api_user_posts (userId : string) (limit offset : JsNumber) (db : DB)
  : Answer :=
  let whole := List.length (filtered (getPosts_query None (Some userId) None db)) in
  match page_bounds limit offset whole with
  | Some (n, m) =>
      let posts := getPosts n m None (Some userId) None db in
      answer_posts
        (filter (fun post => String.eqb (posts.userId (PostWithTags.post post)) userId)
           posts)
  | None => answer_message 500 "Failed to fetch user posts"
  end.

(** [POST /api/exclude-tags].  [tagIds] is what the body holds under that
    name: [None] when it is not an array, else its elements, of which [None]
    is an element that is not a string.  [blank tagId] stands for
    [tagId.trim() === ""].  The loop awaits one [addExcludeTag] per kept
    element; [gens i] holds the values the store generates for the [i]-th
    insert. *)
Inductive Reply : Type :=
| reply_success
| reply_message (status : nat) (message : string).

Fixpoint addExcludeTags (blank : string -> bool) (gens : nat -> Gen) (i : nat)
    (userId : string) (tagIds : list (option string)) : Promise unit :=
  match tagIds with
  | [] => resolve tt
  | None :: rest => addExcludeTags blank gens i userId rest
  | Some tagId :: rest =>
      if blank tagId then addExcludeTags blank gens i userId rest
      else (addExcludeTag (gens i) userId tagId ;;;
            addExcludeTags blank gens (S i) userId rest)%promise
  end.

Definition post_api_exclude_tags (blank : string -> bool) (gens : nat -> Gen)
    (userId : string) (tagIds : option (list (option string))) (db : DB)
  : Reply * DB :=
  match tagIds with
  | None => (reply_message 400 "tagIds is required", db)
  | Some l =>
      if Nat.eqb (List.length l) 0
      then (reply_message 400 "tagIds is required", db)
      else match addExcludeTags blank gens 0 userId l db with
           | (Resolved _, db') => (reply_success, db')
           | (Rejected _, db') =>
               (reply_message 500 "Failed to add exclude tags", db')
           end
  end.

(** The elements of [tagIds] the loop does not skip. *)
Definition kept (blank : string -> bool) (tagIds : list (option string)) : list string :=
  flat_map (fun x => match x with
                     | Some s => if blank s then [] else [s]
                     | None => []
                     end) tagIds.

(** [DELETE /api/favorites/:postId]: [postId] is the path parameter as
    sent, and the statement of [removeFavorite] compares it with the [uuid]
    column [favorites.postId]. *)
Definition delete_api_favorites_postId (userId postId : string) (db : DB)
  : Reply * DB :=
  match as_uuid postId (removeFavorite userId) db with
  | (Resolved _, db') => (reply_success, db')
  | (Rejected _, db') => (reply_message 500 "Failed to remove favorite", db')
  end.

Definition defaultTags : list (string * TagCategory) :=
  [ ("犬", Bunrui); ("猫", Bunrui); ("鳥類", Bunrui); ("爬虫類", Bunrui);
    ("両生類", Bunrui); ("魚類", Bunrui); ("小動物", Bunrui); ("昆虫", Bunrui);
    ("その他", Bunrui);
    ("正面", Kakudo); ("横", Kakudo); ("斜め", Kakudo); ("上", Kakudo);
    ("下", Kakudo); ("後ろ", Kakudo);
    ("耳", Parts); ("ヒゲ", Parts); ("ツノ", Parts); ("牙", Parts);
    ("目", Parts); ("鼻", Parts); ("しっぽ", Parts) ].

(** [for (const tag of defaultTags) await storage.getOrCreateTag(...)];
    [gens i] holds the values the store generates for the [i]-th call. *)
Fixpoint getOrCreateTags (gens : nat -> Gen) (i : nat)
    (l : list (string * TagCategory)) : Promise unit :=
  match l with
  | [] => resolve tt
  | (name, category) :: rest =>
      (getOrCreateTag (gens i) name category ;;; getOrCreateTags gens (S i) rest)%promise
  end.

(** [initializeDefaultTags()]: an error ends the loop, is logged and is
    not passed on. *)
Definition initializeDefaultTags (gens : nat -> Gen) (db : DB) : DB :=
  snd (getOrCreateTags gens 0 defaultTags db).

(** Vocabulary of the statements about the remaining operations: the
    viewer [uid] has a favorite row for the post [pid]; the integrity the
    schema declares, as far as the statements below rely on it. *)
Definition favorited_by (db : DB) (uid pid : string) : bool :=
  existsb (fun f => String.eqb (favorites.postId f) pid
                    && String.eqb (favorites.userId f) uid) (tbl_favorites db).

Definition viewer_favorited (db : DB) (userId : option string) (pid : string) : bool :=
  match userId with
  | Some uid => truthy userId && favorited_by db uid pid
  | None => false
  end.

Definition rows_of_pair (name : string) (category : TagCategory) (db : DB) : nat :=
  List.length (select_tags_name_category name category db).

(** Primary keys and unique columns hold. *)
Definition keys_ok (db : DB) : Prop :=
  NoDup (map users.id (tbl_users db))
  /\ NoDup (map tags.id (tbl_tags db))
  /\ NoDup (map posts.id (tbl_posts db))
  /\ (forall u v, In u (tbl_users db) -> In v (tbl_users db) ->
        users.email u <> None -> users.email u = users.email v -> u = v).

(** Every reference points at a stored row. *)
Definition references_ok (db : DB) : Prop :=
  (forall p, In p (tbl_posts db) -> has_user db (posts.userId p) = true)
  /\ (forall pt, In pt (tbl_postTags db) ->
        has_post db (postTags.postId pt) = true /\ has_tag db (postTags.tagId pt) = true)
  /\ (forall f, In f (tbl_favorites db) ->
        has_user db (favorites.userId f) = true /\ has_post db (favorites.postId f) = true)
  /\ (forall e, In e (tbl_userExcludeTags db) ->
        has_user db (userExcludeTags.userId e) = true
        /\ has_tag db (userExcludeTags.tagId e) = true).

(** The integrity constraints of [schema.ts] together. *)
Definition integrity (db : DB) : Prop := keys_ok db /\ references_ok db.

(** The posts of the entries of [postsMap], in insertion order, and the
    order [desc(posts.createdAt)] asks for (NULLS FIRST). *)
Definition entry_posts (m : JsMap PostWithTags.t) : list Post :=
  map (fun kv => PostWithTags.post (snd kv)) m.

Definition newer_first (a b : Post) : Prop :=
  desc_le (posts.createdAt a) (posts.createdAt b) = true.

(** In a page, the first row of a post decides the fields the entry keeps. *)
Definition entries_from (m : JsMap PostWithTags.t) (done : list Row.t) : Prop :=
  forall k v, In (k, v) m ->
    exists row, In row done /\ Row.post row = PostWithTags.post v
                /\ Row.user row = PostWithTags.user v
                /\ Row.isFavorited row = PostWithTags.isFavorited v.

(** A favorite row as the grouping of [getPosts] would read it. *)
Definition FavRow_to_Row (r : FavRow.t) : list Row.t :=
  match FavRow.post r with
  | Some p => [{| Row.post := p; Row.user := FavRow.user r; Row.tag := FavRow.tag r;
                  Row.isFavorited := true |}]
  | None => []
  end.

(** ** Concrete stores used by the examples *)
Module Fixtures.

Definition mk_user (id : string) : User :=
  {| users.id := id; users.email := None; users.firstName := None;
     users.lastName := None; users.profileImageUrl := None;
     users.createdAt := Some 0%Z; users.updatedAt := Some 0%Z |}.

Definition alice : User := mk_user "alice".
Definition bob : User := mk_user "bob".

Definition dog : Tag :=
  {| tags.id := "t-dog"; tags.name := "犬"; tags.category := Bunrui;
     tags.createdAt := Some 1%Z |}.
Definition front : Tag :=
  {| tags.id := "t-front"; tags.name := "正面"; tags.category := Kakudo;
     tags.createdAt := Some 2%Z |}.
Definition cat : Tag :=
  {| tags.id := "t-cat"; tags.name := "猫"; tags.category := Bunrui;
     tags.createdAt := Some 3%Z |}.

Definition p1 : Post :=
  {| posts.id := "p1"; posts.userId := "alice"; posts.imageUrl := "/img/1.png";
     posts.caption := None; posts.createdAt := Some 10%Z |}.
Definition p2 : Post :=
  {| posts.id := "p2"; posts.userId := "bob"; posts.imageUrl := "/img/2.png";
     posts.caption := Some "second"; posts.createdAt := Some 20%Z |}.

Definition pt (p t : string) : PostTag :=
  {| postTags.postId := p; postTags.tagId := t |}.

(** [p1] carries 犬 and 正面; [p2] carries 猫. *)
Definition db0 : DB :=
  {| tbl_users := [alice; bob];
     tbl_tags := [dog; front; cat];
     tbl_posts := [p1; p2];
     tbl_postTags := [pt "p1" "t-dog"; pt "p1" "t-front"; pt "p2" "t-cat"];
     tbl_favorites := [];
     tbl_userExcludeTags := [] |}.

(** Only [p1], with its two tags. *)
Definition db1 : DB :=
  {| tbl_users := [alice; bob];
     tbl_tags := [dog; front; cat];
     tbl_posts := [p1];
     tbl_postTags := [pt "p1" "t-dog"; pt "p1" "t-front"];
     tbl_favorites := [];
     tbl_userExcludeTags := [] |}.

(** [db0] where the association row (p2, 犬) is stored twice: [post_tags_pk]
    is a plain index, and [createPost(post, [犬; 犬])] stores such rows. *)
Definition db_twice : DB :=
  set_postTags [pt "p1" "t-dog"; pt "p1" "t-front"; pt "p2" "t-dog"; pt "p2" "t-dog"]
    db0.

(** [db0] where alice has zoned 犬 out. *)
Definition db_zoned : DB :=
  set_userExcludeTags
    [{| userExcludeTags.userId := "alice"; userExcludeTags.tagId := "t-dog";
        userExcludeTags.createdAt := Some 30%Z |}] db0.

Definition g1 : Gen := {| gen_random_uuid := "uuid-1"; now := 100%Z |}.
Definition g2 : Gen := {| gen_random_uuid := "uuid-2"; now := 101%Z |}.

End Fixtures.

(** The row [createPost] stores, and the database it commits. *)
Definition newPost_of (g : Gen) (post : InsertPost) : Post :=
  {| posts.id := gen_random_uuid g; posts.userId := ip_userId post;
     posts.imageUrl := ip_imageUrl post; posts.caption := ip_caption post;
     posts.createdAt := Some (now g) |}.

Definition committed (g : Gen) (post : InsertPost) (tagIds : list string) (db : DB) : DB :=
  set_postTags
    (tbl_postTags db
       ++ map (fun tagId => {| postTags.postId := gen_random_uuid g;
                               postTags.tagId := tagId |}) tagIds)
    (set_posts (tbl_posts db ++ [newPost_of g post]) db).

(** What the grouping loop maintains about [postsMap] once the rows
    [done] are processed: keys are distinct; an entry is stored under the id
    of its post, which is the post of a processed row; every tag of an entry
    came with a processed row of that post; every processed row has its
    entry. *)
Definition collected (m : JsMap PostWithTags.t) (done : list Row.t) : Prop :=
  NoDup (map fst m)
  /\ (forall k v, In (k, v) m ->
        k = PostWithTags.id v
        /\ exists row, In row done /\ Row.post row = PostWithTags.post v)
  /\ (forall k v t, In (k, v) m -> In t (PostWithTags.tags v) ->
        exists row, In row done /\ posts.id (Row.post row) = k
                    /\ Row.tag row = Some t)
  /\ (forall row, In row done -> In (posts.id (Row.post row)) (map fst m)).

(** ... and no tag that came with a processed row is lost: the entry of
    the row's post lists a tag of that id. *)
Definition tags_kept (m : JsMap PostWithTags.t) (done : list Row.t) : Prop :=
  forall row t, In row done -> Row.tag row = Some t ->
    exists v, In (posts.id (Row.post row), v) m
              /\ In (tags.id t) (map tags.id (PostWithTags.tags v)).

(** ... and no entry lists a tag id twice. *)
Definition tags_distinct (m : JsMap PostWithTags.t) : Prop :=
  forall k v, In (k, v) m -> NoDup (map tags.id (PostWithTags.tags v)).

(** ... and no entry lists more than [n] tags. *)
Definition tags_bounded (n : nat) (m : JsMap PostWithTags.t) : Prop :=
  forall k v, In (k, v) m -> List.length (PostWithTags.tags v) <= n.

(** ** More concrete stores *)
Module Stores.

(** [db0] where bob has a favorite row for [p1], twice, and alice has zoned
    猫 out. *)
Definition db_fav : DB :=
  set_userExcludeTags
    [{| userExcludeTags.userId := "alice"; userExcludeTags.tagId := "t-cat";
        userExcludeTags.createdAt := Some 31%Z |}]
    (set_favorites
       [{| favorites.userId := "bob"; favorites.postId := "p1";
           favorites.createdAt := Some 40%Z |};
        {| favorites.userId := "bob"; favorites.postId := "p1";
           favorites.createdAt := Some 41%Z |}]
       Fixtures.db0).

Definition carol : User :=
  {| users.id := "carol"; users.email := Some "carol@example.org";
     users.firstName := Some "Carol"; users.lastName := None;
     users.profileImageUrl := None;
     users.createdAt := Some 5%Z; users.updatedAt := Some 5%Z |}.

(** A store whose only user has an email. *)
Definition db_carol : DB := set_users [carol] empty_db.

(** A supply of generated values with pairwise distinct ids. *)
Fixpoint tally (n : nat) : string :=
  match n with
  | O => ""
  | S n' => String "I" (tally n')
  end.

Definition gens (i : nat) : Gen :=
  {| gen_random_uuid := String "n" (tally i); now := Z.of_nat (200 + i) |}.

(** A second login of carol, with a new first name. *)
Definition carol_again : UpsertUser :=
  {| uu_id := None; uu_email := value "carol@example.org";
     uu_firstName := value "Caroline"; uu_lastName := undefined;
     uu_profileImageUrl := null; uu_createdAt := undefined;
     uu_updatedAt := undefined |}.

(** Two Google profiles that carry no email. *)
Definition anon1 : Profile :=
  {| emails := None; name := Some (Some "Ann", None); photos := None |}.
Definition anon2 : Profile :=
  {| emails := Some []; name := Some (Some "Ben", Some "Oni"); photos := Some ["/b.png"] |}.

End Stores.

(** A store whose ids in [uuid] columns are uuids: alice owns [p1] (犬),
    bob owns [p2] (猫) and has a favorite row for [p1], alice has zoned 猫
    out. *)
Module Canonical.

Definition id_p1 : string := "11111111-1111-4111-8111-111111111111".
Definition id_p2 : string := "22222222-2222-4222-8222-222222222222".
Definition id_dog : string := "aaaaaaaa-aaaa-4aaa-8aaa-aaaaaaaaaaaa".
Definition id_cat : string := "bbbbbbbb-bbbb-4bbb-8bbb-bbbbbbbbbbbb".

Definition dog : Tag :=
  {| tags.id := id_dog; tags.name := "犬"; tags.category := Bunrui;
     tags.createdAt := Some 1%Z |}.
Definition cat : Tag :=
  {| tags.id := id_cat; tags.name := "猫"; tags.category := Bunrui;
     tags.createdAt := Some 2%Z |}.

Definition p1 : Post :=
  {| posts.id := id_p1; posts.userId := "alice"; posts.imageUrl := "/img/1.png";
     posts.caption := None; posts.createdAt := Some 10%Z |}.
Definition p2 : Post :=
  {| posts.id := id_p2; posts.userId := "bob"; posts.imageUrl := "/img/2.png";
     posts.caption := None; posts.createdAt := Some 20%Z |}.

Definition db : DB :=
  {| tbl_users := [Fixtures.alice; Fixtures.bob];
     tbl_tags := [dog; cat];
     tbl_posts := [p1; p2];
     tbl_postTags := [Fixtures.pt id_p1 id_dog; Fixtures.pt id_p2 id_cat];
     tbl_favorites :=
       [{| favorites.userId := "bob"; favorites.postId := id_p1;
           favorites.createdAt := Some 40%Z |}];
     tbl_userExcludeTags :=
       [{| userExcludeTags.userId := "alice"; userExcludeTags.tagId := id_cat;
           userExcludeTags.createdAt := Some 31%Z |}] |}.

End Canonical.

(** The loop body of [getPost], named for the statements about it. *)
Definition getPost_push (acc : PostWithTags.t) (row : Row.t) : PostWithTags.t :=
  match Row.tag row with
  | Some tag =>
      if negb (existsb (fun t => String.eqb (tags.id t) (tags.id tag))
                 (PostWithTags.tags acc))
      then {| PostWithTags.post := PostWithTags.post acc;
              PostWithTags.user := PostWithTags.user acc;
              PostWithTags.tags := PostWithTags.tags acc ++ [tag];
              PostWithTags.isFavorited := PostWithTags.isFavorited acc |}
      else acc
  | None => acc
  end.

(** * Properties *)

(** Splits the conjunctions of the goal, not going under a binder. *)
Ltac conjs := repeat match goal with |- _ /\ _ => split end.

(** ** The combinators *)

Section OrderBy.
Context {A : Type} (le : A -> A -> bool).

Lemma insert_by_perm (x : A) (l : list A) :
  Permutation (insert_by le x l) (x :: l).
Proof.
  induction l as [|y l IH]; simpl.
  - apply Permutation_refl.
  - destruct (le x y).
    + apply Permutation_refl.
    + eapply perm_trans; [apply perm_skip, IH | apply perm_swap].
Qed.

Lemma orderBy_perm (l : list A) : Permutation (orderBy le l) l.
Proof.
  induction l as [|x l IH]; simpl.
  - constructor.
  - eapply perm_trans; [apply insert_by_perm | apply perm_skip, IH].
Qed.

Lemma orderBy_In (x : A) (l : list A) : In x (orderBy le l) <-> In x l.
Proof.
  split; apply Permutation_in;
    [apply orderBy_perm | apply Permutation_sym, orderBy_perm].
Qed.

Lemma orderBy_length (l : list A) : List.length (orderBy le l) = List.length l.
Proof. apply Permutation_length, orderBy_perm. Qed.

Hypothesis le_total : forall a b, le a b = true \/ le b a = true.

Lemma insert_by_HdRel (a x : A) (l : list A) :
  le a x = true ->
  HdRel (fun u v => le u v = true) a l ->
  HdRel (fun u v => le u v = true) a (insert_by le x l).
Proof.
  intros Hax Hal. destruct l as [|y l]; simpl.
  - constructor; exact Hax.
  - destruct (le x y); constructor; trivial.
    inversion Hal; assumption.
Qed.

Lemma insert_by_Sorted (x : A) (l : list A) :
  Sorted (fun u v => le u v = true) l ->
  Sorted (fun u v => le u v = true) (insert_by le x l).
Proof.
  induction l as [|y l IH]; simpl; intros Hs.
  - repeat constructor.
  - destruct (le x y) eqn:E.
    + constructor; [assumption | constructor; exact E].
    + inversion Hs as [|? ? Hs' Hhd]; subst.
      constructor; [apply IH; assumption |].
      apply insert_by_HdRel; [| assumption].
      destruct (le_total x y) as [H|H]; [congruence | exact H].
Qed.

Lemma orderBy_Sorted (l : list A) :
  Sorted (fun u v => le u v = true) (orderBy le l).
Proof.
  induction l as [|x l IH]; simpl.
  - constructor.
  - apply insert_by_Sorted, IH.
Qed.
End OrderBy.

Lemma inArray_In (x : string) (l : list string) : inArray x l = true <-> In x l.
Proof.
  unfold inArray. rewrite existsb_exists. split.
  - intros [y [Hy E]]. apply String.eqb_eq in E. subst. exact Hy.
  - intros H. exists x. split; [exact H | apply String.eqb_refl].
Qed.

Lemma notInArray_In (x : string) (l : list string) :
  notInArray x l = true <-> ~ In x l.
Proof.
  unfold notInArray. rewrite negb_true_iff, <- not_true_iff_false, inArray_In.
  reflexivity.
Qed.

Lemma has_tag_In (db : DB) (tid : string) :
  has_tag db tid = true <-> In tid (map tags.id (tbl_tags db)).
Proof.
  unfold has_tag. rewrite existsb_exists, in_map_iff. split.
  - intros [t [Ht E]]. apply String.eqb_eq in E. eauto.
  - intros [t [E Ht]]. exists t. split; [exact Ht | apply String.eqb_eq, E].
Qed.

Lemma has_post_In (db : DB) (pid : string) :
  has_post db pid = true <-> In pid (map posts.id (tbl_posts db)).
Proof.
  unfold has_post. rewrite existsb_exists, in_map_iff. split.
  - intros [t [Ht E]]. apply String.eqb_eq in E. eauto.
  - intros [t [E Ht]]. exists t. split; [exact Ht | apply String.eqb_eq, E].
Qed.

Lemma TagCategory_eqb_eq (a b : TagCategory) : TagCategory_eqb a b = true <-> a = b.
Proof. destruct a, b; simpl; split; congruence. Qed.

(** ** Tags by category *)

Section TagsByCategory.
Variable collate_le : string -> string -> bool.
Hypothesis collate_total :
  forall a b, collate_le a b = true \/ collate_le b a = true.

Lemma getTagsByCategory_perm (category : TagCategory) (db : DB) :
  Permutation (getTagsByCategory collate_le category db)
    (filter (fun t => TagCategory_eqb (tags.category t) category) (tbl_tags db)).
Proof. apply orderBy_perm. Qed.

Lemma getTagsByCategory_sorted (category : TagCategory) (db : DB) :
  Sorted (fun a b => collate_le (tags.name a) (tags.name b) = true)
    (getTagsByCategory collate_le category db).
Proof.
  unfold getTagsByCategory.
  apply (orderBy_Sorted (name_le collate_le)).
  intros a b. apply collate_total.
Qed.

Lemma getTagsByCategory_In (category : TagCategory) (db : DB) (t : Tag) :
  In t (getTagsByCategory collate_le category db)
  <-> In t (tbl_tags db) /\ tags.category t = category.
Proof.
  unfold getTagsByCategory. rewrite orderBy_In, filter_In, TagCategory_eqb_eq.
  reflexivity.
Qed.
End TagsByCategory.



(** ** Validation of the tags of a post *)

(** A key that is unique in a table is unique in every selection of it. *)
Lemma key_unique_in_selection {Row Key} (key : Row -> Key) (keep : Row -> bool)
    (rows : list Row) (Hkey : NoDup (map key rows)) :
  NoDup (map key (filter keep rows)).
Proof.
  induction rows as [|x rows IH]; simpl; [constructor |].
  inversion Hkey as [|? ? Hx Hrest]; subst.
  destruct (keep x); simpl; [constructor |]; auto.
  intros Hin. apply Hx. apply in_map_iff in Hin as [y [E Hy]].
  apply filter_In in Hy as [Hy _]. apply in_map_iff. eauto.
Qed.

(** With [tags.id] a primary key, the length test of [validatePostTags]
    holds exactly when the ids are pairwise distinct and all stored. *)
Lemma resolved_length_iff (tagIds : list string) (db : DB) :
  NoDup (map tags.id (tbl_tags db)) ->
  List.length (filter (fun t => inArray (tags.id t) tagIds) (tbl_tags db))
  = List.length tagIds
  <-> NoDup tagIds /\ forall id, In id tagIds -> has_tag db id = true.
Proof.
  intros Hpk.
  set (R := filter (fun t => inArray (tags.id t) tagIds) (tbl_tags db)).
  assert (HR : NoDup (map tags.id R)) by (apply key_unique_in_selection, Hpk).
  assert (Hsub : incl (map tags.id R) tagIds).
  { intros id Hid. apply in_map_iff in Hid as [t [E Ht]].
    apply filter_In in Ht as [_ Ht]. apply inArray_In in Ht. congruence. }
  rewrite <- (length_map tags.id R). split.
  - intros Hlen. split.
    + apply (@NoDup_incl_NoDup _ (map tags.id R) tagIds HR); [lia | exact Hsub].
    + intros id Hid. apply has_tag_In.
      assert (Hin : In id (map tags.id R)).
      { apply (@NoDup_length_incl _ (map tags.id R) tagIds HR); [lia | exact Hsub | exact Hid]. }
      apply in_map_iff in Hin as [t [E Ht]]. apply filter_In in Ht as [Ht _].
      apply in_map_iff. eauto.
  - intros [Hnd Hall].
    assert (Hsup : incl tagIds (map tags.id R)).
    { intros id Hid. specialize (Hall id Hid). apply has_tag_In in Hall.
      apply in_map_iff in Hall as [t [E Ht]]. apply in_map_iff. exists t.
      split; [exact E |]. apply filter_In. split; [exact Ht |].
      apply inArray_In. congruence. }
    apply Nat.le_antisymm; apply NoDup_incl_length; assumption.
Qed.

Lemma validatePostTags_true_iff (tagIds : list string) (db : DB) :
  NoDup (map tags.id (tbl_tags db)) ->
  validatePostTags tagIds db = true
  <-> tagIds <> []
      /\ NoDup tagIds
      /\ (forall id, In id tagIds -> has_tag db id = true)
      /\ (exists t, In t (tbl_tags db) /\ In (tags.id t) tagIds
                    /\ tags.category t = Bunrui).
Proof.
  intros Hpk. unfold validatePostTags.
  destruct tagIds as [|i0 rest] eqn:Eids.
  { simpl. split; [discriminate | intros [H _]; congruence]. }
  rewrite <- Eids.
  assert (Hl : Nat.eqb (List.length tagIds) 0 = false)
    by (subst tagIds; reflexivity).
  rewrite Hl.
  pose proof (resolved_length_iff tagIds db Hpk) as Hlen.
  destruct (Nat.eqb_spec
              (List.length (filter (fun t => inArray (tags.id t) tagIds) (tbl_tags db)))
              (List.length tagIds)) as [E|E]; simpl.
  - apply Hlen in E as [Hnd Hall]. rewrite existsb_exists. split.
    + intros [t [Ht Hc]]. apply filter_In in Ht as [Ht Hi].
      repeat split; try assumption; [subst tagIds; discriminate |].
      exists t. repeat split; [exact Ht | apply inArray_In, Hi |].
      apply TagCategory_eqb_eq, Hc.
    + intros [_ [_ [_ [t [Ht [Hi Hc]]]]]]. exists t. split.
      * apply filter_In. split; [exact Ht | apply inArray_In, Hi].
      * apply TagCategory_eqb_eq, Hc.
  - split; [discriminate |]. intros [_ [Hnd [Hall _]]].
    exfalso. apply E, Hlen. split; assumption.
Qed.

(** The three refusals the policy names. *)
Lemma validatePostTags_refuses (tagIds : list string) (db : DB) :
  NoDup (map tags.id (tbl_tags db)) ->
  (tagIds = [] -> validatePostTags tagIds db = false)
  /\ ((exists id, In id tagIds /\ has_tag db id = false) ->
      validatePostTags tagIds db = false)
  /\ ((forall t, In t (tbl_tags db) -> In (tags.id t) tagIds ->
                 tags.category t <> Bunrui) ->
      validatePostTags tagIds db = false).
Proof.
  intros Hpk. pose proof (validatePostTags_true_iff tagIds db Hpk) as Hiff.
  repeat split.
  - intros ->. reflexivity.
  - intros [id [Hin Hno]]. apply not_true_iff_false. intros Hv.
    apply Hiff in Hv as [_ [_ [Hall _]]]. rewrite (Hall id Hin) in Hno. discriminate.
  - intros Hnone. apply not_true_iff_false. intros Hv.
    apply Hiff in Hv as [_ [_ [_ [t [Ht [Hi Hc]]]]]]. exact (Hnone t Ht Hi Hc).
Qed.

(** C4: with [tags.id] a primary key, a list that repeats an id is
    refused whatever it resolves to.  At [tagIds = [犬; 犬]] both ids resolve
    to the stored classification tag 犬, and [validatePostTags] returns
    [false]; it accepts [[犬]]. *)
Theorem validatePostTags_repeated_id_refused :
  (forall tagIds db,
      NoDup (map tags.id (tbl_tags db)) -> ~ NoDup tagIds ->
      validatePostTags tagIds db = false)
  /\ validatePostTags ["t-dog"; "t-dog"] Fixtures.db0 = false
  /\ forallb (has_tag Fixtures.db0) ["t-dog"; "t-dog"] = true
  /\ existsb (fun t => inArray (tags.id t) ["t-dog"; "t-dog"]
                       && TagCategory_eqb (tags.category t) Bunrui)
       (tbl_tags Fixtures.db0) = true
  /\ validatePostTags ["t-dog"] Fixtures.db0 = true.
Proof.
  split; [| repeat split].
  intros tagIds db Hpk Hrep. apply not_true_iff_false. intros Hv.
  apply (validatePostTags_true_iff tagIds db Hpk) in Hv as [_ [Hnd _]].
  exact (Hrep Hnd).
Qed.

(** ** createPost *)

Lemma conflicts_posts (r : Post) (db : DB) :
  conflicts posts_unique r (tbl_posts db) = has_post db (posts.id r).
Proof.
  unfold conflicts, has_post, posts_unique.
  induction (tbl_posts db) as [|p l IH]; simpl in *; [reflexivity |].
  rewrite IH, orb_false_r. reflexivity.
Qed.

Lemma conflicts_nil {A} (r : A) (table : list A) : conflicts [] r table = false.
Proof. unfold conflicts. induction table; simpl; auto. Qed.

Lemma insert_postTags_cases (rows : list PostTag) (db : DB) :
  insert_postTags rows db =
  if forallb (fun r => has_post db (postTags.postId r)
                       && has_tag db (postTags.tagId r)) rows
  then (Resolved tt, set_postTags (tbl_postTags db ++ rows) db)
  else (Rejected foreign_key_violation, db).
Proof.
  unfold insert_postTags, postTags_unique.
  assert (H : existsb (fun r => conflicts [] r (tbl_postTags db)) rows = false).
  { induction rows as [|r l IH]; simpl; [reflexivity |].
    rewrite conflicts_nil, IH. reflexivity. }
  rewrite H. reflexivity.
Qed.

Lemma forallb_postTags_rows (db : DB) (newPost : Post) (tagIds : list string) :
  has_user db (posts.userId newPost) = true ->
  forallb (fun r => has_post (set_posts (tbl_posts db ++ [newPost]) db) (postTags.postId r)
                    && has_tag (set_posts (tbl_posts db ++ [newPost]) db) (postTags.tagId r))
    (map (fun tagId => {| postTags.postId := posts.id newPost;
                          postTags.tagId := tagId |}) tagIds)
  = forallb (has_tag db) tagIds.
Proof.
  intros _. induction tagIds as [|t l IH]; simpl; [reflexivity |].
  rewrite IH. f_equal.
  unfold has_post at 1. simpl. rewrite existsb_app. simpl.
  rewrite String.eqb_refl, orb_true_r. reflexivity.
Qed.

Lemma createPost_cases (g : Gen) (post : InsertPost) (tagIds : list string) (db : DB) :
  createPost g post tagIds db =
  if has_post db (gen_random_uuid g) then (Rejected unique_violation, db)
  else if negb (has_user db (ip_userId post)) then (Rejected foreign_key_violation, db)
  else if forallb (has_tag db) tagIds
       then (Resolved (newPost_of g post), committed g post tagIds db)
       else (Rejected foreign_key_violation, db).
Proof.
  unfold createPost, transaction, await, insert_posts.
  rewrite conflicts_posts. cbn [posts.id posts.userId].
  destruct (has_post db (gen_random_uuid g)); [reflexivity |].
  destruct (has_user db (ip_userId post)) eqn:Hu; cbn [negb]; [| reflexivity].
  fold (newPost_of g post).
  destruct tagIds as [|t l].
  - cbn. unfold committed, set_postTags, set_posts. cbn.
    rewrite app_nil_r. destruct db; reflexivity.
  - change (Nat.ltb 0 (List.length (t :: l))) with true. cbv iota.
    rewrite insert_postTags_cases.
    match goal with
    | |- context [forallb ?f (map ?m (t :: l))] =>
        replace (forallb f (map m (t :: l))) with (forallb (has_tag db) (t :: l))
          by (symmetry; apply (forallb_postTags_rows db (newPost_of g post)); exact Hu)
    end.
    destruct (forallb (has_tag db) (t :: l)); reflexivity.
Qed.

(** C6: [createPost] stores the post row and one association row per tag
    id, or nothing.  It resolves exactly when the generated id is unused,
    the owner exists and every tag id is stored; an association row for an
    unknown tag rejects the call, and a rejected call leaves the database as
    it was. *)
Theorem createPost_all_or_nothing
    (g : Gen) (post : InsertPost) (tagIds : list string) (db : DB) :
  (forall p db', createPost g post tagIds db = (Resolved p, db') ->
     p = newPost_of g post
     /\ tbl_posts db' = tbl_posts db ++ [p]
     /\ tbl_postTags db'
        = tbl_postTags db
          ++ map (fun tagId => {| postTags.postId := posts.id p;
                                  postTags.tagId := tagId |}) tagIds
     /\ tbl_users db' = tbl_users db /\ tbl_tags db' = tbl_tags db
     /\ tbl_favorites db' = tbl_favorites db
     /\ tbl_userExcludeTags db' = tbl_userExcludeTags db)
  /\ (forall e db', createPost g post tagIds db = (Rejected e, db') -> db' = db)
  /\ ((exists tagId, In tagId tagIds /\ has_tag db tagId = false) ->
      exists e, createPost g post tagIds db = (Rejected e, db))
  /\ (has_post db (gen_random_uuid g) = false ->
      has_user db (ip_userId post) = true ->
      (forall tagId, In tagId tagIds -> has_tag db tagId = true) ->
      createPost g post tagIds db
      = (Resolved (newPost_of g post), committed g post tagIds db)).
Proof.
  rewrite createPost_cases.
  destruct (has_post db (gen_random_uuid g)) eqn:Hp;
    [| destruct (has_user db (ip_userId post)) eqn:Hu; cbn [negb];
       [destruct (forallb (has_tag db) tagIds) eqn:Ht |]].
  - repeat split; try discriminate; try congruence. eauto.
  - split; [| split; [| split]].
    + intros q db' H. inversion H; subst. repeat split.
    + discriminate.
    + intros [tagId [Hin Hno]]. exfalso.
      rewrite forallb_forall in Ht. rewrite (Ht tagId Hin) in Hno. discriminate.
    + reflexivity.
  - split; [| split; [| split]].
    + discriminate.
    + congruence.
    + eauto.
    + intros _ _ Hall. exfalso.
      apply not_true_iff_false in Ht. apply Ht, forallb_forall. exact Hall.
  - repeat split; try discriminate; try congruence. eauto.
Qed.

Lemma createPost_all_or_nothing_witness :
  (exists tagId, In tagId ["t-dog"; "t-none"]
                 /\ has_tag Fixtures.db0 tagId = false)
  /\ exists e,
      createPost Fixtures.g1
        {| ip_userId := "alice"; ip_imageUrl := "/img/3.png"; ip_caption := None |}
        ["t-dog"; "t-none"] Fixtures.db0 = (Rejected e, Fixtures.db0).
Proof.
  assert (H : exists tagId, In tagId ["t-dog"; "t-none"]
                            /\ has_tag Fixtures.db0 tagId = false).
  { exists "t-none". split; [simpl; auto | reflexivity]. }
  split; [exact H |].
  exact (proj1 (proj2 (proj2 (createPost_all_or_nothing Fixtures.g1
           {| ip_userId := "alice"; ip_imageUrl := "/img/3.png"; ip_caption := None |}
           ["t-dog"; "t-none"] Fixtures.db0))) H).
Defined.

(** ** deletePost *)

Lemma filter_all {A} (p : A -> bool) (l : list A) :
  (forall x, In x l -> p x = true) -> filter p l = l.
Proof.
  intros H. apply forallb_filter_id, forallb_forall, H.
Qed.

Lemma filter_none {A} (p : A -> bool) (l : list A) :
  existsb p l = false -> filter p l = [].
Proof.
  induction l as [|x l IH]; simpl; [reflexivity |].
  destruct (p x); simpl; [discriminate | exact IH].
Qed.

Lemma nonempty_filter_existsb {A} (p : A -> bool) (l : list A) :
  Nat.ltb 0 (List.length (filter p l)) = existsb p l.
Proof.
  induction l as [|x l IH]; simpl; [reflexivity |].
  destruct (p x); simpl; [reflexivity | exact IH].
Qed.

Lemma filter_negb_shorter {A} (p : A -> bool) (l : list A) :
  existsb p l = true
  <-> List.length (filter (fun x => negb (p x)) l) < List.length l.
Proof.
  pose proof (filter_length p l) as Hlen.
  pose proof (nonempty_filter_existsb p l) as Hne.
  destruct (existsb p l).
  - apply Nat.ltb_lt in Hne. split; [lia | reflexivity].
  - apply Nat.ltb_ge in Hne. split; [discriminate | lia].
Qed.

(** C7, as the code has it.  The statement reads [id] as a uuid.  When it
    reads as the uuid [u], [deletePost] removes exactly the rows whose id is
    [u] and whose owner is [userId]; it answers [true] exactly when the table
    lost a row; when no row has that id and that owner it answers [false] and
    leaves the whole database, so every post row, as it was.  When [id] is
    not uuid syntax the call is rejected and the database is as it was. *)
Theorem deletePost_owner_only (id userId : string) (db : DB) :
  match uuid_in id with
  | Some u =>
      exists db',
        deletePost id userId db
        = (Resolved (existsb (fun p => String.eqb (posts.id p) u
                                       && String.eqb (posts.userId p) userId)
                       (tbl_posts db)), db')
        /\ tbl_posts db'
           = filter (fun p => negb (String.eqb (posts.id p) u
                                    && String.eqb (posts.userId p) userId))
               (tbl_posts db)
        /\ (existsb (fun p => String.eqb (posts.id p) u
                              && String.eqb (posts.userId p) userId) (tbl_posts db) = true
            <-> List.length (tbl_posts db') < List.length (tbl_posts db))
        /\ ((forall p, In p (tbl_posts db) -> posts.id p = u -> posts.userId p <> userId)
            -> deletePost id userId db = (Resolved false, db))
  | None => deletePost id userId db = (Rejected invalid_text_representation, db)
  end.
Proof.
  unfold deletePost, as_uuid. destruct (uuid_in id) as [u|]; [| reflexivity].
  set (owned := fun p : Post => String.eqb (posts.id p) u
                                && String.eqb (posts.userId p) userId).
  unfold await, delete_posts, resolve. cbn [fst snd].
  eexists. split; [| split; [| split]].
  - f_equal. f_equal. apply nonempty_filter_existsb.
  - reflexivity.
  - cbn [tbl_posts]. apply (filter_negb_shorter owned).
  - intros Hnot. fold owned.
    assert (E : existsb owned (tbl_posts db) = false).
    { apply not_true_iff_false. intros Hex.
      apply existsb_exists in Hex as [p [Hin Hp]]. unfold owned in Hp.
      apply andb_true_iff in Hp as [H1 H2].
      apply String.eqb_eq in H1, H2. exact (Hnot p Hin H1 H2). }
    fold owned. rewrite (filter_none _ _ E). cbn [map List.length Nat.ltb Nat.leb].
    f_equal. destruct db as [us ts ps pts fs es]. cbn. f_equal.
    + apply filter_all. intros p Hin.
      change (negb (owned p) = true).
      destruct (owned p) eqn:Ep; [| reflexivity].
      exfalso. apply not_true_iff_false in E. apply E.
      apply existsb_exists. eauto.
    + apply filter_all. reflexivity.
    + apply filter_all. reflexivity.
Qed.

Lemma deletePost_owner_only_witness :
  uuid_in Canonical.id_p1 = Some Canonical.id_p1
  /\ (forall p, In p (tbl_posts Canonical.db) -> posts.id p = Canonical.id_p1 ->
                posts.userId p <> "bob")
  /\ deletePost Canonical.id_p1 "bob" Canonical.db = (Resolved false, Canonical.db).
Proof.
  assert (E : uuid_in Canonical.id_p1 = Some Canonical.id_p1) by reflexivity.
  assert (H : forall p, In p (tbl_posts Canonical.db) -> posts.id p = Canonical.id_p1 ->
                        posts.userId p <> "bob").
  { intros p [<- | [<- | []]]; simpl; intros; discriminate. }
  split; [exact E |]. split; [exact H |].
  pose proof (deletePost_owner_only Canonical.id_p1 "bob" Canonical.db) as Hd.
  rewrite E in Hd. destruct Hd as [db' [_ [_ [_ Hk]]]].
  exact (Hk H).
Defined.

(** C7 as stated fails: no post has the id [not-a-uuid], yet
    [deletePost] does not answer [false]; the store refuses the text and the
    call is rejected. *)
Lemma deletePost_text_not_uuid_throws :
  (forall p, In p (tbl_posts Canonical.db) -> posts.id p <> "not-a-uuid")
  /\ deletePost "not-a-uuid" "alice" Canonical.db
     = (Rejected invalid_text_representation, Canonical.db)
  /\ fst (deletePost "not-a-uuid" "alice" Canonical.db) <> Resolved false.
Proof.
  split; [| split].
  - intros p [<- | [<- | []]]; discriminate.
  - reflexivity.
  - discriminate.
Qed.

(** ** addFavorite *)

Lemma addFavorite_appends (g : Gen) (userId postId : string) (db : DB) :
  has_user db userId = true -> has_post db postId = true ->
  addFavorite g userId postId db
  = (Resolved tt,
     set_favorites
       (tbl_favorites db
          ++ [{| favorites.userId := userId; favorites.postId := postId;
                 favorites.createdAt := Some (now g) |}]) db).
Proof.
  intros Hu Hp. unfold addFavorite, insert_favorites_onConflictDoNothing,
    favorites_unique.
  rewrite conflicts_nil, Hu, Hp. reflexivity.
Qed.

(** C8: for a stored user and a stored post, two calls of [addFavorite]
    both resolve and add two favorite rows for the pair.  At user bob and
    post [p1], no favorite stored: two rows for (bob, [p1]) afterwards. *)
Theorem addFavorite_twice_two_rows :
  (forall g1 g2 userId postId db,
      has_user db userId = true -> has_post db postId = true ->
      let pair := fun f => String.eqb (favorites.userId f) userId
                           && String.eqb (favorites.postId f) postId in
      let '(r1, db1) := addFavorite g1 userId postId db in
      let '(r2, db2) := addFavorite g2 userId postId db1 in
      r1 = Resolved tt /\ r2 = Resolved tt
      /\ List.length (filter pair (tbl_favorites db2))
         = List.length (filter pair (tbl_favorites db)) + 2)
  /\ (let '(r1, db1) := addFavorite Fixtures.g1 "bob" "p1" Fixtures.db0 in
      let '(r2, db2) := addFavorite Fixtures.g2 "bob" "p1" db1 in
      r1 = Resolved tt /\ r2 = Resolved tt
      /\ List.length
           (filter (fun f => String.eqb (favorites.userId f) "bob"
                             && String.eqb (favorites.postId f) "p1")
              (tbl_favorites db2)) = 2).
Proof.
  split; [| repeat split].
  intros g1 g2 userId postId db Hu Hp pair.
  rewrite (addFavorite_appends g1 _ _ _ Hu Hp).
  rewrite (addFavorite_appends g2 userId postId
             (set_favorites _ db) Hu Hp).
  split; [reflexivity | split; [reflexivity |]].
  cbn [tbl_favorites set_favorites]. rewrite <- app_assoc, filter_app, length_app.
  f_equal. unfold pair. simpl. rewrite !String.eqb_refl. reflexivity.
Qed.

(** ** getOrCreateTag *)

(** A call that is not interrupted is the two steps of its task. *)
Lemma getOrCreateTag_steps (g : Gen) (name : string) (category : TagCategory) (db : DB) :
  let (t1, db1) := Interleaving.step (Interleaving.at_select g name category) db in
  let (t2, db2) := Interleaving.step t1 db1 in
  (t2, db2)
  = (Interleaving.settled (fst (getOrCreateTag g name category db)),
     snd (getOrCreateTag g name category db)).
Proof.
  unfold getOrCreateTag, await, query, resolve. simpl.
  destruct (select_tags_name_category name category db) as [|t l]; simpl.
  - destruct (createTag g {| it_name := name; it_category := category |} db).
    reflexivity.
  - reflexivity.
Qed.

(** Called when a row for the pair is stored, it returns that row and
    writes nothing. *)
Lemma getOrCreateTag_existing (g : Gen) (name : string) (category : TagCategory)
    (db : DB) :
  0 < Interleaving.rows_for name category db ->
  snd (getOrCreateTag g name category db) = db.
Proof.
  unfold Interleaving.rows_for, getOrCreateTag, await, query, resolve. simpl.
  destruct (select_tags_name_category name category db); simpl; [lia | reflexivity].
Qed.

(** ** The race of [getOrCreateTag] on any store *)

Lemma conflicts_tags (r : Tag) (db : DB) :
  conflicts tags_unique r (tbl_tags db) = has_tag db (tags.id r).
Proof.
  unfold conflicts, has_tag, tags_unique.
  induction (tbl_tags db) as [|t l IH]; simpl in *; [reflexivity |].
  rewrite IH, orb_false_r. reflexivity.
Qed.

(** Two callers ask for a pair that has no row; their generated ids are
    new and distinct.  When both selects run before the inserts, the store
    ends with two rows for the pair. *)
Lemma getOrCreateTag_race (g1 g2 : Gen) (name : string) (category : TagCategory)
    (db : DB) :
  Interleaving.rows_for name category db = 0 ->
  has_tag db (gen_random_uuid g1) = false ->
  has_tag db (gen_random_uuid g2) = false ->
  gen_random_uuid g1 <> gen_random_uuid g2 ->
  Interleaving.rows_for name category
    (snd (Interleaving.run_schedule [0; 1; 0; 1]
            [Interleaving.at_select g1 name category;
             Interleaving.at_select g2 name category] db)) = 2.
Proof.
  intros Hnone H1 H2 Hne.
  unfold Interleaving.rows_for in *.
  assert (Hsel : select_tags_name_category name category db = []).
  { destruct (select_tags_name_category name category db); [reflexivity | discriminate]. }
  cbn [Interleaving.run_schedule Interleaving.step_nth Interleaving.step].
  rewrite Hsel.
  cbn [Interleaving.run_schedule Interleaving.step_nth Interleaving.step].
  rewrite Hsel.
  cbn [Interleaving.run_schedule Interleaving.step_nth Interleaving.step].
  unfold createTag, insert_tags. cbn [it_name it_category]. cbv beta zeta.
  rewrite conflicts_tags. cbn [tags.id]. rewrite H1.
  cbn [Interleaving.run_schedule Interleaving.step_nth Interleaving.step snd].
  unfold createTag, insert_tags. cbn [it_name it_category]. cbv beta zeta.
  rewrite conflicts_tags. cbn [tags.id].
  assert (H2' : has_tag (set_tags (tbl_tags db ++
                  [{| tags.id := gen_random_uuid g1; tags.name := name;
                      tags.category := category; tags.createdAt := Some (now g1) |}]) db)
                  (gen_random_uuid g2) = false).
  { apply not_true_iff_false. intros H. apply has_tag_In in H.
    cbn [tbl_tags set_tags] in H. rewrite map_app in H.
    apply in_app_or in H as [H | [H | []]].
    - apply has_tag_In in H. congruence.
    - exact (Hne H). }
  rewrite H2'.
  cbn [snd].
  assert (Happ : forall l db',
             select_tags_name_category name category (set_tags (tbl_tags db ++ l) db')
             = select_tags_name_category name category db
               ++ filter (fun t => String.eqb (tags.name t) name
                                   && TagCategory_eqb (tags.category t) category) l).
  { intros l db'. unfold select_tags_name_category. cbn [tbl_tags set_tags].
    apply filter_app. }
  cbn [tbl_tags set_tags]. rewrite <- app_assoc, Happ, Hsel. simpl.
  rewrite String.eqb_refl.
  assert (Hc : TagCategory_eqb category category = true)
    by (apply TagCategory_eqb_eq; reflexivity).
  rewrite Hc. reflexivity.
Qed.

(** C5: two callers ask for a pair without a row, with new and distinct
    generated ids; when both selects run before either insert, two rows for
    the pair are stored.  With two callers of
    [getOrCreateTag("鳥類", "分類")] on a store without that tag both calls
    resolve and leave two rows; run one after the other, they leave one. *)
Theorem getOrCreateTag_race_two_rows :
  (forall g1 g2 name category db,
      Interleaving.rows_for name category db = 0 ->
      has_tag db (gen_random_uuid g1) = false ->
      has_tag db (gen_random_uuid g2) = false ->
      gen_random_uuid g1 <> gen_random_uuid g2 ->
      Interleaving.rows_for name category
        (snd (Interleaving.run_schedule [0; 1; 0; 1]
                [Interleaving.at_select g1 name category;
                 Interleaving.at_select g2 name category] db)) = 2)
  /\ (let calls := [Interleaving.at_select Fixtures.g1 "鳥類" Bunrui;
                    Interleaving.at_select Fixtures.g2 "鳥類" Bunrui] in
      let '(ts, db') := Interleaving.run_schedule [0; 1; 0; 1] calls Fixtures.db0 in
      let '(ts_seq, db_seq) :=
        Interleaving.run_schedule [0; 0; 1; 1] calls Fixtures.db0 in
      Interleaving.rows_for "鳥類" Bunrui Fixtures.db0 = 0
      /\ forallb Interleaving.is_settled ts = true
      /\ Interleaving.rows_for "鳥類" Bunrui db' = 2
      /\ forallb Interleaving.is_settled ts_seq = true
      /\ Interleaving.rows_for "鳥類" Bunrui db_seq = 1).
Proof.
  split; [exact getOrCreateTag_race | repeat split].
Qed.

(** ** The grouping loop *)

Lemma Map_has_In {V} (k : string) (m : JsMap V) :
  Map_has k m = true <-> In k (map fst m).
Proof.
  unfold Map_has. rewrite existsb_exists, in_map_iff. split.
  - intros [kv [Hin E]]. apply String.eqb_eq in E. eauto.
  - intros [kv [E Hin]]. exists kv. split; [exact Hin | apply String.eqb_eq, E].
Qed.

Lemma Map_get_In {V} (k : string) (v : V) (m : JsMap V) :
  Map_get k m = Some v -> In (k, v) m.
Proof.
  unfold Map_get. destruct (find _ m) as [[k' v']|] eqn:E; simpl; [| discriminate].
  intros [= <-]. apply find_some in E as [Hin Hk]. simpl in Hk.
  apply String.eqb_eq in Hk. subst. exact Hin.
Qed.

Lemma Map_set_In {V} (k : string) (v : V) (k' : string) (v' : V) (m : JsMap V) :
  In (k', v') (Map_set k v m) -> (k' = k /\ v' = v) \/ In (k', v') m.
Proof.
  unfold Map_set. destruct (Map_has k m).
  - intros Hin. apply in_map_iff in Hin as [[k0 v0] [E Hin]]. simpl in E.
    destruct (String.eqb k0 k).
    + left. inversion E. auto.
    + right. rewrite <- E. exact Hin.
  - intros Hin. apply in_app_or in Hin as [Hin | [E | []]].
    + right. exact Hin.
    + left. inversion E. auto.
Qed.

Lemma Map_set_keys {V} (k : string) (v : V) (m : JsMap V) :
  map fst (Map_set k v m) = if Map_has k m then map fst m else map fst m ++ [k].
Proof.
  unfold Map_set. destruct (Map_has k m).
  - rewrite map_map. apply map_ext. intros [k0 v0]. simpl.
    destruct (String.eqb_spec k0 k); simpl; congruence.
  - rewrite map_app. reflexivity.
Qed.

Lemma collected_nil : collected [] [].
Proof.
  unfold collected. repeat split; try constructor; intros; contradiction.
Qed.

Lemma collected_fresh (m : JsMap PostWithTags.t) (done : list Row.t) (row : Row.t) :
  collected m done ->
  collected
    (if negb (Map_has (posts.id (Row.post row)) m)
     then Map_set (posts.id (Row.post row))
            {| PostWithTags.post := Row.post row; PostWithTags.user := Row.user row;
               PostWithTags.tags := [];
               PostWithTags.isFavorited := Row.isFavorited row |} m
     else m)
    (done ++ [row]).
Proof.
  intros [Hnd [Hent [Htag Hrow]]].
  destruct (Map_has (posts.id (Row.post row)) m) eqn:Hhas; simpl.
  - repeat split.
    + exact Hnd.
    + apply (Hent k v H).
    + destruct (Hent k v H) as [_ [r [Hr E]]]. exists r.
      split; [apply in_or_app; auto | exact E].
    + intros k v t Hin Ht. destruct (Htag k v t Hin Ht) as [r [Hr E]].
      exists r. split; [apply in_or_app; auto | exact E].
    + intros r Hr. apply in_app_or in Hr as [Hr | [<- | []]].
      * apply Hrow, Hr.
      * apply Map_has_In, Hhas.
  - unfold Map_set. rewrite Hhas. repeat split.
    + rewrite map_app. simpl. apply NoDup_app; [exact Hnd | repeat constructor; auto |].
      intros x Hx [<- | []]. apply Map_has_In in Hx. congruence.
    + apply in_app_or in H as [H | [E | []]].
      * apply (Hent k v H).
      * inversion E. reflexivity.
    + apply in_app_or in H as [H | [E | []]].
      * destruct (Hent k v H) as [_ [r [Hr E]]]. exists r.
        split; [apply in_or_app; auto | exact E].
      * inversion E. exists row. split; [apply in_or_app; simpl; auto | reflexivity].
    + intros k v t Hin Ht. apply in_app_or in Hin as [Hin | [E | []]].
      * destruct (Htag k v t Hin Ht) as [r [Hr E]].
        exists r. split; [apply in_or_app; auto | exact E].
      * inversion E; subst. contradiction.
    + intros r Hr. rewrite map_app. apply in_or_app.
      apply in_app_or in Hr as [Hr | [<- | []]].
      * left. apply Hrow, Hr.
      * right. simpl. auto.
Qed.

Lemma collected_push (m : JsMap PostWithTags.t) (done : list Row.t)
    (row : Row.t) (tag : Tag) (existingPost : PostWithTags.t) :
  collected m done ->
  In row done -> Row.tag row = Some tag ->
  Map_get (posts.id (Row.post row)) m = Some existingPost ->
  collected
    (Map_set (posts.id (Row.post row))
       {| PostWithTags.post := PostWithTags.post existingPost;
          PostWithTags.user := PostWithTags.user existingPost;
          PostWithTags.tags := PostWithTags.tags existingPost ++ [tag];
          PostWithTags.isFavorited := PostWithTags.isFavorited existingPost |} m)
    done.
Proof.
  intros [Hnd [Hent [Htag Hrow]]] Hin Ht Hget.
  apply Map_get_In in Hget.
  assert (Hhas : Map_has (posts.id (Row.post row)) m = true).
  { apply Map_has_In, in_map_iff. exists (posts.id (Row.post row), existingPost). auto. }
  assert (Hkeys : forall v, map fst (Map_set (posts.id (Row.post row)) v m) = map fst m).
  { intros v. rewrite Map_set_keys, Hhas. reflexivity. }
  repeat split.
  - rewrite Hkeys. exact Hnd.
  - apply Map_set_In in H as [[-> ->] | H].
    + apply (Hent _ _ Hget).
    + apply (Hent _ _ H).
  - apply Map_set_In in H as [[-> ->] | H].
    + apply (Hent _ _ Hget).
    + apply (Hent _ _ H).
  - intros k v t Hkv Hin_t. apply Map_set_In in Hkv as [[-> ->] | Hkv].
    + simpl in Hin_t. apply in_app_or in Hin_t as [Hin_t | [<- | []]].
      * apply (Htag _ _ _ Hget Hin_t).
      * exists row. auto.
    + apply (Htag _ _ _ Hkv Hin_t).
  - intros r Hr. rewrite Hkeys. apply Hrow, Hr.
Qed.

Lemma collected_step (m : JsMap PostWithTags.t) (done : list Row.t) (row : Row.t) :
  collected m done -> collected (collect_step m row) (done ++ [row]).
Proof.
  intros H. unfold collect_step.
  pose proof (collected_fresh row H) as H1.
  set (m1 := if negb (Map_has (posts.id (Row.post row)) m) then _ else m) in *.
  destruct (Row.tag row) as [tag|] eqn:Etag; [| exact H1].
  destruct (Map_get (posts.id (Row.post row)) m1) as [e|] eqn:Eget; [| exact H1].
  match goal with
  | |- collected (if negb ?c then _ else _) _ => destruct c; simpl; [exact H1 |]
  end.
  apply (@collected_push m1 (done ++ [row]) row tag e); auto.
  apply in_or_app. simpl. auto.
Qed.

Lemma collected_fold (rows done : list Row.t) (m : JsMap PostWithTags.t) :
  collected m done -> collected (fold_left collect_step rows m) (done ++ rows).
Proof.
  revert done m. induction rows as [|row rows IH]; intros done m H; simpl.
  - rewrite app_nil_r. exact H.
  - replace (done ++ row :: rows) with ((done ++ [row]) ++ rows)
      by (rewrite <- app_assoc; reflexivity).
    apply IH, collected_step, H.
Qed.

Lemma collect_collected (rows : list Row.t) :
  collected (fold_left collect_step rows []) rows.
Proof. apply (@collected_fold rows [] []), collected_nil. Qed.

Lemma Map_set_In_new {V} (k : string) (v : V) (m : JsMap V) :
  In (k, v) (Map_set k v m).
Proof.
  unfold Map_set. destruct (Map_has k m) eqn:Hhas.
  - apply Map_has_In, in_map_iff in Hhas as [[k0 v0] [E Hin]]. simpl in E. subst k0.
    apply in_map_iff. exists (k, v0). simpl. rewrite String.eqb_refl. auto.
  - apply in_or_app. simpl. auto.
Qed.

Lemma Map_set_In_other {V} (k : string) (v : V) (k' : string) (v' : V) (m : JsMap V) :
  k' <> k -> In (k', v') m -> In (k', v') (Map_set k v m).
Proof.
  intros Hne Hin. unfold Map_set. destruct (Map_has k m).
  - apply in_map_iff. exists (k', v'). simpl.
    apply String.eqb_neq in Hne. rewrite Hne. auto.
  - apply in_or_app. auto.
Qed.

Lemma Map_key_unique {V} (k : string) (v v' : V) (m : JsMap V) :
  NoDup (map fst m) -> In (k, v) m -> In (k, v') m -> v = v'.
Proof.
  induction m as [|[k0 v0] m IH]; simpl; [contradiction |].
  intros Hnd [E1 | H1] [E2 | H2]; inversion Hnd as [|? ? Hk Hm]; subst.
  - congruence.
  - inversion E1; subst. exfalso. apply Hk, in_map_iff. exists (k, v'). auto.
  - inversion E2; subst. exfalso. apply Hk, in_map_iff. exists (k, v). auto.
  - apply IH; assumption.
Qed.

Lemma Map_get_None {V} (k : string) (m : JsMap V) :
  Map_get k m = None -> Map_has k m = false.
Proof.
  unfold Map_get, Map_has. intros H.
  destruct (find _ m) as [kv|] eqn:E; [discriminate |].
  apply not_true_iff_false. intros Hex. apply existsb_exists in Hex as [kv [Hin Hk]].
  pose proof (@find_none _ _ _ E kv Hin) as Hno. simpl in Hno. congruence.
Qed.

(** Replacing the entry of [k] by one that lists at least the same tag ids
    loses no tag. *)
Lemma tags_kept_set (m : JsMap PostWithTags.t) (done : list Row.t)
    (k : string) (e e' : PostWithTags.t) :
  NoDup (map fst m) -> In (k, e) m ->
  incl (map tags.id (PostWithTags.tags e)) (map tags.id (PostWithTags.tags e')) ->
  tags_kept m done -> tags_kept (Map_set k e' m) done.
Proof.
  intros Hnd He Hincl Hkept row t Hrow Htag.
  destruct (Hkept row t Hrow Htag) as [v [Hv Ht]].
  destruct (String.eqb_spec (posts.id (Row.post row)) k) as [E | E].
  - rewrite E in *. rewrite (@Map_key_unique _ k v e m Hnd Hv He) in Ht.
    exists e'. split; [apply Map_set_In_new | apply Hincl, Ht].
  - exists v. split; [apply Map_set_In_other; assumption | exact Ht].
Qed.

Lemma tags_kept_step (m : JsMap PostWithTags.t) (done : list Row.t) (row : Row.t) :
  collected m done -> tags_kept m done ->
  tags_kept (collect_step m row) (done ++ [row]).
Proof.
  intros Hc Hkept.
  pose proof (collected_fresh row Hc) as H1. unfold collect_step.
  set (m1 := if negb (Map_has (posts.id (Row.post row)) m) then _ else m) in *.
  assert (Hkept1 : tags_kept m1 done).
  { intros r t Hr Ht. destruct (Hkept r t Hr Ht) as [v [Hv Hin]].
    exists v. split; [| exact Hin]. unfold m1.
    destruct (Map_has (posts.id (Row.post row)) m) eqn:Hhas; simpl; [exact Hv |].
    unfold Map_set. rewrite Hhas. apply in_or_app. auto. }
  destruct H1 as [Hnd1 [Hent1 [_ Hrow1]]].
  assert (Hkey : Map_has (posts.id (Row.post row)) m1 = true).
  { apply Map_has_In, Hrow1, in_or_app. simpl. auto. }
  destruct (Row.tag row) as [tag|] eqn:Etag.
  - destruct (Map_get (posts.id (Row.post row)) m1) as [e|] eqn:Eget.
    + pose proof (@Map_get_In _ _ _ _ Eget) as He.
      match goal with
      | |- tags_kept (if negb ?c then _ else _) _ => destruct c eqn:Eseen; simpl
      end.
      * intros r t Hr Ht. apply in_app_or in Hr as [Hr | [<- | []]].
        -- apply (Hkept1 r t Hr Ht).
        -- rewrite Etag in Ht. inversion Ht; subst t.
           exists e. split; [exact He |].
           apply existsb_exists in Eseen as [t' [Ht' E']].
           apply String.eqb_eq in E'. rewrite <- E'. apply in_map, Ht'.
      * intros r t Hr Ht. apply in_app_or in Hr as [Hr | [<- | []]].
        -- apply (@tags_kept_set m1 done _ e); auto.
           simpl. rewrite map_app. apply incl_appl, incl_refl.
        -- rewrite Etag in Ht. inversion Ht; subst t.
           eexists. split; [apply Map_set_In_new |].
           simpl. rewrite map_app. apply in_or_app. simpl. auto.
    + apply Map_get_None in Eget. congruence.
  - intros r t Hr Ht. apply in_app_or in Hr as [Hr | [<- | []]].
    + apply (Hkept1 r t Hr Ht).
    + congruence.
Qed.

Lemma tags_kept_fold (rows done : list Row.t) (m : JsMap PostWithTags.t) :
  collected m done -> tags_kept m done ->
  tags_kept (fold_left collect_step rows m) (done ++ rows).
Proof.
  revert done m. induction rows as [|row rows IH]; intros done m Hc Hk; simpl.
  - rewrite app_nil_r. exact Hk.
  - replace (done ++ row :: rows) with ((done ++ [row]) ++ rows)
      by (rewrite <- app_assoc; reflexivity).
    apply IH; [apply collected_step, Hc | apply tags_kept_step; assumption].
Qed.

(** Every tag that comes with a row of a post is listed, by id, in the
    entry the loop returns for that post. *)
Lemma collect_tag_kept (rows : list Row.t) (r : PostWithTags.t) (row : Row.t) (t : Tag) :
  In r (collect rows) -> In row rows ->
  posts.id (Row.post row) = PostWithTags.id r -> Row.tag row = Some t ->
  In (tags.id t) (map tags.id (PostWithTags.tags r)).
Proof.
  intros Hr Hrow Eid Etag.
  destruct (collect_collected rows) as [Hnd [Hent _]].
  assert (Hk : tags_kept (fold_left collect_step rows []) rows).
  { apply (@tags_kept_fold rows [] []); [apply collected_nil |].
    intros ? ? []. }
  destruct (Hk row t Hrow Etag) as [v [Hv Ht]].
  unfold collect, Map_values in Hr. apply in_map_iff in Hr as [[k r'] [E Hkr]].
  simpl in E. subst r'. destruct (Hent k r Hkr) as [-> _].
  rewrite Eid in Hv. rewrite (@Map_key_unique _ _ r v _ Hnd Hkr Hv). exact Ht.
Qed.

Lemma tags_distinct_step (m : JsMap PostWithTags.t) (row : Row.t) :
  tags_distinct m -> tags_distinct (collect_step m row).
Proof.
  intros Hd. unfold collect_step.
  set (m1 := if negb (Map_has (posts.id (Row.post row)) m) then _ else m).
  assert (Hd1 : tags_distinct m1).
  { unfold m1. destruct (negb (Map_has (posts.id (Row.post row)) m)); [| exact Hd].
    intros k v Hin. apply Map_set_In in Hin as [[_ ->] | Hin].
    - constructor.
    - apply (Hd k v Hin). }
  destruct (Row.tag row) as [tag|]; [| exact Hd1].
  destruct (Map_get (posts.id (Row.post row)) m1) as [e|] eqn:Eget; [| exact Hd1].
  match goal with
  | |- tags_distinct (if negb ?c then _ else _) => destruct c eqn:Eseen; simpl
  end; [exact Hd1 |].
  intros k v Hin. apply Map_set_In in Hin as [[_ ->] | Hin]; [| apply (Hd1 k v Hin)].
  simpl. rewrite map_app. simpl.
  apply NoDup_app; [apply (Hd1 _ e (@Map_get_In _ _ _ _ Eget)) | repeat constructor; auto |].
  intros x Hx [<- | []].
  apply in_map_iff in Hx as [t' [E' Ht']].
  apply not_true_iff_false in Eseen. apply Eseen, existsb_exists.
  exists t'. split; [exact Ht' | apply String.eqb_eq, E'].
Qed.

Lemma collect_tags_distinct (rows : list Row.t) (r : PostWithTags.t) :
  In r (collect rows) -> NoDup (map tags.id (PostWithTags.tags r)).
Proof.
  assert (H : forall rows m, tags_distinct m ->
                tags_distinct (fold_left collect_step rows m)).
  { clear. induction rows as [|row rows IH]; intros m Hm; simpl; [exact Hm |].
    apply IH, tags_distinct_step, Hm. }
  unfold collect, Map_values. intros Hr.
  apply in_map_iff in Hr as [[k v] [E Hin]]. simpl in E. subst v.
  apply (H rows [] (fun _ _ F => match F with end) k r Hin).
Qed.

(** A row adds at most one tag to one entry. *)
Lemma tags_bounded_step (n : nat) (m : JsMap PostWithTags.t) (row : Row.t) :
  tags_bounded n m -> tags_bounded (S n) (collect_step m row).
Proof.
  intros Hb. unfold collect_step.
  set (m1 := if negb (Map_has (posts.id (Row.post row)) m) then _ else m).
  assert (Hb1 : tags_bounded n m1).
  { unfold m1. destruct (negb (Map_has (posts.id (Row.post row)) m)); [| exact Hb].
    intros k v Hin. apply Map_set_In in Hin as [[_ ->] | Hin].
    - simpl. lia.
    - apply (Hb k v Hin). }
  assert (Hweak : tags_bounded (S n) m1).
  { intros k v Hin. specialize (Hb1 k v Hin). lia. }
  destruct (Row.tag row) as [tag|]; [| exact Hweak].
  destruct (Map_get (posts.id (Row.post row)) m1) as [e|] eqn:Eget; [| exact Hweak].
  match goal with
  | |- tags_bounded _ (if negb ?c then _ else _) => destruct c; simpl
  end; [exact Hweak |].
  intros k v Hin. apply Map_set_In in Hin as [[_ ->] | Hin]; [| apply (Hweak k v Hin)].
  simpl. rewrite length_app. simpl.
  pose proof (Hb1 _ e (@Map_get_In _ _ _ _ Eget)). lia.
Qed.

Lemma collect_tags_bounded (rows : list Row.t) (r : PostWithTags.t) :
  In r (collect rows) -> List.length (PostWithTags.tags r) <= List.length rows.
Proof.
  assert (H : forall rows n m, tags_bounded n m ->
                tags_bounded (n + List.length rows) (fold_left collect_step rows m)).
  { clear. induction rows as [|row rows IH]; intros n m Hm; simpl.
    - rewrite Nat.add_0_r. exact Hm.
    - rewrite Nat.add_succ_r. apply (IH (S n)), tags_bounded_step, Hm. }
  unfold collect, Map_values. intros Hr.
  apply in_map_iff in Hr as [[k v] [E Hin]]. simpl in E. subst v.
  apply (H rows 0 [] (fun _ _ F => match F with end) k r Hin).
Qed.

Lemma collect_ids_NoDup (rows : list Row.t) :
  NoDup (map PostWithTags.id (collect rows)).
Proof.
  destruct (collect_collected rows) as [Hnd [Hent _]].
  unfold collect, Map_values. rewrite map_map.
  erewrite map_ext_in; [exact Hnd |].
  intros [k v] Hin. simpl. symmetry. apply (Hent k v Hin).
Qed.

Lemma collect_In_row (rows : list Row.t) (r : PostWithTags.t) :
  In r (collect rows) ->
  exists row, In row rows /\ Row.post row = PostWithTags.post r.
Proof.
  destruct (collect_collected rows) as [_ [Hent _]].
  unfold collect, Map_values. intros Hin.
  apply in_map_iff in Hin as [[k v] [E Hin]]. simpl in E. subst v.
  apply (Hent k r Hin).
Qed.

Lemma collect_tag_row (rows : list Row.t) (r : PostWithTags.t) (t : Tag) :
  In r (collect rows) -> In t (PostWithTags.tags r) ->
  exists row, In row rows /\ posts.id (Row.post row) = PostWithTags.id r
              /\ Row.tag row = Some t.
Proof.
  destruct (collect_collected rows) as [_ [Hent [Htag _]]].
  unfold collect, Map_values. intros Hin Ht.
  apply in_map_iff in Hin as [[k v] [E Hin]]. simpl in E. subst v.
  destruct (Hent k r Hin) as [-> _]. apply (Htag _ r t Hin Ht).
Qed.

Lemma collect_row_In (rows : list Row.t) (row : Row.t) :
  In row rows ->
  exists r, In r (collect rows) /\ PostWithTags.id r = posts.id (Row.post row).
Proof.
  destruct (collect_collected rows) as [_ [Hent [_ Hrow]]].
  intros Hin. specialize (Hrow row Hin).
  apply in_map_iff in Hrow as [[k v] [E Hkv]]. simpl in E. subst k.
  exists v. split.
  - unfold collect, Map_values. apply in_map_iff. exists (posts.id (Row.post row), v).
    auto.
  - symmetry. apply (Hent _ v Hkv).
Qed.

(** ** The joins *)

Lemma leftJoin_sound {R B} (rows : list R) (tbl : list B)
    (on : R -> B -> bool) (put : R -> option B -> R) (r' : R) :
  In r' (leftJoin rows tbl on put) ->
  exists r, In r rows
            /\ (r' = put r None
                \/ exists b, In b tbl /\ on r b = true /\ r' = put r (Some b)).
Proof.
  unfold leftJoin. intros Hin. apply in_flat_map in Hin as [r [Hr Hin]].
  exists r. split; [exact Hr |].
  destruct (filter (on r) tbl) as [|m ms] eqn:E.
  - destruct Hin as [<- | []]. left. reflexivity.
  - right. apply in_map_iff in Hin as [b [<- Hb]].
    rewrite <- E in Hb. apply filter_In in Hb as [Hb Hon]. eauto.
Qed.

Lemma leftJoin_complete {R B} (rows : list R) (tbl : list B)
    (on : R -> B -> bool) (put : R -> option B -> R) (r : R) :
  In r rows -> exists ob, In (put r ob) (leftJoin rows tbl on put).
Proof.
  intros Hr. unfold leftJoin.
  destruct (filter (on r) tbl) as [|m ms] eqn:E.
  - exists None. apply in_flat_map. exists r. split; [exact Hr |].
    rewrite E. simpl. auto.
  - exists (Some m). apply in_flat_map. exists r. split; [exact Hr |].
    rewrite E. apply in_map_iff. exists m. simpl. auto.
Qed.

(** A row of the base join holds a stored post; its tag, when it has one,
    is a stored tag the post carries. *)
Lemma select_from_posts_sound (f : JoinRow -> Row.t) (db : DB) (j : JoinRow) :
  In j (config_rows (select_from_posts f db)) ->
  In (j_post j) (tbl_posts db)
  /\ forall t, j_tag j = Some t ->
       In t (tbl_tags db) /\ carries db (posts.id (j_post j)) (tags.id t) = true.
Proof.
  unfold select_from_posts. cbn [config_rows]. intros H3.
  apply leftJoin_sound in H3 as [j2 [H2 E3]].
  apply leftJoin_sound in H2 as [j1 [H1 E2]].
  apply leftJoin_sound in H1 as [j0 [H0 E1]].
  apply in_map_iff in H0 as [p [E0 Hp]].
  assert (Hpost1 : j_post j1 = p /\ j_postTag j1 = None /\ j_tag j1 = None).
  { destruct E1 as [-> | [u [_ [_ ->]]]]; subst j0; auto. }
  destruct Hpost1 as [P1 [PT1 T1]].
  assert (Hpost2 : j_post j2 = p /\ j_tag j2 = None
                   /\ forall pt, j_postTag j2 = Some pt ->
                        In pt (tbl_postTags db) /\ postTags.postId pt = posts.id p).
  { destruct E2 as [-> | [pt [Hpt [Hon ->]]]]; cbn.
    - split; [exact P1 | split; [exact T1 |]]. intros pt E. congruence.
    - split; [exact P1 | split; [exact T1 |]]. intros pt' E.
      inversion E; subst pt'. split; [exact Hpt |].
      rewrite P1 in Hon. apply String.eqb_eq in Hon. auto. }
  destruct Hpost2 as [P2 [T2 PT2]].
  destruct E3 as [-> | [t [Ht [Hon ->]]]]; cbn.
  - split; [rewrite P2; exact Hp |]. intros t E. congruence.
  - split; [rewrite P2; exact Hp |]. intros t' [= <-].
    split; [exact Ht |].
    destruct (j_postTag j2) as [pt|] eqn:Ept; [| discriminate].
    destruct (PT2 pt eq_refl) as [Hpt Hid]. apply String.eqb_eq in Hon.
    unfold carries. apply existsb_exists. exists pt. split; [exact Hpt |].
    rewrite P2, Hid, Hon, !String.eqb_refl. reflexivity.
Qed.

Lemma select_from_posts_complete (f : JoinRow -> Row.t) (db : DB) (p : Post) :
  In p (tbl_posts db) ->
  exists j, In j (config_rows (select_from_posts f db)) /\ j_post j = p.
Proof.
  intros Hp. unfold select_from_posts. cbn [config_rows].
  set (r0 := map _ (tbl_posts db)).
  assert (H0 : In {| j_post := p; j_user := None; j_postTag := None;
                     j_tag := None; j_favorite := None |} r0)
    by (apply in_map_iff; eauto).
  match goal with |- exists j, In j (leftJoin (leftJoin (leftJoin r0 ?t1 ?o1 ?p1) ?t2 ?o2 ?p2) ?t3 ?o3 ?p3) /\ _ =>
    destruct (leftJoin_complete r0 t1 o1 p1 _ H0) as [b1 H1];
    destruct (leftJoin_complete _ t2 o2 p2 _ H1) as [b2 H2];
    destruct (leftJoin_complete _ t3 o3 p3 _ H2) as [b3 H3]
  end.
  eexists. split; [exact H3 | reflexivity].
Qed.

Lemma leftJoin_favorites_sound (uid : string) (db : DB) (q : PgSelect) (j : JoinRow) :
  In j (config_rows (leftJoin_favorites uid db q)) ->
  exists j0, In j0 (config_rows q) /\ j_post j = j_post j0 /\ j_tag j = j_tag j0.
Proof.
  unfold leftJoin_favorites, with_rows. cbn [config_rows]. intros H.
  apply leftJoin_sound in H as [j0 [H0 E]]. exists j0. split; [exact H0 |].
  destruct E as [-> | [b [_ [_ ->]]]]; auto.
Qed.

Lemma leftJoin_favorites_complete (uid : string) (db : DB) (q : PgSelect) (j0 : JoinRow) :
  In j0 (config_rows q) ->
  exists j, In j (config_rows (leftJoin_favorites uid db q)) /\ j_post j = j_post j0.
Proof.
  unfold leftJoin_favorites, with_rows. cbn [config_rows]. intros H0.
  match goal with |- exists j, In j (leftJoin _ ?t ?o ?p) /\ _ =>
    destruct (leftJoin_complete _ t o p _ H0) as [b H]
  end.
  eexists. split; [exact H | reflexivity].
Qed.

(** ** The feed query *)

Lemma In_firstn {A} (n : nat) (l : list A) (x : A) : In x (firstn n l) -> In x l.
Proof.
  revert n. induction l as [|y l IH]; intros [|n]; simpl; try contradiction.
  intros [H | H]; eauto.
Qed.

Lemma In_skipn {A} (n : nat) (l : list A) (x : A) : In x (skipn n l) -> In x l.
Proof.
  revert n. induction l as [|y l IH]; intros [|n]; simpl; auto.
  intros H. right. apply (IH n), H.
Qed.

Lemma run_page_sound (limit offset : nat) (q : PgSelect) (row : Row.t) :
  In row (run_page limit offset q) ->
  exists j, In j (filtered q) /\ row = config_fields q j.
Proof.
  unfold run_page. intros H. apply in_map_iff in H as [j [E Hj]].
  apply In_firstn, In_skipn, orderBy_In in Hj. eauto.
Qed.

Lemma run_page_all (limit : nat) (q : PgSelect) (j : JoinRow) :
  List.length (filtered q) <= limit ->
  In j (filtered q) -> In (config_fields q j) (run_page limit 0 q).
Proof.
  intros Hlen Hj. unfold run_page. apply in_map. simpl skipn.
  rewrite firstn_all2 by (rewrite orderBy_length; exact Hlen).
  apply orderBy_In, Hj.
Qed.

Lemma filtered_In (q : PgSelect) (j : JoinRow) :
  In j (filtered q)
  <-> In j (config_rows q) /\ forall c, config_where q = Some c -> c j = true.
Proof.
  unfold filtered. destruct (config_where q) as [c|].
  - rewrite filter_In. split.
    + intros [H1 H2]. split; [exact H1 |]. intros c' [= <-]. exact H2.
    + intros [H1 H2]. split; [exact H1 | apply H2; reflexivity].
  - split; [intros H; split; [exact H | discriminate] | tauto].
Qed.

Lemma getPosts_query_fields tagIds userId excludeTagIds db :
  config_fields (getPosts_query tagIds userId excludeTagIds db) = fields userId.
Proof.
  unfold getPosts_query.
  destruct userId as [uid|]; [destruct (truthy (Some uid)) |];
    destruct tagIds as [l|]; try destruct (Nat.ltb 0 (List.length l));
    destruct excludeTagIds as [e|]; try destruct (Nat.ltb 0 (List.length e));
    reflexivity.
Qed.

Lemma getPosts_query_rows tagIds userId excludeTagIds db :
  config_rows (getPosts_query tagIds userId excludeTagIds db)
  = config_rows
      (match userId with
       | Some uid =>
           if truthy userId
           then leftJoin_favorites uid db (select_from_posts (fields userId) db)
           else select_from_posts (fields userId) db
       | None => select_from_posts (fields userId) db
       end).
Proof.
  unfold getPosts_query.
  destruct userId as [uid|]; [destruct (truthy (Some uid)) |];
    destruct tagIds as [l|]; try destruct (Nat.ltb 0 (List.length l));
    destruct excludeTagIds as [e|]; try destruct (Nat.ltb 0 (List.length e));
    reflexivity.
Qed.

(** The condition of the statement [getPosts] sends, by the arguments. *)
Lemma getPosts_query_where_viewer tagIds uid excludeTagIds db :
  truthy (Some uid) = true ->
  config_where (getPosts_query tagIds (Some uid) excludeTagIds db)
  = Some (fun j => notInArray (posts.id (j_post j)) (postsWithUserExcludedTags uid db)).
Proof.
  intros Hu. unfold getPosts_query. rewrite Hu. reflexivity.
Qed.

Lemma getPosts_query_where_exclude tagIds userId e db :
  truthy userId = false -> e <> [] ->
  config_where (getPosts_query tagIds userId (Some e) db)
  = Some (fun j => notInArray (posts.id (j_post j)) (postsWithExcludedTags e db)).
Proof.
  intros Hu He. unfold getPosts_query.
  destruct e as [|x e]; [congruence |].
  destruct userId as [uid|]; [rewrite Hu |]; reflexivity.
Qed.

Lemma getPosts_query_where_include l userId excludeTagIds db :
  truthy userId = false -> excludeTagIds = None \/ excludeTagIds = Some [] ->
  l <> [] ->
  config_where (getPosts_query (Some l) userId excludeTagIds db)
  = Some (fun j => inArray (posts.id (j_post j)) (postsWithAllTags l db)).
Proof.
  intros Hu He Hl. unfold getPosts_query.
  destruct l as [|x l]; [congruence |].
  destruct userId as [uid|]; [rewrite Hu |]; destruct He as [-> | ->]; reflexivity.
Qed.

Lemma getPosts_query_rows_sound tagIds userId excludeTagIds db j :
  In j (config_rows (getPosts_query tagIds userId excludeTagIds db)) ->
  In (j_post j) (tbl_posts db)
  /\ forall t, j_tag j = Some t ->
       In t (tbl_tags db) /\ carries db (posts.id (j_post j)) (tags.id t) = true.
Proof.
  rewrite getPosts_query_rows. intros H.
  assert (Hbase : exists j0, In j0 (config_rows (select_from_posts (fields userId) db))
                             /\ j_post j = j_post j0 /\ j_tag j = j_tag j0).
  { destruct userId as [uid|]; [destruct (truthy (Some uid)) |]; eauto.
    apply leftJoin_favorites_sound in H. exact H. }
  destruct Hbase as [j0 [H0 [-> ->]]].
  apply (select_from_posts_sound _ _ _ H0).
Qed.

Lemma getPosts_query_rows_complete tagIds userId excludeTagIds db p :
  In p (tbl_posts db) ->
  exists j, In j (config_rows (getPosts_query tagIds userId excludeTagIds db))
            /\ j_post j = p.
Proof.
  rewrite getPosts_query_rows. intros Hp.
  destruct (select_from_posts_complete (fields userId) db p Hp) as [j0 [H0 E0]].
  destruct userId as [uid|]; [destruct (truthy (Some uid)) |]; eauto.
  destruct (leftJoin_favorites_complete uid db _ j0 H0) as [j [Hj E]].
  exists j. split; [exact Hj | congruence].
Qed.

(** Every entry of a page is a stored post that passed the condition of
    the statement; its tags are stored tags it carries; no id occurs twice. *)
Lemma getPosts_sound limit offset tagIds userId excludeTagIds db r :
  In r (getPosts limit offset tagIds userId excludeTagIds db) ->
  In (PostWithTags.post r) (tbl_posts db)
  /\ (forall c, config_where (getPosts_query tagIds userId excludeTagIds db) = Some c ->
        exists j, j_post j = PostWithTags.post r /\ c j = true)
  /\ (forall t, In t (PostWithTags.tags r) ->
        In t (tbl_tags db) /\ carries db (PostWithTags.id r) (tags.id t) = true).
Proof.
  unfold getPosts. intros Hin. split; [| split].
  - apply collect_In_row in Hin as [row [Hrow E]].
    apply run_page_sound in Hrow as [j [Hj ->]].
    rewrite getPosts_query_fields in E. simpl in E. rewrite <- E.
    apply filtered_In in Hj as [Hj _].
    apply (getPosts_query_rows_sound _ _ _ _ _ Hj).
  - intros c Hc. apply collect_In_row in Hin as [row [Hrow E]].
    apply run_page_sound in Hrow as [j [Hj ->]].
    rewrite getPosts_query_fields in E. simpl in E.
    apply filtered_In in Hj as [_ Hj]. exists j. split; [exact E | apply Hj, Hc].
  - intros t Ht. destruct (collect_tag_row _ _ _ Hin Ht) as [row [Hrow [Eid Etag]]].
    apply run_page_sound in Hrow as [j [Hj ->]].
    rewrite getPosts_query_fields in Eid, Etag. simpl in Eid, Etag.
    apply filtered_In in Hj as [Hj _].
    destruct (getPosts_query_rows_sound _ _ _ _ _ Hj) as [_ Htag].
    rewrite <- Eid. apply Htag, Etag.
Qed.

Lemma getPosts_ids_NoDup limit offset tagIds userId excludeTagIds db :
  NoDup (map PostWithTags.id (getPosts limit offset tagIds userId excludeTagIds db)).
Proof. apply collect_ids_NoDup. Qed.

(** ** The subqueries *)

Lemma carries_iff (db : DB) (pid tid : string) :
  carries db pid tid = true
  <-> exists pt, In pt (tbl_postTags db)
                 /\ postTags.postId pt = pid /\ postTags.tagId pt = tid.
Proof.
  unfold carries. rewrite existsb_exists. split.
  - intros [pt [Hin H]]. apply andb_true_iff in H as [H1 H2].
    apply String.eqb_eq in H1, H2. eauto.
  - intros [pt [Hin [H1 H2]]]. exists pt. split; [exact Hin |].
    subst. rewrite !String.eqb_refl. reflexivity.
Qed.

Lemma postsWithExcludedTags_In (e : list string) (db : DB) (pid : string) :
  In pid (postsWithExcludedTags e db)
  <-> exists t, In t e /\ carries db pid t = true.
Proof.
  unfold postsWithExcludedTags. rewrite in_map_iff. split.
  - intros [pt [E Hpt]]. apply filter_In in Hpt as [Hpt Hin].
    apply inArray_In in Hin. exists (postTags.tagId pt). split; [exact Hin |].
    apply carries_iff. eauto.
  - intros [t [Ht Hc]]. apply carries_iff in Hc as [pt [Hpt [E1 E2]]].
    exists pt. split; [exact E1 |]. apply filter_In. split; [exact Hpt |].
    apply inArray_In. congruence.
Qed.

Lemma postsWithUserExcludedTags_In (uid : string) (db : DB) (pid : string) :
  In pid (postsWithUserExcludedTags uid db)
  <-> exists t, In t (excludedTagIds uid db) /\ carries db pid t = true.
Proof. apply (postsWithExcludedTags_In (excludedTagIds uid db) db pid). Qed.

Lemma count_occ_postIds (P : PostTag -> bool) (pts : list PostTag) (pid : string) :
  count_occ string_dec (map postTags.postId (filter P pts)) pid
  = List.length (filter (fun pt => String.eqb (postTags.postId pt) pid && P pt) pts).
Proof.
  induction pts as [|pt pts IH]; simpl; [reflexivity |].
  destruct (P pt); simpl.
  - destruct (string_dec (postTags.postId pt) pid) as [E | E].
    + apply String.eqb_eq in E. rewrite E. simpl. rewrite IH. reflexivity.
    + apply String.eqb_neq in E. rewrite E. simpl. exact IH.
  - rewrite andb_false_r. exact IH.
Qed.

Lemma groupBy_count_In (keys : list string) (k : string) (n : nat) :
  In (k, n) (groupBy_count keys) <-> In k keys /\ n = count_occ string_dec keys k.
Proof.
  unfold groupBy_count. rewrite in_map_iff. split.
  - intros [k' [E Hk]]. inversion E; subst. split; [| reflexivity].
    apply nodup_In in Hk. exact Hk.
  - intros [Hk ->]. exists k. split; [reflexivity | apply nodup_In, Hk].
Qed.

(** The grouped subquery selects the posts whose matching association rows
    number [tagIds.length]. *)
Lemma postsWithAllTags_In (l : list string) (db : DB) (pid : string) :
  l <> [] ->
  In pid (postsWithAllTags l db) <-> matching_rows db pid l = List.length l.
Proof.
  intros Hl. unfold postsWithAllTags, matching_rows.
  rewrite <- count_occ_postIds.
  set (keys := map postTags.postId _).
  rewrite in_map_iff. split.
  - intros [[k n] [E Hg]]. simpl in E. subst k.
    apply filter_In in Hg as [Hg Hn]. simpl in Hn. apply Nat.eqb_eq in Hn.
    apply groupBy_count_In in Hg as [_ ->]. exact Hn.
  - intros Hc. exists (pid, count_occ string_dec keys pid). split; [reflexivity |].
    apply filter_In. split.
    + apply groupBy_count_In. split; [| reflexivity].
      apply (count_occ_In string_dec). rewrite Hc.
      destruct l; [congruence | simpl; lia].
    + simpl. apply Nat.eqb_eq, Hc.
Qed.

(** ** What the feed filters guarantee *)

(** With a viewer, no entry of the page carries a tag of the viewer's
    stored exclusions. *)
Lemma getPosts_viewer_exclusions limit offset tagIds uid excludeTagIds db r t :
  truthy (Some uid) = true ->
  In r (getPosts limit offset tagIds (Some uid) excludeTagIds db) ->
  In t (excludedTagIds uid db) ->
  carries db (PostWithTags.id r) t = false.
Proof.
  intros Hu Hin Ht. apply getPosts_sound in Hin as [_ [Hc _]].
  destruct (Hc _ (@getPosts_query_where_viewer tagIds uid excludeTagIds db Hu))
    as [j [Ej Hj]].
  apply notInArray_In in Hj. apply not_true_iff_false. intros Hcar.
  apply Hj, postsWithUserExcludedTags_In. exists t. split; [exact Ht |].
  rewrite Ej. exact Hcar.
Qed.

(** Without a viewer, no entry of the page carries a tag of
    [excludeTagIds]. *)
Lemma getPosts_request_exclusions limit offset tagIds userId e db r t :
  truthy userId = false ->
  In r (getPosts limit offset tagIds userId (Some e) db) ->
  In t e ->
  carries db (PostWithTags.id r) t = false.
Proof.
  intros Hu Hin Ht.
  assert (He : e <> []) by (intros ->; contradiction).
  apply getPosts_sound in Hin as [_ [Hc _]].
  destruct (Hc _ (@getPosts_query_where_exclude tagIds userId e db Hu He)) as [j [Ej Hj]].
  apply notInArray_In in Hj. apply not_true_iff_false. intros Hcar.
  apply Hj, postsWithExcludedTags_In. exists t. split; [exact Ht |].
  rewrite Ej. exact Hcar.
Qed.

(** Without a viewer and without [excludeTagIds], every entry of the page
    has exactly [tagIds.length] association rows whose tag is in [tagIds]. *)
Lemma getPosts_include_sound limit offset l userId excludeTagIds db r :
  truthy userId = false -> excludeTagIds = None \/ excludeTagIds = Some [] ->
  l <> [] ->
  In r (getPosts limit offset (Some l) userId excludeTagIds db) ->
  matching_rows db (PostWithTags.id r) l = List.length l.
Proof.
  intros Hu He Hl Hin. apply getPosts_sound in Hin as [_ [Hc _]].
  destruct (Hc _ (@getPosts_query_where_include l userId excludeTagIds db Hu He Hl)) as [j [Ej Hj]].
  apply inArray_In, postsWithAllTags_In in Hj; [| exact Hl].
  rewrite Ej in Hj. exact Hj.
Qed.

(** ... and every stored post with that many rows is on the page when the
    page is long enough to hold the whole result. *)
Lemma getPosts_include_complete l userId excludeTagIds db p :
  truthy userId = false -> excludeTagIds = None \/ excludeTagIds = Some [] ->
  l <> [] ->
  In p (tbl_posts db) ->
  matching_rows db (posts.id p) l = List.length l ->
  exists N, forall limit, N <= limit ->
    exists r, In r (getPosts limit 0 (Some l) userId excludeTagIds db)
              /\ PostWithTags.id r = posts.id p.
Proof.
  intros Hu He Hl Hp Hm.
  set (q := getPosts_query (Some l) userId excludeTagIds db).
  exists (List.length (filtered q)). intros limit Hlim.
  destruct (getPosts_query_rows_complete (Some l) userId excludeTagIds db p Hp)
    as [j [Hj Ej]].
  assert (Hf : In j (filtered q)).
  { apply filtered_In. split; [exact Hj |]. intros c Hc.
    unfold q in Hc. rewrite (@getPosts_query_where_include l userId excludeTagIds db Hu He Hl) in Hc.
    inversion Hc; subst c. apply inArray_In, postsWithAllTags_In; [exact Hl |].
    rewrite Ej. exact Hm. }
  destruct (@collect_row_In _ _ (@run_page_all limit q j Hlim Hf)) as [r [Hr Er]].
  exists r. split; [exact Hr |]. rewrite Er.
  unfold q. rewrite getPosts_query_fields. simpl. rewrite Ej. reflexivity.
Qed.

(** A repeated id in [tagIds]: a post with one association row for [a] is
    not on the page of [tagIds = [a; a]]. *)
Lemma getPosts_include_repeated_id limit offset a userId excludeTagIds db r :
  truthy userId = false -> excludeTagIds = None \/ excludeTagIds = Some [] ->
  In r (getPosts limit offset (Some [a; a]) userId excludeTagIds db) ->
  matching_rows db (PostWithTags.id r) [a] <> 1.
Proof.
  intros Hu He Hin H1.
  apply getPosts_include_sound in Hin; [| assumption | assumption | discriminate].
  assert (E : matching_rows db (PostWithTags.id r) [a; a]
              = matching_rows db (PostWithTags.id r) [a]).
  { unfold matching_rows. f_equal. apply filter_ext. intros pt. f_equal.
    unfold inArray. simpl. destruct (String.eqb (postTags.tagId pt) a); reflexivity. }
  rewrite E, H1 in Hin. discriminate.
Qed.

(** ** The last [where] call is the condition *)

(** With a viewer, neither [tagIds] nor [excludeTagIds] reaches the
    statement. *)
Lemma getPosts_query_viewer tagIds uid excludeTagIds db :
  truthy (Some uid) = true ->
  getPosts_query tagIds (Some uid) excludeTagIds db
  = getPosts_query None (Some uid) None db.
Proof.
  intros Hu. unfold getPosts_query. rewrite Hu.
  destruct tagIds as [l|]; try destruct (Nat.ltb 0 (List.length l));
    destruct excludeTagIds as [e|]; try destruct (Nat.ltb 0 (List.length e));
    reflexivity.
Qed.

(** Without a viewer, a non-empty [excludeTagIds] keeps [tagIds] from the
    statement. *)
Lemma getPosts_query_exclude_alone tagIds userId e db :
  truthy userId = false -> e <> [] ->
  getPosts_query tagIds userId (Some e) db = getPosts_query None userId (Some e) db.
Proof.
  intros Hu He. unfold getPosts_query.
  destruct e as [|x e]; [congruence |].
  destruct userId as [uid|]; [rewrite Hu |];
    destruct tagIds as [l|]; try destruct (Nat.ltb 0 (List.length l)); reflexivity.
Qed.

Lemma run_page_length (limit offset : nat) (q : PgSelect) :
  List.length (run_page limit offset q) <= limit.
Proof.
  unfold run_page. rewrite length_map. apply firstn_le_length.
Qed.

(** ** getPost *)

Lemma getPost_fold_post (rows : list Row.t) (acc : PostWithTags.t) :
  PostWithTags.post
    (fold_left
       (fun (acc : PostWithTags.t) (row : Row.t) =>
          match Row.tag row with
          | Some tag =>
              if negb (existsb (fun t => String.eqb (tags.id t) (tags.id tag))
                         (PostWithTags.tags acc))
              then {| PostWithTags.post := PostWithTags.post acc;
                      PostWithTags.user := PostWithTags.user acc;
                      PostWithTags.tags := PostWithTags.tags acc ++ [tag];
                      PostWithTags.isFavorited := PostWithTags.isFavorited acc |}
              else acc
          | None => acc
          end)
       rows acc)
  = PostWithTags.post acc.
Proof.
  revert acc. induction rows as [|row rows IH]; intros acc; simpl; [reflexivity |].
  rewrite IH. destruct (Row.tag row); [| reflexivity].
  destruct (negb _); reflexivity.
Qed.

(** C10: [getPost] finds every stored post, whoever the viewer is and
    whatever the viewer has excluded; the table of stored exclusions is not
    read at all. *)
Theorem getPost_ignores_exclusions (id : string) (userId : option string) (db : DB) :
  has_post db id = true ->
  (exists r, getPost id userId db = Some r
             /\ PostWithTags.id r = id
             /\ In (PostWithTags.post r) (tbl_posts db))
  /\ forall e, getPost id userId (set_userExcludeTags e db) = getPost id userId db.
Proof.
  intros Hhas. split; [| intros e; reflexivity].
  apply has_post_In, in_map_iff in Hhas as [p [Eid Hp]].
  unfold getPost.
  set (q0 := match userId with
             | Some uid => if truthy userId
                           then leftJoin_favorites uid db (select_from_posts (fields userId) db)
                           else select_from_posts (fields userId) db
             | None => select_from_posts (fields userId) db
             end).
  assert (Hrows : config_rows q0 = config_rows (getPosts_query None userId None db))
    by (symmetry; apply getPosts_query_rows).
  assert (Hfields : config_fields q0 = fields userId).
  { unfold q0. destruct userId as [uid|]; [destruct (truthy (Some uid)) |]; reflexivity. }
  set (c := fun j : JoinRow => String.eqb (posts.id (j_post j)) id).
  assert (Hrun : run (where_ c q0) = map (fields userId) (filter c (config_rows q0))).
  { unfold run, filtered, where_. simpl. rewrite Hfields. reflexivity. }
  rewrite Hrun.
  destruct (getPosts_query_rows_complete None userId None db p Hp) as [j [Hj Ej]].
  rewrite <- Hrows in Hj.
  assert (Hf : In j (filter c (config_rows q0))).
  { apply filter_In. split; [exact Hj |]. unfold c. rewrite Ej, Eid.
    apply String.eqb_refl. }
  destruct (filter c (config_rows q0)) as [|j0 rest] eqn:Ef; [contradiction |].
  assert (H0 : In j0 (filter c (config_rows q0))) by (rewrite Ef; simpl; auto).
  apply filter_In in H0 as [H0 Hc0]. unfold c in Hc0. apply String.eqb_eq in Hc0.
  rewrite Hrows in H0. apply getPosts_query_rows_sound in H0 as [H0 _].
  cbn [map]. eexists. split; [reflexivity |].
  unfold PostWithTags.id. rewrite getPost_fold_post. simpl. auto.
Qed.

Lemma getPost_ignores_exclusions_witness :
  has_post Fixtures.db_zoned "p1" = true
  /\ carries Fixtures.db_zoned "p1" "t-dog" = true
  /\ In "t-dog" (excludedTagIds "alice" Fixtures.db_zoned)
  /\ map PostWithTags.id
       (getPosts default_limit default_offset None (Some "alice") None Fixtures.db_zoned)
     = ["p2"]
  /\ exists r, getPost "p1" (Some "alice") Fixtures.db_zoned = Some r
               /\ PostWithTags.id r = "p1"
               /\ In (PostWithTags.post r) (tbl_posts Fixtures.db_zoned).
Proof.
  split; [reflexivity |]. split; [reflexivity |].
  split; [simpl; auto |]. split; [reflexivity |].
  exact (proj1 (getPost_ignores_exclusions "p1" (Some "alice") Fixtures.db_zoned
                  eq_refl)).
Defined.

(** ** The feed at concrete stores *)

(** C1: the page is cut out of the join rows, so no entry of a page has
    more than [limit] tags, however many its post carries.  At the store with
    the single post [p1] carrying 犬 and 正面, [limit = 1] cuts the two join
    rows of [p1] apart: page [offset = 0] returns [p1] with 犬 only and page
    [offset = 1] returns [p1] again with 正面 only; with two posts and
    [limit = 2] the page holds [p2] and a truncated [p1]. *)
Theorem getPosts_limit_cuts_join_rows :
  let shape := map (fun r => (PostWithTags.id r, map tags.id (PostWithTags.tags r))) in
  (forall limit offset tagIds userId excludeTagIds db r,
      In r (getPosts limit offset tagIds userId excludeTagIds db) ->
      List.length (PostWithTags.tags r) <= limit)
  /\ carries Fixtures.db1 "p1" "t-dog" = true
  /\ carries Fixtures.db1 "p1" "t-front" = true
  /\ shape (getPosts 1 0 None None None Fixtures.db1) = [("p1", ["t-dog"])]
  /\ shape (getPosts 1 1 None None None Fixtures.db1) = [("p1", ["t-front"])]
  /\ shape (getPosts 2 0 None None None Fixtures.db0)
     = [("p2", ["t-cat"]); ("p1", ["t-dog"])]
  /\ shape (getPosts 20 0 None None None Fixtures.db0)
     = [("p2", ["t-cat"]); ("p1", ["t-dog"; "t-front"])].
Proof.
  split; [| repeat split].
  intros limit offset tagIds userId excludeTagIds db r Hr.
  unfold getPosts in Hr. apply collect_tags_bounded in Hr.
  pose proof (run_page_length limit offset
                (getPosts_query tagIds userId excludeTagIds db)).
  lia.
Qed.

(** C2: with a viewer the page does not depend on [tagIds] at all, and
    without a viewer it does not as soon as [excludeTagIds] is not empty.
    At [tagIds = [犬]] with viewer alice (no stored exclusions) the page holds
    [p2], which has no association row for 犬; without viewer and without
    [excludeTagIds] the page is [p1] alone. *)
Theorem getPosts_include_filter_dropped :
  (forall limit offset tagIds uid excludeTagIds db,
      truthy (Some uid) = true ->
      getPosts limit offset tagIds (Some uid) excludeTagIds db
      = getPosts limit offset None (Some uid) excludeTagIds db)
  /\ (forall limit offset tagIds userId e db,
        truthy userId = false -> e <> [] ->
        getPosts limit offset tagIds userId (Some e) db
        = getPosts limit offset None userId (Some e) db)
  /\ matching_rows Fixtures.db0 "p2" ["t-dog"] = 0
  /\ map PostWithTags.id
       (getPosts 20 0 (Some ["t-dog"]) (Some "alice") None Fixtures.db0)
     = ["p2"; "p1"]
  /\ map PostWithTags.id
       (getPosts 20 0 (Some ["t-dog"]) None (Some ["t-front-missing"]) Fixtures.db0)
     = ["p2"; "p1"]
  /\ map PostWithTags.id (getPosts 20 0 (Some ["t-dog"]) None None Fixtures.db0)
     = ["p1"].
Proof.
  split; [| split; [| repeat split]].
  - intros limit offset tagIds uid excludeTagIds db Hu. unfold getPosts.
    rewrite (@getPosts_query_viewer tagIds uid excludeTagIds db Hu).
    rewrite (@getPosts_query_viewer None uid excludeTagIds db Hu). reflexivity.
  - intros limit offset tagIds userId e db Hu He. unfold getPosts.
    rewrite (@getPosts_query_exclude_alone tagIds userId e db Hu He). reflexivity.
Qed.

(** C3: with a viewer the page does not depend on [excludeTagIds] at
    all.  At [excludeTagIds = [犬]] with viewer alice (no stored exclusions)
    the page holds [p1], which carries 犬; without a viewer the same request
    returns [p2] alone. *)
Theorem getPosts_request_exclusion_dropped :
  (forall limit offset tagIds uid excludeTagIds db,
      truthy (Some uid) = true ->
      getPosts limit offset tagIds (Some uid) excludeTagIds db
      = getPosts limit offset tagIds (Some uid) None db)
  /\ carries Fixtures.db0 "p1" "t-dog" = true
  /\ excludedTagIds "alice" Fixtures.db0 = []
  /\ map PostWithTags.id
       (getPosts 20 0 None (Some "alice") (Some ["t-dog"]) Fixtures.db0)
     = ["p2"; "p1"]
  /\ map PostWithTags.id (getPosts 20 0 None None (Some ["t-dog"]) Fixtures.db0)
     = ["p2"].
Proof.
  split; [| repeat split].
  intros limit offset tagIds uid excludeTagIds db Hu. unfold getPosts.
  rewrite (@getPosts_query_viewer tagIds uid excludeTagIds db Hu).
  rewrite (@getPosts_query_viewer tagIds uid None db Hu). reflexivity.
Qed.

(** ** A page that holds the whole result *)

Lemma leftJoin_match {R B} (rows : list R) (tbl : list B)
    (on : R -> B -> bool) (put : R -> option B -> R) (r : R) (b : B) :
  In r rows -> In b tbl -> on r b = true ->
  In (put r (Some b)) (leftJoin rows tbl on put).
Proof.
  intros Hr Hb Hon. unfold leftJoin. apply in_flat_map. exists r.
  split; [exact Hr |].
  assert (Hf : In b (filter (on r) tbl)) by (apply filter_In; auto).
  destruct (filter (on r) tbl) as [|m ms]; [contradiction |].
  apply in_map_iff. exists b. auto.
Qed.

(** The base join has a row for every (post, stored tag it carries). *)
Lemma select_from_posts_tag_complete (f : JoinRow -> Row.t) (db : DB)
    (p : Post) (t : Tag) :
  In p (tbl_posts db) -> In t (tbl_tags db) ->
  carries db (posts.id p) (tags.id t) = true ->
  exists j, In j (config_rows (select_from_posts f db))
            /\ j_post j = p /\ j_tag j = Some t.
Proof.
  intros Hp Ht Hc. apply carries_iff in Hc as [pt [Hpt [E1 E2]]].
  unfold select_from_posts. cbn [config_rows].
  set (r0 := map _ (tbl_posts db)).
  assert (H0 : In {| j_post := p; j_user := None; j_postTag := None;
                     j_tag := None; j_favorite := None |} r0)
    by (apply in_map_iff; eauto).
  match goal with
  | |- exists j, In j (leftJoin (leftJoin (leftJoin r0 ?t1 ?o1 ?p1) ?t2 ?o2 ?p2)
                         ?t3 ?o3 ?p3) /\ _ =>
      destruct (leftJoin_complete r0 t1 o1 p1 _ H0) as [b1 H1];
      pose proof (leftJoin_match _ t2 o2 p2 _ pt H1 Hpt) as H2
  end.
  cbn in H2. rewrite E1, String.eqb_refl in H2. specialize (H2 eq_refl).
  match goal with
  | |- exists j, In j (leftJoin ?r2 ?t3 ?o3 ?p3) /\ _ =>
      pose proof (leftJoin_match r2 t3 o3 p3 _ t H2 Ht) as H3
  end.
  cbn in H3. rewrite E2, String.eqb_refl in H3. specialize (H3 eq_refl).
  eexists. split; [exact H3 | split; reflexivity].
Qed.

Lemma leftJoin_favorites_keeps (uid : string) (db : DB) (q : PgSelect) (j0 : JoinRow) :
  In j0 (config_rows q) ->
  exists j, In j (config_rows (leftJoin_favorites uid db q))
            /\ j_post j = j_post j0 /\ j_tag j = j_tag j0.
Proof.
  unfold leftJoin_favorites, with_rows. cbn [config_rows]. intros H0.
  match goal with |- exists j, In j (leftJoin _ ?t ?o ?p) /\ _ =>
    destruct (leftJoin_complete _ t o p _ H0) as [b H]
  end.
  eexists. split; [exact H | split; reflexivity].
Qed.

Lemma getPosts_query_tag_complete tagIds userId excludeTagIds db p t :
  In p (tbl_posts db) -> In t (tbl_tags db) ->
  carries db (posts.id p) (tags.id t) = true ->
  exists j, In j (config_rows (getPosts_query tagIds userId excludeTagIds db))
            /\ j_post j = p /\ j_tag j = Some t.
Proof.
  rewrite getPosts_query_rows. intros Hp Ht Hc.
  destruct (select_from_posts_tag_complete (fields userId) db p t Hp Ht Hc)
    as [j0 [H0 [E0 T0]]].
  destruct userId as [uid|]; [destruct (truthy (Some uid)) |]; eauto.
  destruct (leftJoin_favorites_keeps uid db _ j0 H0) as [j [Hj [E T]]].
  exists j. split; [exact Hj | split; congruence].
Qed.

(** The condition of the statement looks at the post of a row only. *)
Lemma getPosts_query_where_post tagIds userId excludeTagIds db c j j' :
  config_where (getPosts_query tagIds userId excludeTagIds db) = Some c ->
  j_post j = j_post j' -> c j = c j'.
Proof.
  unfold getPosts_query. intros Hc E.
  destruct userId as [uid|]; [destruct (truthy (Some uid)) |];
    destruct tagIds as [l|]; try destruct (Nat.ltb 0 (List.length l));
    destruct excludeTagIds as [e|]; try destruct (Nat.ltb 0 (List.length e));
    simpl in Hc; try discriminate; inversion Hc; subst c; rewrite E; reflexivity.
Qed.

(** On a page from [offset = 0] that is long enough for all rows of the
    result, an entry lists every stored tag its post carries; on any page
    it lists no tag id twice. *)
Lemma getPosts_full_page_tags limit tagIds userId excludeTagIds db r t :
  List.length (filtered (getPosts_query tagIds userId excludeTagIds db)) <= limit ->
  In r (getPosts limit 0 tagIds userId excludeTagIds db) ->
  In t (tbl_tags db) -> carries db (PostWithTags.id r) (tags.id t) = true ->
  In (tags.id t) (map tags.id (PostWithTags.tags r)).
Proof.
  intros Hlim Hr Ht Hc.
  destruct (getPosts_sound _ _ _ _ _ _ _ Hr) as [Hp [Hw _]].
  destruct (getPosts_query_tag_complete tagIds userId excludeTagIds db _ t Hp Ht Hc)
    as [j [Hj [Ej Tj]]].
  set (q := getPosts_query tagIds userId excludeTagIds db) in *.
  assert (Hf : In j (filtered q)).
  { apply filtered_In. split; [exact Hj |]. intros c Ec.
    destruct (Hw c Ec) as [j' [Ej' Hc']].
    rewrite (@getPosts_query_where_post tagIds userId excludeTagIds db c j j' Ec);
      [exact Hc' | congruence]. }
  pose proof (@run_page_all limit q j Hlim Hf) as Hrow.
  unfold getPosts in Hr. fold q in Hr.
  apply (@collect_tag_kept _ r _ t Hr Hrow).
  - unfold q. rewrite getPosts_query_fields. simpl. rewrite Ej. reflexivity.
  - unfold q. rewrite getPosts_query_fields. simpl. exact Tj.
Qed.

Lemma getPosts_tags_distinct limit offset tagIds userId excludeTagIds db r :
  In r (getPosts limit offset tagIds userId excludeTagIds db) ->
  NoDup (map tags.id (PostWithTags.tags r)).
Proof. apply collect_tags_distinct. Qed.

(** The include filter counts association rows: a post that stores the row
    for 犬 twice passes [tagIds = [犬; 正面]] without carrying 正面. *)
Example getPosts_include_counts_rows :
  carries Fixtures.db_twice "p2" "t-front" = false
  /\ matching_rows Fixtures.db_twice "p2" ["t-dog"; "t-front"] = 2
  /\ map PostWithTags.id
       (getPosts 20 0 (Some ["t-dog"; "t-front"]) None None Fixtures.db_twice)
     = ["p2"; "p1"].
Proof. repeat split. Qed.

(** [createPost] accepts a repeated tag id and stores the row twice. *)
Example createPost_repeated_tag_id :
  tbl_postTags
    (snd (createPost Fixtures.g1
            {| ip_userId := "bob"; ip_imageUrl := "/img/3.png"; ip_caption := None |}
            ["t-dog"; "t-dog"] Fixtures.db1))
  = [Fixtures.pt "p1" "t-dog"; Fixtures.pt "p1" "t-front";
     Fixtures.pt "uuid-1" "t-dog"; Fixtures.pt "uuid-1" "t-dog"].
Proof. reflexivity. Qed.

(** * Further properties of the storage layer *)

(** ** Validation and creation of a post *)



Lemma carries_committed (g : Gen) (post : InsertPost) (tagIds : list string)
    (db : DB) (tid : string) :
  (forall pt, In pt (tbl_postTags db) -> has_post db (postTags.postId pt) = true) ->
  has_post db (gen_random_uuid g) = false ->
  carries (committed g post tagIds db) (gen_random_uuid g) tid = true <-> In tid tagIds.
Proof.
  intros Href Hfresh. rewrite carries_iff. unfold committed.
  cbn [tbl_postTags set_postTags]. split.
  - intros [pt [Hin [E1 E2]]]. apply in_app_or in Hin as [Hin | Hin].
    + specialize (Href pt Hin). rewrite E1 in Href. congruence.
    + apply in_map_iff in Hin as [t [<- Ht]]. simpl in E2. congruence.
  - intros Hin. exists {| postTags.postId := gen_random_uuid g; postTags.tagId := tid |}.
    split; [| split; reflexivity].
    apply in_or_app. right. apply in_map_iff. exists tid. auto.
Qed.

(** X2: the two storage calls of [POST /api/posts] compose.  When
    [validatePostTags] accepted the ids, the owner is stored and the
    generated id is new, [createPost] resolves; the new post then carries
    exactly the given tags, a classification tag among them, and has
    [tagIds.length] association rows, one per id. *)
Theorem validated_createPost_resolves
    (g : Gen) (post : InsertPost) (tagIds : list string) (db : DB) :
  NoDup (map tags.id (tbl_tags db)) ->
  (forall pt, In pt (tbl_postTags db) -> has_post db (postTags.postId pt) = true) ->
  validatePostTags tagIds db = true ->
  has_user db (ip_userId post) = true ->
  has_post db (gen_random_uuid g) = false ->
  exists db',
    createPost g post tagIds db = (Resolved (newPost_of g post), db')
    /\ (forall tid, carries db' (gen_random_uuid g) tid = true <-> In tid tagIds)
    /\ (exists t, In t (tbl_tags db') /\ tags.category t = Bunrui
                  /\ carries db' (gen_random_uuid g) (tags.id t) = true)
    /\ matching_rows db' (gen_random_uuid g) tagIds = List.length tagIds.
Proof.
  intros Hpk Href Hv Hu Hfresh.
  apply (validatePostTags_true_iff tagIds db Hpk) in Hv
    as [Hne [Hnd [Hall [t [Ht [Hin Hc]]]]]].
  exists (committed g post tagIds db). split; [| split; [| split]].
  - rewrite createPost_cases, Hfresh, Hu. cbn [negb].
    assert (Hf : forallb (has_tag db) tagIds = true) by (apply forallb_forall, Hall).
    rewrite Hf. reflexivity.
  - intros tid. apply carries_committed; assumption.
  - exists t. split; [exact Ht | split; [exact Hc |]].
    apply carries_committed; assumption.
  - unfold matching_rows, committed. cbn [tbl_postTags set_postTags].
    rewrite filter_app, length_app.
    match goal with
    | |- List.length ?A + List.length ?B = _ =>
        assert (HA : A = []); [| assert (HB : List.length B = List.length tagIds)]
    end.
    + apply filter_none. apply not_true_iff_false. intros Hex.
      apply existsb_exists in Hex as [pt [Hpt Hm]].
      apply andb_true_iff in Hm as [Hm _]. apply String.eqb_eq in Hm.
      specialize (Href pt Hpt). rewrite Hm in Href. congruence.
    + rewrite filter_all; [apply length_map |].
      intros pt Hpt. apply in_map_iff in Hpt as [tid [<- Htid]]. simpl.
      rewrite String.eqb_refl. simpl. apply inArray_In, Htid.
    + rewrite HA, HB. reflexivity.
Qed.

Lemma validated_createPost_resolves_witness :
  exists db',
    createPost Fixtures.g1
      {| ip_userId := "bob"; ip_imageUrl := "/img/3.png"; ip_caption := None |}
      ["t-front"; "t-dog"] Fixtures.db0
    = (Resolved (newPost_of Fixtures.g1
                   {| ip_userId := "bob"; ip_imageUrl := "/img/3.png";
                      ip_caption := None |}), db')
    /\ (forall tid, carries db' "uuid-1" tid = true <-> In tid ["t-front"; "t-dog"])
    /\ (exists t, In t (tbl_tags db') /\ tags.category t = Bunrui
                  /\ carries db' "uuid-1" (tags.id t) = true)
    /\ matching_rows db' "uuid-1" ["t-front"; "t-dog"] = 2.
Proof.
  apply (@validated_createPost_resolves Fixtures.g1
           {| ip_userId := "bob"; ip_imageUrl := "/img/3.png"; ip_caption := None |}
           ["t-front"; "t-dog"] Fixtures.db0).
  - simpl. repeat constructor; simpl; intuition discriminate.
  - intros pt [<- | [<- | [<- | []]]]; reflexivity.
  - reflexivity.
  - reflexivity.
  - reflexivity.
Defined.

(** ** The entries of a feed page *)

Lemma entries_from_step (m : JsMap PostWithTags.t) (done : list Row.t) (row : Row.t) :
  entries_from m done -> entries_from (collect_step m row) (done ++ [row]).
Proof.
  intros He. unfold collect_step.
  set (m1 := if negb (Map_has (posts.id (Row.post row)) m) then _ else m).
  assert (He1 : entries_from m1 (done ++ [row])).
  { unfold m1. intros k v Hin.
    assert (Hold : In (k, v) m ->
              exists r, In r (done ++ [row]) /\ Row.post r = PostWithTags.post v
                        /\ Row.user r = PostWithTags.user v
                        /\ Row.isFavorited r = PostWithTags.isFavorited v).
    { intros H. destruct (He k v H) as [r [Hr E]]. exists r.
      split; [apply in_or_app; auto | exact E]. }
    destruct (negb (Map_has (posts.id (Row.post row)) m)); [| auto].
    apply Map_set_In in Hin as [[_ ->] | Hin]; [| auto].
    exists row. split; [apply in_or_app; simpl; auto | simpl; auto]. }
  destruct (Row.tag row) as [tag|]; [| exact He1].
  destruct (Map_get (posts.id (Row.post row)) m1) as [e|] eqn:Eget; [| exact He1].
  match goal with
  | |- entries_from (if negb ?c then _ else _) _ => destruct c; simpl
  end; [exact He1 |].
  intros k v Hin. apply Map_set_In in Hin as [[_ ->] | Hin]; [| apply (He1 k v Hin)].
  simpl. apply (He1 _ e (@Map_get_In _ _ _ _ Eget)).
Qed.

Lemma collect_entry_from (rows : list Row.t) (r : PostWithTags.t) :
  In r (collect rows) ->
  exists row, In row rows /\ Row.post row = PostWithTags.post r
              /\ Row.user row = PostWithTags.user r
              /\ Row.isFavorited row = PostWithTags.isFavorited r.
Proof.
  assert (H : forall rows done m, entries_from m done ->
                entries_from (fold_left collect_step rows m) (done ++ rows)).
  { clear. induction rows as [|row rows IH]; intros done m Hm; simpl.
    - rewrite app_nil_r. exact Hm.
    - replace (done ++ row :: rows) with ((done ++ [row]) ++ rows)
        by (rewrite <- app_assoc; reflexivity).
      apply IH, entries_from_step, Hm. }
  unfold collect, Map_values. intros Hr.
  apply in_map_iff in Hr as [[k v] [E Hin]]. simpl in E. subst v.
  apply (H rows [] [] (fun _ _ F => match F with end) k r Hin).
Qed.

Lemma leftJoin_sound_strong {R B} (rows : list R) (tbl : list B)
    (on : R -> B -> bool) (put : R -> option B -> R) (r' : R) :
  In r' (leftJoin rows tbl on put) ->
  exists r, In r rows
            /\ ((existsb (on r) tbl = false /\ r' = put r None)
                \/ exists b, In b tbl /\ on r b = true /\ r' = put r (Some b)).
Proof.
  unfold leftJoin. intros Hin. apply in_flat_map in Hin as [r [Hr Hin]].
  exists r. split; [exact Hr |].
  destruct (filter (on r) tbl) as [|m ms] eqn:E.
  - destruct Hin as [<- | []]. left. split; [| reflexivity].
    apply not_true_iff_false. intros Hex. apply existsb_exists in Hex as [b [Hb Hon]].
    assert (Hf : In b (filter (on r) tbl)) by (apply filter_In; auto).
    rewrite E in Hf. contradiction.
  - right. apply in_map_iff in Hin as [b [<- Hb]].
    rewrite <- E in Hb. apply filter_In in Hb as [Hb Hon]. eauto.
Qed.

(** The favorite flag of a join row says whether the viewer has a favorite
    row for the post. *)
Lemma getPosts_query_row_favorite tagIds userId excludeTagIds db j :
  In j (config_rows (getPosts_query tagIds userId excludeTagIds db)) ->
  isFavoritedExpr userId j = viewer_favorited db userId (posts.id (j_post j)).
Proof.
  rewrite getPosts_query_rows. unfold isFavoritedExpr, viewer_favorited.
  destruct userId as [uid|]; [| reflexivity].
  destruct (truthy (Some uid)) eqn:Hu; [| reflexivity].
  unfold leftJoin_favorites, with_rows. cbn [config_rows]. intros Hj.
  apply leftJoin_sound_strong in Hj as [j0 [_ [[Hno ->] | [f [Hf [Hon ->]]]]]]; cbn.
  - symmetry. exact Hno.
  - symmetry. apply existsb_exists. exists f. auto.
Qed.

(** The owner of a join row is the stored user the post names. *)
Lemma getPosts_query_row_user tagIds userId excludeTagIds db j u :
  In j (config_rows (getPosts_query tagIds userId excludeTagIds db)) ->
  j_user j = Some u ->
  In u (tbl_users db) /\ users.id u = posts.userId (j_post j).
Proof.
  rewrite getPosts_query_rows. intros H Eu.
  assert (Hbase : exists j0, In j0 (config_rows (select_from_posts (fields userId) db))
                             /\ j_post j = j_post j0 /\ j_user j = j_user j0).
  { destruct userId as [uid|]; [destruct (truthy (Some uid)) |]; eauto.
    unfold leftJoin_favorites, with_rows in H. cbn [config_rows] in H.
    apply leftJoin_sound in H as [j0 [H0 E]]. exists j0. split; [exact H0 |].
    destruct E as [-> | [b [_ [_ ->]]]]; auto. }
  destruct Hbase as [j3 [H3 [Ep Eu']]]. rewrite Ep. rewrite Eu' in Eu. clear H Ep Eu' j.
  unfold select_from_posts in H3. cbn [config_rows] in H3.
  apply leftJoin_sound in H3 as [j2 [H2 E3]].
  apply leftJoin_sound in H2 as [j1 [H1 E2]].
  apply leftJoin_sound in H1 as [j0 [H0 E1]].
  apply in_map_iff in H0 as [p [E0 Hp]].
  assert (H1' : j_post j1 = j_post j0
                /\ (j_user j1 = None
                    \/ exists v, j_user j1 = Some v /\ In v (tbl_users db)
                                 /\ posts.userId (j_post j0) = users.id v)).
  { destruct E1 as [-> | [v [Hv [Hon ->]]]]; cbn.
    - subst j0. auto.
    - split; [reflexivity |]. right. exists v. apply String.eqb_eq in Hon. auto. }
  destruct H1' as [P1 U1].
  assert (H2' : j_post j2 = j_post j1 /\ j_user j2 = j_user j1)
    by (destruct E2 as [-> | [b [_ [_ ->]]]]; auto).
  assert (H3' : j_post j3 = j_post j2 /\ j_user j3 = j_user j2)
    by (destruct E3 as [-> | [b [_ [_ ->]]]]; auto).
  destruct H2' as [P2 U2]. destruct H3' as [P3 U3].
  rewrite U3, U2 in Eu. rewrite P3, P2, P1.
  destruct U1 as [U1 | [v [U1 [Hv E]]]]; rewrite U1 in Eu; [discriminate |].
  inversion Eu; subst v. auto.
Qed.

(** X3: a page of [getPosts] is well formed.  No post id occurs twice;
    every entry is a stored post; its [user], when present, is the stored
    owner; every tag it lists is a stored tag the post carries, and no tag id
    is listed twice. *)
Theorem getPosts_page_well_formed limit offset tagIds userId excludeTagIds db :
  NoDup (map PostWithTags.id (getPosts limit offset tagIds userId excludeTagIds db))
  /\ forall r, In r (getPosts limit offset tagIds userId excludeTagIds db) ->
       In (PostWithTags.post r) (tbl_posts db)
       /\ (forall u, PostWithTags.user r = Some u ->
             In u (tbl_users db)
             /\ users.id u = posts.userId (PostWithTags.post r))
       /\ NoDup (map tags.id (PostWithTags.tags r))
       /\ forall t, In t (PostWithTags.tags r) ->
            In t (tbl_tags db) /\ carries db (PostWithTags.id r) (tags.id t) = true.
Proof.
  split; [apply getPosts_ids_NoDup |].
  intros r Hr. destruct (getPosts_sound _ _ _ _ _ _ _ Hr) as [Hp [_ Ht]].
  split; [exact Hp | split; [| split; [| exact Ht]]].
  - intros u Eu. unfold getPosts in Hr.
    apply collect_entry_from in Hr as [row [Hrow [Epost [Euser _]]]].
    apply run_page_sound in Hrow as [j [Hj ->]].
    rewrite getPosts_query_fields in Epost, Euser. simpl in Epost, Euser.
    apply filtered_In in Hj as [Hj _]. rewrite <- Epost.
    apply (@getPosts_query_row_user tagIds userId excludeTagIds db j u Hj).
    congruence.
  - apply (@getPosts_tags_distinct limit offset tagIds userId excludeTagIds db r Hr).
Qed.

(** X8: the [isFavorited] flag of an entry is [true] exactly when a viewer
    is given and has a favorite row for the post; without a viewer it is
    [false]. *)
Theorem getPosts_isFavorited limit offset tagIds userId excludeTagIds db r :
  In r (getPosts limit offset tagIds userId excludeTagIds db) ->
  PostWithTags.isFavorited r = viewer_favorited db userId (PostWithTags.id r).
Proof.
  unfold getPosts. intros Hr.
  apply collect_entry_from in Hr as [row [Hrow [Epost [_ Efav]]]].
  apply run_page_sound in Hrow as [j [Hj ->]].
  rewrite getPosts_query_fields in Epost, Efav. simpl in Epost, Efav.
  apply filtered_In in Hj as [Hj _].
  rewrite <- Efav. unfold PostWithTags.id. rewrite <- Epost.
  apply (@getPosts_query_row_favorite tagIds userId excludeTagIds db j Hj).
Qed.

Lemma getPosts_isFavorited_witness :
  exists r, In r (getPosts 20 0 None (Some "alice") None Fixtures.db_zoned)
            /\ PostWithTags.isFavorited r
               = viewer_favorited Fixtures.db_zoned (Some "alice") (PostWithTags.id r).
Proof.
  eexists. split.
  - simpl. left. reflexivity.
  - apply (@getPosts_isFavorited 20 0 None (Some "alice") None Fixtures.db_zoned).
    simpl. left. reflexivity.
Defined.

(** X4: with a viewer, no entry of any page carries a tag of the viewer's
    stored exclusions, whatever the other arguments are. *)
Theorem getPosts_honours_zoning limit offset tagIds uid excludeTagIds db r t :
  truthy (Some uid) = true ->
  In r (getPosts limit offset tagIds (Some uid) excludeTagIds db) ->
  In t (excludedTagIds uid db) ->
  carries db (PostWithTags.id r) t = false.
Proof. apply getPosts_viewer_exclusions. Qed.

Lemma getPosts_honours_zoning_witness :
  exists r,
    In r (getPosts 20 0 None (Some "alice") None Stores.db_fav)
    /\ In "t-cat" (excludedTagIds "alice" Stores.db_fav)
    /\ carries Stores.db_fav (PostWithTags.id r) "t-cat" = false.
Proof.
  eexists. split; [simpl; left; reflexivity |]. split; [simpl; auto |].
  apply (@getPosts_honours_zoning 20 0 None "alice" None Stores.db_fav _ "t-cat").
  - reflexivity.
  - simpl. left. reflexivity.
  - simpl. auto.
Defined.

(** X5: without a viewer, no entry of any page carries a tag of
    [excludeTagIds]. *)
Theorem getPosts_honours_excludeTagIds limit offset tagIds userId e db r t :
  truthy userId = false ->
  In r (getPosts limit offset tagIds userId (Some e) db) ->
  In t e ->
  carries db (PostWithTags.id r) t = false.
Proof. apply getPosts_request_exclusions. Qed.

Lemma getPosts_honours_excludeTagIds_witness :
  exists r,
    In r (getPosts 20 0 None None (Some ["t-dog"]) Fixtures.db0)
    /\ carries Fixtures.db0 (PostWithTags.id r) "t-dog" = false.
Proof.
  eexists. split; [simpl; left; reflexivity |].
  apply (@getPosts_honours_excludeTagIds 20 0 None None ["t-dog"] Fixtures.db0 _ "t-dog").
  - reflexivity.
  - simpl. left. reflexivity.
  - simpl. auto.
Defined.

(** ** The include filter on its own *)



Lemma distinct_rows_distinct_keys {Row Key} (key : Row -> Key) (rows : list Row) :
  (forall a b, In a rows -> In b rows -> key a = key b -> a = b) ->
  NoDup rows -> NoDup (map key rows).
Proof.
  induction rows as [|x rows IH]; intros Hinj Hnd; simpl; [constructor |].
  inversion Hnd as [|? ? Hx Hrest]; subst. constructor.
  - intros Hin. apply in_map_iff in Hin as [y [E Hy]].
    assert (y = x) by (apply Hinj; simpl; auto). subst. contradiction.
  - apply IH; [| exact Hrest]. intros a b Ha Hb. apply Hinj; simpl; auto.
Qed.

(** When no association row is stored twice and [tagIds] repeats no id,
    the count equals [tagIds.length] exactly when the post carries every tag
    of the list. *)
Lemma matching_rows_all (db : DB) (pid : string) (l : list string) :
  NoDup (tbl_postTags db) -> NoDup l ->
  matching_rows db pid l = List.length l
  <-> forall t, In t l -> carries db pid t = true.
Proof.
  intros Hrows Hl. unfold matching_rows.
  set (R := filter (fun pt => String.eqb (postTags.postId pt) pid
                              && inArray (postTags.tagId pt) l) (tbl_postTags db)).
  assert (HR : forall pt, In pt R <->
                 In pt (tbl_postTags db) /\ postTags.postId pt = pid
                 /\ In (postTags.tagId pt) l).
  { intros pt. unfold R. rewrite filter_In, andb_true_iff, String.eqb_eq, inArray_In.
    tauto. }
  assert (HK : NoDup (map postTags.tagId R)).
  { apply distinct_rows_distinct_keys.
    - intros [p1 t1] [p2 t2] H1 H2 E. simpl in E.
      apply HR in H1 as [_ [E1 _]]. apply HR in H2 as [_ [E2 _]].
      simpl in E1, E2. congruence.
    - apply NoDup_filter, Hrows. }
  assert (Hsub : incl (map postTags.tagId R) l).
  { intros t Ht. apply in_map_iff in Ht as [pt [<- Hpt]]. apply HR in Hpt. tauto. }
  rewrite <- (length_map postTags.tagId R). split.
  - intros Hlen t Ht. apply carries_iff.
    assert (Hin : In t (map postTags.tagId R)).
    { apply (@NoDup_length_incl _ (map postTags.tagId R) l HK); [lia | exact Hsub | exact Ht]. }
    apply in_map_iff in Hin as [pt [E Hpt]]. apply HR in Hpt as [Hpt [Ep _]]. eauto.
  - intros Hall.
    assert (Hsup : incl l (map postTags.tagId R)).
    { intros t Ht. specialize (Hall t Ht). apply carries_iff in Hall as [pt [Hpt [E1 E2]]].
      apply in_map_iff. exists pt. split; [exact E2 |]. apply HR. subst. auto. }
    apply Nat.le_antisymm; apply NoDup_incl_length; assumption.
Qed.



(** X9: a page from [offset = 0] that is long enough for all rows of the
    result is complete in its tags: an entry lists the id of every stored
    tag its post carries. *)
Theorem getPosts_whole_result_tags limit tagIds userId excludeTagIds db r t :
  List.length (filtered (getPosts_query tagIds userId excludeTagIds db)) <= limit ->
  In r (getPosts limit 0 tagIds userId excludeTagIds db) ->
  In t (tbl_tags db) -> carries db (PostWithTags.id r) (tags.id t) = true ->
  In (tags.id t) (map tags.id (PostWithTags.tags r)).
Proof. apply getPosts_full_page_tags. Qed.

Lemma getPosts_whole_result_tags_witness :
  exists r, In r (getPosts 20 0 None None None Fixtures.db0)
            /\ In "t-cat" (map tags.id (PostWithTags.tags r)).
Proof.
  eexists. split; [simpl; left; reflexivity |].
  apply (@getPosts_whole_result_tags 20 None None None Fixtures.db0 _ Fixtures.cat).
  - simpl. lia.
  - simpl. left. reflexivity.
  - simpl. auto.
  - reflexivity.
Defined.

(** ** The single post *)

Lemma getPost_rows (id : string) (userId : option string) (db : DB) :
  getPost id userId db =
  match map (fields userId)
          (filter (fun j => String.eqb (posts.id (j_post j)) id)
             (config_rows (getPosts_query None userId None db))) with
  | [] => None
  | r0 :: rest =>
      Some (fold_left getPost_push (r0 :: rest)
              {| PostWithTags.post := Row.post r0; PostWithTags.user := Row.user r0;
                 PostWithTags.tags := [];
                 PostWithTags.isFavorited := Row.isFavorited r0 |})
  end.
Proof.
  rewrite getPosts_query_rows. unfold getPost.
  set (c := fun j : JoinRow => String.eqb (posts.id (j_post j)) id).
  set (q0 := match userId with
             | Some uid => if truthy userId
                           then leftJoin_favorites uid db (select_from_posts (fields userId) db)
                           else select_from_posts (fields userId) db
             | None => select_from_posts (fields userId) db
             end).
  assert (Hfields : config_fields q0 = fields userId).
  { unfold q0. destruct userId as [uid|]; [destruct (truthy (Some uid)) |]; reflexivity. }
  assert (Hrun : run (where_ c q0) = map (fields userId) (filter c (config_rows q0))).
  { unfold run, filtered, where_. simpl. rewrite Hfields. reflexivity. }
  cbv zeta. rewrite Hrun.
  destruct (map (fields userId) (filter c (config_rows q0))); reflexivity.
Qed.

Lemma getPost_push_frame (rows : list Row.t) (acc : PostWithTags.t) :
  PostWithTags.post (fold_left getPost_push rows acc) = PostWithTags.post acc
  /\ PostWithTags.user (fold_left getPost_push rows acc) = PostWithTags.user acc
  /\ PostWithTags.isFavorited (fold_left getPost_push rows acc)
     = PostWithTags.isFavorited acc.
Proof.
  revert acc. induction rows as [|row rows IH]; intros acc; simpl; [auto |].
  destruct (IH (getPost_push acc row)) as [-> [-> ->]].
  unfold getPost_push. destruct (Row.tag row); [| auto].
  destruct (negb _); auto.
Qed.

Lemma getPost_push_tags_from (rows : list Row.t) (acc : PostWithTags.t) (t : Tag) :
  In t (PostWithTags.tags (fold_left getPost_push rows acc)) ->
  In t (PostWithTags.tags acc) \/ exists row, In row rows /\ Row.tag row = Some t.
Proof.
  revert acc. induction rows as [|row rows IH]; intros acc; simpl; [auto |].
  intros H. apply IH in H as [H | [r [Hr E]]]; [| right; eauto].
  unfold getPost_push in H. destruct (Row.tag row) as [tag|] eqn:Etag; [| auto].
  destruct (negb _); [| auto]. simpl in H.
  apply in_app_or in H as [H | [<- | []]]; [auto |]. right. eauto.
Qed.

Lemma getPost_push_tags_kept (rows : list Row.t) (acc : PostWithTags.t) :
  (forall x, In x (map tags.id (PostWithTags.tags acc)) ->
             In x (map tags.id (PostWithTags.tags (fold_left getPost_push rows acc))))
  /\ (forall row t, In row rows -> Row.tag row = Some t ->
        In (tags.id t)
          (map tags.id (PostWithTags.tags (fold_left getPost_push rows acc)))).
Proof.
  revert acc. induction rows as [|row rows IH]; intros acc; simpl.
  - split; [auto | intros ? ? []].
  - destruct (IH (getPost_push acc row)) as [Hkeep Hrows].
    assert (Hstep : forall x, In x (map tags.id (PostWithTags.tags acc)) ->
                      In x (map tags.id (PostWithTags.tags (getPost_push acc row)))).
    { intros x Hx. unfold getPost_push. destruct (Row.tag row); [| exact Hx].
      destruct (negb _); [| exact Hx]. simpl. rewrite map_app. apply in_or_app. auto. }
    split; [auto |].
    intros r t [<- | Hr] Et; [| eauto].
    apply Hkeep. unfold getPost_push. rewrite Et.
    match goal with
    | |- context [existsb ?f (PostWithTags.tags acc)] =>
        destruct (existsb f (PostWithTags.tags acc)) eqn:Eseen; simpl
    end.
    + apply existsb_exists in Eseen as [t' [Ht' E']]. apply String.eqb_eq in E'.
      rewrite <- E'. apply in_map, Ht'.
    + rewrite map_app. apply in_or_app. simpl. auto.
Qed.

Lemma getPost_push_tags_distinct (rows : list Row.t) (acc : PostWithTags.t) :
  NoDup (map tags.id (PostWithTags.tags acc)) ->
  NoDup (map tags.id (PostWithTags.tags (fold_left getPost_push rows acc))).
Proof.
  revert acc. induction rows as [|row rows IH]; intros acc Hnd; simpl; [exact Hnd |].
  apply IH. unfold getPost_push. destruct (Row.tag row) as [tag|]; [| exact Hnd].
  match goal with
  | |- context [existsb ?f (PostWithTags.tags acc)] =>
      destruct (existsb f (PostWithTags.tags acc)) eqn:Eseen; simpl; [exact Hnd |]
  end.
  rewrite map_app. simpl. apply NoDup_app; [exact Hnd | repeat constructor; auto |].
  intros x Hx [<- | []]. apply in_map_iff in Hx as [t' [E' Ht']].
  apply not_true_iff_false in Eseen. apply Eseen, existsb_exists.
  exists t'. split; [exact Ht' | apply String.eqb_eq, E'].
Qed.

Lemma getPost_None_iff (id : string) (userId : option string) (db : DB) :
  getPost id userId db = None <-> has_post db id = false.
Proof.
  rewrite getPost_rows. split.
  - intros Hnone. apply not_true_iff_false. intros Hhas.
    apply has_post_In, in_map_iff in Hhas as [p [Eid Hp]].
    destruct (getPosts_query_rows_complete None userId None db p Hp) as [j [Hj Ej]].
    assert (Hf : In (fields userId j)
                   (map (fields userId)
                      (filter (fun j => String.eqb (posts.id (j_post j)) id)
                         (config_rows (getPosts_query None userId None db))))).
    { apply in_map, filter_In. split; [exact Hj |]. rewrite Ej, Eid.
      apply String.eqb_refl. }
    destruct (map (fields userId) _); [contradiction | discriminate].
  - intros Hno.
    destruct (filter (fun j => String.eqb (posts.id (j_post j)) id)
                (config_rows (getPosts_query None userId None db))) as [|j rest] eqn:Ef;
      [reflexivity |].
    exfalso.
    assert (Hj : In j (filter (fun j => String.eqb (posts.id (j_post j)) id)
                         (config_rows (getPosts_query None userId None db))))
      by (rewrite Ef; simpl; auto).
    apply filter_In in Hj as [Hj Hid]. apply String.eqb_eq in Hid.
    apply getPosts_query_rows_sound in Hj as [Hp _].
    apply not_true_iff_false in Hno. apply Hno, has_post_In, in_map_iff. eauto.
Qed.

(** X10: [GET /api/posts/:id] reads the path parameter as a uuid.  It
    answers 404 exactly when the text reads as a uuid and no post with that
    id is stored, 500 exactly when the text is not uuid syntax, and otherwise
    sends the entry [getPost] builds for that id. *)
Theorem get_api_posts_id_not_found_iff (id : string) (userId : option string)
    (db : DB) :
  (get_api_posts_id id userId db = answer_message 404 "Post not found"
   <-> exists u, uuid_in id = Some u /\ has_post db u = false)
  /\ (get_api_posts_id id userId db = answer_message 500 "Failed to fetch post"
      <-> uuid_in id = None)
  /\ (forall post,
        get_api_posts_id id userId db = answer_post post
        <-> exists u, uuid_in id = Some u /\ getPost u userId db = Some post).
Proof.
  unfold get_api_posts_id, as_uuid, query, reject.
  destruct (uuid_in id) as [u|].
  - pose proof (getPost_None_iff u userId db) as Hnone.
    destruct (getPost u userId db) as [post|] eqn:Eg; cbv beta iota.
    + conjs.
      * split; [discriminate |]. intros [v [E Hv]]. inversion E; subst v.
        apply Hnone in Hv. discriminate Hv.
      * split; discriminate.
      * intros post'. split.
        -- intros E. exists u. split; [reflexivity | congruence].
        -- intros [v [Ev E]]. inversion Ev; subst v. congruence.
    + conjs.
      * split; [| reflexivity]. intros _. exists u. split; [reflexivity |].
        apply Hnone. reflexivity.
      * split; discriminate.
      * intros post'. split; [discriminate |].
        intros [v [Ev E]]. inversion Ev; subst v. congruence.
  - conjs.
    + split; [discriminate |]. intros [v [E _]]. discriminate E.
    + split; reflexivity.
    + intros post'. split; [discriminate |]. intros [v [E _]]. discriminate E.
Qed.

Lemma getPost_Some_facts (id : string) (userId : option string) (db : DB)
    (r : PostWithTags.t) :
  getPost id userId db = Some r ->
  PostWithTags.id r = id
  /\ In (PostWithTags.post r) (tbl_posts db)
  /\ PostWithTags.isFavorited r = viewer_favorited db userId id
  /\ NoDup (map tags.id (PostWithTags.tags r))
  /\ (forall t, In t (PostWithTags.tags r) ->
        In t (tbl_tags db) /\ carries db id (tags.id t) = true)
  /\ (forall t, In t (tbl_tags db) -> carries db id (tags.id t) = true ->
        In (tags.id t) (map tags.id (PostWithTags.tags r))).
Proof.
  rewrite getPost_rows.
  set (c := fun j : JoinRow => String.eqb (posts.id (j_post j)) id).
  set (q := getPosts_query None userId None db).
  assert (Hrow : forall row, In row (map (fields userId) (filter c (config_rows q))) ->
             exists j, In j (config_rows q) /\ posts.id (j_post j) = id
                       /\ row = fields userId j).
  { intros row Hin. apply in_map_iff in Hin as [j [<- Hj]].
    apply filter_In in Hj as [Hj Hc]. apply String.eqb_eq in Hc. eauto. }
  destruct (map (fields userId) (filter c (config_rows q))) as [|r0 rest] eqn:Erows;
    [discriminate |].
  set (init := {| PostWithTags.post := Row.post r0; PostWithTags.user := Row.user r0;
                  PostWithTags.tags := [];
                  PostWithTags.isFavorited := Row.isFavorited r0 |}).
  intros Hr.
  assert (Er : fold_left getPost_push (r0 :: rest) init = r) by congruence.
  clear Hr.
  destruct (getPost_push_frame (r0 :: rest) init) as [Epost [_ Efav]].
  pose proof (getPost_push_tags_distinct (r0 :: rest) init (NoDup_nil _)) as Hnd.
  pose proof (@getPost_push_tags_from (r0 :: rest) init) as Hfrom.
  pose proof (proj2 (getPost_push_tags_kept (r0 :: rest) init)) as Hkept.
  rewrite Er in Epost, Efav, Hnd, Hfrom, Hkept. simpl in Epost, Efav.
  destruct (Hrow r0 (or_introl eq_refl)) as [j0 [Hj0 [Eid0 E0]]].
  split; [| split; [| split; [| split; [| split]]]].
  - unfold PostWithTags.id. rewrite Epost. subst r0. exact Eid0.
  - rewrite Epost. subst r0. simpl.
    apply (proj1 (@getPosts_query_rows_sound None userId None db j0 Hj0)).
  - rewrite Efav. subst r0. simpl. rewrite <- Eid0.
    apply (@getPosts_query_row_favorite None userId None db j0 Hj0).
  - exact Hnd.
  - intros t Ht. apply Hfrom in Ht as [[] | [row [Hr Et]]].
    destruct (Hrow row Hr) as [j [Hj [Eid ->]]]. simpl in Et.
    destruct (@getPosts_query_rows_sound None userId None db j Hj) as [_ Htag].
    rewrite <- Eid. apply Htag, Et.
  - intros t Ht Hc.
    destruct (@getPosts_query_rows_sound None userId None db j0 Hj0) as [Hp0 _].
    rewrite <- Eid0 in Hc.
    destruct (@getPosts_query_tag_complete None userId None db (j_post j0) t Hp0 Ht Hc)
      as [j [Hj [Ej Tj]]].
    apply (Hkept (fields userId j) t).
    + rewrite <- Erows. apply in_map, filter_In. split; [exact Hj |].
      unfold c. rewrite Ej, Eid0. apply String.eqb_refl.
    + simpl. exact Tj.
Qed.

(** X11: what [getPost] returns for a stored id.  The entry is a stored
    post of that id; its flag says whether the viewer has a favorite row for
    it; it lists exactly the stored tags the post carries, each id once. *)
Theorem getPost_entry (id : string) (userId : option string) (db : DB)
    (r : PostWithTags.t) :
  getPost id userId db = Some r ->
  PostWithTags.id r = id
  /\ In (PostWithTags.post r) (tbl_posts db)
  /\ PostWithTags.isFavorited r = viewer_favorited db userId id
  /\ NoDup (map tags.id (PostWithTags.tags r))
  /\ (forall t, In t (PostWithTags.tags r) ->
        In t (tbl_tags db) /\ carries db id (tags.id t) = true)
  /\ (forall t, In t (tbl_tags db) -> carries db id (tags.id t) = true ->
        In (tags.id t) (map tags.id (PostWithTags.tags r))).
Proof. apply getPost_Some_facts. Qed.

Lemma getPost_entry_witness :
  exists r, getPost "p1" (Some "bob") Stores.db_fav = Some r
            /\ PostWithTags.id r = "p1"
            /\ PostWithTags.isFavorited r
               = viewer_favorited Stores.db_fav (Some "bob") "p1"
            /\ NoDup (map tags.id (PostWithTags.tags r)).
Proof.
  destruct (getPost "p1" (Some "bob") Stores.db_fav) as [r|] eqn:E;
    [| vm_compute in E; discriminate].
  exists r. split; [reflexivity |].
  destruct (@getPost_entry "p1" (Some "bob") Stores.db_fav r E) as [H1 [_ [H3 [H4 _]]]].
  auto.
Defined.

(** ** Tags *)

(** X12: [getAllTags] returns every stored tag once, ordered by category
    in the order of the enum and, within a category, by name under the
    collation. *)
Theorem getAllTags_sorted (collate_le : string -> string -> bool)
    (collate_total : forall a b, collate_le a b = true \/ collate_le b a = true)
    (db : DB) :
  Permutation (getAllTags collate_le db) (tbl_tags db)
  /\ Sorted (fun a b =>
               TagCategory_rank (tags.category a) < TagCategory_rank (tags.category b)
               \/ (tags.category a = tags.category b
                   /\ collate_le (tags.name a) (tags.name b) = true))
       (getAllTags collate_le db).
Proof.
  split; [apply orderBy_perm |].
  assert (Htotal : forall a b, category_name_le collate_le a b = true
                               \/ category_name_le collate_le b a = true).
  { intros a b. unfold category_name_le.
    destruct (Nat.lt_trichotomy (TagCategory_rank (tags.category a))
                (TagCategory_rank (tags.category b))) as [H | [H | H]].
    - left. apply Nat.ltb_lt in H. rewrite H. reflexivity.
    - destruct (collate_total (tags.name a) (tags.name b)) as [Hc | Hc].
      + left. rewrite H, Nat.eqb_refl, Hc. apply orb_true_r.
      + right. rewrite H, Nat.eqb_refl, Hc. apply orb_true_r.
    - right. apply Nat.ltb_lt in H. rewrite H. reflexivity. }
  pose proof (orderBy_Sorted (category_name_le collate_le) Htotal (tbl_tags db)) as Hs.
  unfold getAllTags.
  eapply Sorted_ind with (P := fun l => Sorted _ l); [| | exact Hs].
  - constructor.
  - intros a l _ IH Hhd. constructor; [exact IH |].
    destruct Hhd as [|b l' Hab]; constructor.
    unfold category_name_le in Hab. apply orb_true_iff in Hab as [Hab | Hab].
    + left. apply Nat.ltb_lt, Hab.
    + right. apply andb_true_iff in Hab as [Hr Hc]. apply Nat.eqb_eq in Hr.
      split; [| exact Hc].
      destruct (tags.category a), (tags.category b); simpl in Hr;
        try reflexivity; discriminate.
Qed.

Lemma getAllTags_sorted_witness :
  map tags.id (getAllTags String.leb Fixtures.db0) = ["t-dog"; "t-cat"; "t-front"]
  /\ Permutation (getAllTags String.leb Fixtures.db0) (tbl_tags Fixtures.db0).
Proof.
  split; [reflexivity |].
  apply (getAllTags_sorted String.leb String.leb_total Fixtures.db0).
Defined.

Lemma getOrCreateTag_cases (g : Gen) (name : string) (category : TagCategory) (db : DB) :
  getOrCreateTag g name category db =
  match select_tags_name_category name category db with
  | existingTag :: _ => (Resolved existingTag, db)
  | [] =>
      if has_tag db (gen_random_uuid g) then (Rejected unique_violation, db)
      else
        let t := {| tags.id := gen_random_uuid g; tags.name := name;
                    tags.category := category; tags.createdAt := Some (now g) |} in
        (Resolved t, set_tags (tbl_tags db ++ [t]) db)
  end.
Proof.
  unfold getOrCreateTag, await, query, resolve. simpl.
  destruct (select_tags_name_category name category db); [| reflexivity].
  unfold createTag, insert_tags. rewrite conflicts_tags. reflexivity.
Qed.

Lemma select_after_insert (name : string) (category : TagCategory) (t : Tag) (db : DB) :
  select_tags_name_category name category (set_tags (tbl_tags db ++ [t]) db)
  = select_tags_name_category name category db
    ++ (if String.eqb (tags.name t) name && TagCategory_eqb (tags.category t) category
        then [t] else []).
Proof.
  unfold select_tags_name_category. cbn [tbl_tags set_tags].
  rewrite filter_app. reflexivity.
Qed.

Lemma getOrCreateTag_effect (g : Gen) (name : string) (category : TagCategory)
    (db : DB) :
  has_tag db (gen_random_uuid g) = false ->
  exists t db',
    getOrCreateTag g name category db = (Resolved t, db')
    /\ (db' = db
        \/ (db' = set_tags (tbl_tags db ++ [t]) db /\ tags.id t = gen_random_uuid g))
    /\ tags.name t = name /\ tags.category t = category
    /\ In t (tbl_tags db')
    /\ rows_of_pair name category db' = Nat.max 1 (rows_of_pair name category db)
    /\ (forall n c, (n, c) <> (name, category) ->
          rows_of_pair n c db' = rows_of_pair n c db)
    /\ (forall g', getOrCreateTag g' name category db' = (Resolved t, db')).
Proof.
  intros Hfresh. rewrite getOrCreateTag_cases. unfold rows_of_pair.
  destruct (select_tags_name_category name category db) as [|t rest] eqn:Hsel.
  - rewrite Hfresh.
    set (t := {| tags.id := gen_random_uuid g; tags.name := name;
                 tags.category := category; tags.createdAt := Some (now g) |}).
    assert (Hself : String.eqb (tags.name t) name
                    && TagCategory_eqb (tags.category t) category = true).
    { simpl. rewrite String.eqb_refl. apply TagCategory_eqb_eq. reflexivity. }
    exists t, (set_tags (tbl_tags db ++ [t]) db).
    split; [reflexivity |]. split; [right; split; reflexivity |].
    split; [reflexivity |]. split; [reflexivity |].
    split; [cbn [tbl_tags set_tags]; apply in_or_app; simpl; auto |].
    split; [| split].
    + rewrite select_after_insert, Hsel, Hself. reflexivity.
    + intros n c Hne. rewrite select_after_insert.
      destruct (String.eqb_spec (tags.name t) n) as [En | En];
        [| simpl; rewrite app_nil_r; reflexivity].
      destruct (TagCategory_eqb (tags.category t) c) eqn:Ec;
        [| simpl; rewrite app_nil_r; reflexivity].
      apply TagCategory_eqb_eq in Ec. simpl in En, Ec. exfalso. apply Hne. congruence.
    + intros g'. rewrite getOrCreateTag_cases, select_after_insert, Hsel, Hself.
      reflexivity.
  - assert (Ht : In t (select_tags_name_category name category db))
      by (rewrite Hsel; simpl; auto).
    unfold select_tags_name_category in Ht. apply filter_In in Ht as [Ht Hm].
    apply andb_true_iff in Hm as [Hn Hc].
    apply String.eqb_eq in Hn. apply TagCategory_eqb_eq in Hc.
    exists t, db. split; [reflexivity |]. split; [left; reflexivity |].
    split; [exact Hn |]. split; [exact Hc |]. split; [exact Ht |].
    split; [rewrite ?Hsel; simpl; lia |]. split; [reflexivity |].
    intros g'. rewrite getOrCreateTag_cases, Hsel. reflexivity.
Qed.

(** X13: [getOrCreateTag], called on its own with a new generated id,
    returns a stored tag of the requested name and category.  Afterwards the
    pair has the rows it had, or one if it had none; no other pair changes;
    and a further call returns the same tag and writes nothing. *)
Theorem getOrCreateTag_sequential (g : Gen) (name : string) (category : TagCategory)
    (db : DB) :
  has_tag db (gen_random_uuid g) = false ->
  exists t db',
    getOrCreateTag g name category db = (Resolved t, db')
    /\ tags.name t = name /\ tags.category t = category
    /\ In t (tbl_tags db')
    /\ rows_of_pair name category db' = Nat.max 1 (rows_of_pair name category db)
    /\ (forall n c, (n, c) <> (name, category) ->
          rows_of_pair n c db' = rows_of_pair n c db)
    /\ (forall g', getOrCreateTag g' name category db' = (Resolved t, db')).
Proof.
  intros Hfresh.
  destruct (@getOrCreateTag_effect g name category db Hfresh)
    as [t [db' [H1 [_ H2]]]].
  exists t, db'. split; [exact H1 | exact H2].
Qed.

Lemma getOrCreateTag_sequential_witness :
  exists t db',
    getOrCreateTag Fixtures.g1 "鳥類" Bunrui Fixtures.db0 = (Resolved t, db')
    /\ tags.name t = "鳥類" /\ tags.category t = Bunrui
    /\ In t (tbl_tags db')
    /\ rows_of_pair "鳥類" Bunrui db' = Nat.max 1 (rows_of_pair "鳥類" Bunrui Fixtures.db0)
    /\ (forall n c, (n, c) <> ("鳥類", Bunrui) ->
          rows_of_pair n c db' = rows_of_pair n c Fixtures.db0)
    /\ (forall g', getOrCreateTag g' "鳥類" Bunrui db' = (Resolved t, db')).
Proof.
  apply (@getOrCreateTag_sequential Fixtures.g1 "鳥類" Bunrui Fixtures.db0).
  reflexivity.
Defined.

Lemma default_pair_dec (p q : string * TagCategory) : {p = q} + {p <> q}.
Proof.
  destruct p as [n c], q as [n' c'].
  destruct (string_dec n n') as [-> | Hn]; [| right; congruence].
  destruct c, c'; try (left; reflexivity); right; congruence.
Qed.

Lemma getOrCreateTags_effect (gens : nat -> Gen) (l : list (string * TagCategory)) :
  forall i db,
    (forall j, i <= j -> has_tag db (gen_random_uuid (gens j)) = false) ->
    (forall j k, i <= j -> i <= k -> j <> k ->
       gen_random_uuid (gens j) <> gen_random_uuid (gens k)) ->
    exists db',
      getOrCreateTags gens i l db = (Resolved tt, db')
      /\ set_tags (tbl_tags db') db = db'
      /\ (forall n c, In (n, c) l ->
            rows_of_pair n c db' = Nat.max 1 (rows_of_pair n c db))
      /\ (forall n c, ~ In (n, c) l -> rows_of_pair n c db' = rows_of_pair n c db).
Proof.
  induction l as [|[n0 c0] rest IH]; intros i db Hfresh Hinj.
  - exists db. split; [reflexivity |]. split; [destruct db; reflexivity |].
    split; [intros ? ? [] | reflexivity].
  - destruct (getOrCreateTag_effect (gens i) n0 c0 db (Hfresh i (le_n i)))
      as [t [db1 [Hrun [Hdb1 [_ [_ [_ [Hown [Hother _]]]]]]]]].
    assert (Hfresh1 : forall j, S i <= j ->
               has_tag db1 (gen_random_uuid (gens j)) = false).
    { intros j Hj. destruct Hdb1 as [-> | [-> Eid]]; [apply Hfresh; lia |].
      apply not_true_iff_false. intros H. apply has_tag_In in H.
      cbn [tbl_tags set_tags] in H. rewrite map_app in H.
      apply in_app_or in H as [H | [H | []]].
      - apply has_tag_In in H. rewrite Hfresh in H by lia. discriminate.
      - rewrite Eid in H. apply (Hinj i j); [lia | lia | lia | exact H]. }
    assert (Hinj1 : forall j k, S i <= j -> S i <= k -> j <> k ->
               gen_random_uuid (gens j) <> gen_random_uuid (gens k))
      by (intros j k Hj Hk; apply Hinj; lia).
    destruct (IH (S i) db1 Hfresh1 Hinj1) as [db' [Hrest [Hframe [Hin Hout]]]].
    exists db'. split; [| split; [| split]].
    + cbn [getOrCreateTags]. unfold await. rewrite Hrun. exact Hrest.
    + rewrite <- Hframe. destruct Hdb1 as [-> | [-> _]]; reflexivity.
    + intros n c Hnc.
      destruct (in_dec default_pair_dec (n, c) rest) as [Hr | Hr].
      * rewrite (Hin n c Hr).
        destruct (default_pair_dec (n, c) (n0, c0)) as [E | E].
        -- inversion E; subst. rewrite Hown. lia.
        -- rewrite (Hother n c E). reflexivity.
      * rewrite (Hout n c Hr). destruct Hnc as [E | Hnc]; [| contradiction].
        inversion E; subst. exact Hown.
    + intros n c Hnc. rewrite Hout by (intros H; apply Hnc; right; exact H).
      apply Hother. intros E. apply Hnc. left. congruence.
Qed.

Lemma getOrCreateTags_present (gens : nat -> Gen) (l : list (string * TagCategory)) :
  forall i db,
    (forall n c, In (n, c) l -> 0 < rows_of_pair n c db) ->
    getOrCreateTags gens i l db = (Resolved tt, db).
Proof.
  induction l as [|[n0 c0] rest IH]; intros i db Hall; [reflexivity |].
  cbn [getOrCreateTags]. unfold await. rewrite getOrCreateTag_cases.
  pose proof (Hall n0 c0 (or_introl eq_refl)) as H0. unfold rows_of_pair in H0.
  destruct (select_tags_name_category n0 c0 db); [simpl in H0; lia |].
  apply IH. intros n c Hnc. apply Hall. right. exact Hnc.
Qed.

(** X14: [initializeDefaultTags], run with new and pairwise distinct
    generated ids, leaves every default tag with the rows it had, or one if
    it had none, changes no other pair and no other table; run again, it
    changes nothing. *)
Theorem initializeDefaultTags_completes (gens : nat -> Gen) (db : DB) :
  (forall j, has_tag db (gen_random_uuid (gens j)) = false) ->
  (forall j k, j <> k -> gen_random_uuid (gens j) <> gen_random_uuid (gens k)) ->
  (forall n c, In (n, c) defaultTags ->
     rows_of_pair n c (initializeDefaultTags gens db)
     = Nat.max 1 (rows_of_pair n c db))
  /\ (forall n c, ~ In (n, c) defaultTags ->
        rows_of_pair n c (initializeDefaultTags gens db) = rows_of_pair n c db)
  /\ set_tags (tbl_tags (initializeDefaultTags gens db)) db
     = initializeDefaultTags gens db
  /\ (forall gens',
        initializeDefaultTags gens' (initializeDefaultTags gens db)
        = initializeDefaultTags gens db).
Proof.
  intros Hfresh Hinj. unfold initializeDefaultTags.
  destruct (@getOrCreateTags_effect gens defaultTags 0 db
              (fun j _ => Hfresh j) (fun j k _ _ => Hinj j k))
    as [db' [Hrun [Hframe [Hin Hout]]]].
  rewrite Hrun. cbn [snd].
  split; [exact Hin | split; [exact Hout | split; [exact Hframe |]]].
  intros gens'. rewrite getOrCreateTags_present; [reflexivity |].
  intros n c Hnc. rewrite (Hin n c Hnc). lia.
Qed.

Lemma initializeDefaultTags_completes_witness :
  rows_of_pair "犬" Bunrui (initializeDefaultTags Stores.gens Fixtures.db0)
  = Nat.max 1 (rows_of_pair "犬" Bunrui Fixtures.db0)
  /\ rows_of_pair "しっぽ" Parts (initializeDefaultTags Stores.gens Fixtures.db0) = 1
  /\ List.length (tbl_tags (initializeDefaultTags Stores.gens Fixtures.db0)) = 22.
Proof.
  assert (Hfresh : forall j,
             has_tag Fixtures.db0 (gen_random_uuid (Stores.gens j)) = false).
  { intros j. apply not_true_iff_false. intros H. apply has_tag_In in H.
    simpl in H. destruct H as [H | [H | [H | []]]]; inversion H. }
  assert (Hlen : forall n, String.length (Stores.tally n) = n)
    by (induction n; simpl; congruence).
  assert (Hinj : forall j k, j <> k ->
             gen_random_uuid (Stores.gens j) <> gen_random_uuid (Stores.gens k)).
  { intros j k Hjk H. simpl in H. inversion H as [Ht].
    apply Hjk. rewrite <- (Hlen j), <- (Hlen k), Ht. reflexivity. }
  destruct (@initializeDefaultTags_completes Stores.gens Fixtures.db0 Hfresh Hinj)
    as [Hin _].
  split; [apply Hin; simpl; auto |]. split; reflexivity.
Defined.

(** ** Favorites *)

Lemma favorited_by_iff (db : DB) (uid pid : string) :
  favorited_by db uid pid = true
  <-> exists f, In f (tbl_favorites db)
                /\ favorites.userId f = uid /\ favorites.postId f = pid.
Proof.
  unfold favorited_by. rewrite existsb_exists. split.
  - intros [f [Hin H]]. apply andb_true_iff in H as [H1 H2].
    apply String.eqb_eq in H1, H2. eauto.
  - intros [f [Hin [H1 H2]]]. exists f. split; [exact Hin |].
    subst. rewrite !String.eqb_refl. reflexivity.
Qed.

Lemma removeFavorite_stored_id (userId postId : string) (db : DB) :
  exists db',
    removeFavorite userId postId db = (Resolved tt, db')
    /\ favorited_by db' userId postId = false
    /\ (forall f, In f (tbl_favorites db') <->
          In f (tbl_favorites db)
          /\ ~ (favorites.userId f = userId /\ favorites.postId f = postId))
    /\ set_favorites (tbl_favorites db') db = db'
    /\ removeFavorite userId postId db' = (Resolved tt, db')
    /\ (forall g1 g2,
          has_user db userId = true -> has_post db postId = true ->
          favorited_by
            (snd (removeFavorite userId postId
                    (snd (addFavorite g2 userId postId
                            (snd (addFavorite g1 userId postId db))))))
            userId postId = false).
Proof.
  set (keep := fun f : Favorite =>
                 negb (String.eqb (favorites.userId f) userId
                       && String.eqb (favorites.postId f) postId)).
  assert (Hkeep : forall f, keep f = true <->
                    ~ (favorites.userId f = userId /\ favorites.postId f = postId)).
  { intros f. unfold keep. rewrite negb_true_iff, <- not_true_iff_false,
      andb_true_iff, !String.eqb_eq. reflexivity. }
  assert (Hgone : forall l, existsb (fun f => String.eqb (favorites.postId f) postId
                                              && String.eqb (favorites.userId f) userId)
                              (filter keep l) = false).
  { intros l. apply not_true_iff_false. intros H.
    apply existsb_exists in H as [f [Hf Hm]]. apply filter_In in Hf as [_ Hk].
    apply Hkeep in Hk. apply andb_true_iff in Hm as [H1 H2].
    apply String.eqb_eq in H1, H2. auto. }
  eexists. split; [reflexivity |]. cbn [tbl_favorites set_favorites].
  split; [apply Hgone |]. split; [| split; [reflexivity | split]].
  - intros f. split.
    + intros Hf. apply filter_In in Hf as [Hin Hk].
      split; [exact Hin | apply Hkeep, Hk].
    + intros [Hin Hn]. apply filter_In. split; [exact Hin |].
      exact (proj2 (Hkeep f) Hn).
  - unfold removeFavorite. cbn [tbl_favorites set_favorites].
    f_equal. unfold set_favorites. cbn. f_equal.
    apply filter_all. intros f Hf. apply filter_In in Hf as [_ Hk]. exact Hk.
  - intros g1 g2 Hu Hp.
    unfold removeFavorite, favorited_by. cbn [snd tbl_favorites set_favorites].
    apply Hgone.
Qed.

(** X15: [DELETE /api/favorites/:postId] reads the path parameter as a
    uuid.  When it reads as the uuid [u] the answer is [{ success: true }]:
    every favorite row of the pair is removed, also the repeated rows that
    several [addFavorite] calls leave, every other row and every other table
    is kept, and a second request changes nothing.  When the text is not uuid
    syntax the answer has status 500 and nothing is written. *)
Theorem delete_api_favorites_postId_removes_pair (userId postId : string) (db : DB) :
  match uuid_in postId with
  | Some u =>
      exists db',
        delete_api_favorites_postId userId postId db = (reply_success, db')
        /\ favorited_by db' userId u = false
        /\ (forall f, In f (tbl_favorites db') <->
              In f (tbl_favorites db)
              /\ ~ (favorites.userId f = userId /\ favorites.postId f = u))
        /\ set_favorites (tbl_favorites db') db = db'
        /\ delete_api_favorites_postId userId postId db' = (reply_success, db')
        /\ (forall g1 g2,
              has_user db userId = true -> has_post db u = true ->
              favorited_by
                (snd (delete_api_favorites_postId userId postId
                        (snd (addFavorite g2 userId u
                                (snd (addFavorite g1 userId u db))))))
                userId u = false)
  | None =>
      delete_api_favorites_postId userId postId db
      = (reply_message 500 "Failed to remove favorite", db)
  end.
Proof.
  unfold delete_api_favorites_postId, as_uuid.
  destruct (uuid_in postId) as [u|]; [| reflexivity].
  destruct (removeFavorite_stored_id userId u db) as [db' [E [H1 [H2 [H3 [H4 H5]]]]]].
  exists db'. rewrite E. conjs; try assumption.
  - reflexivity.
  - rewrite H4. reflexivity.
Qed.

Lemma delete_api_favorites_postId_removes_pair_witness :
  (exists db',
      delete_api_favorites_postId "bob" "{11111111111141118111-111111111111}" Canonical.db
      = (reply_success, db')
      /\ tbl_favorites db' = [])
  /\ delete_api_favorites_postId "bob" "p1" Canonical.db
     = (reply_message 500 "Failed to remove favorite", Canonical.db).
Proof.
  split.
  - pose proof (delete_api_favorites_postId_removes_pair "bob"
                  "{11111111111141118111-111111111111}" Canonical.db) as H.
    change (uuid_in "{11111111111141118111-111111111111}")
      with (Some Canonical.id_p1) in H.
    destruct H as [db' [E _]]. exists db'. split; [exact E |].
    vm_compute in E. inversion E. reflexivity.
  - exact (delete_api_favorites_postId_removes_pair "bob" "p1" Canonical.db).
Defined.

Lemma removeFavorite_removes_pair_facts (userId postId : string) (db : DB) :
  favorited_by (snd (removeFavorite userId postId db)) userId postId = false
  /\ tbl_posts (snd (removeFavorite userId postId db)) = tbl_posts db.
Proof.
  split; [| reflexivity].
  unfold removeFavorite, favorited_by. cbn [snd tbl_favorites set_favorites].
  apply not_true_iff_false. intros H.
  apply existsb_exists in H as [f [Hf Hm]]. apply filter_In in Hf as [_ Hk].
  apply andb_true_iff in Hm as [H1 H2]. rewrite H1, H2 in Hk. discriminate.
Qed.

(** X16: the favorite flag follows the favorite rows.  For a stored user
    with a non-empty id and a stored post, [getPost] for that viewer reports
    [isFavorited = true] after [addFavorite] and [false] after a following
    [removeFavorite]. *)
Theorem favorite_round_trip (g : Gen) (userId postId : string) (db : DB) :
  userId <> "" ->
  has_user db userId = true -> has_post db postId = true ->
  (exists r, getPost postId (Some userId) (snd (addFavorite g userId postId db)) = Some r
             /\ PostWithTags.isFavorited r = true)
  /\ (exists r, getPost postId (Some userId)
                  (snd (removeFavorite userId postId
                          (snd (addFavorite g userId postId db)))) = Some r
                /\ PostWithTags.isFavorited r = false).
Proof.
  intros Hne Hu Hp.
  assert (Htruthy : truthy (Some userId) = true).
  { unfold truthy. apply String.eqb_neq in Hne. rewrite Hne. reflexivity. }
  rewrite (addFavorite_appends g _ _ _ Hu Hp). cbn [snd].
  set (f := {| favorites.userId := userId; favorites.postId := postId;
               favorites.createdAt := Some (now g) |}).
  set (db1 := set_favorites (tbl_favorites db ++ [f]) db).
  assert (Hfound : forall d, tbl_posts d = tbl_posts db ->
             exists r, getPost postId (Some userId) d = Some r
                       /\ PostWithTags.isFavorited r
                          = viewer_favorited d (Some userId) postId).
  { intros d Hd.
    destruct (getPost postId (Some userId) d) as [r|] eqn:E.
    - exists r. split; [reflexivity |].
      apply (@getPost_Some_facts postId (Some userId) d r E).
    - apply getPost_None_iff in E. unfold has_post in E, Hp.
      rewrite Hd in E. congruence. }
  split.
  - destruct (Hfound db1 eq_refl) as [r [E Hf]]. exists r. split; [exact E |].
    rewrite Hf. unfold viewer_favorited. rewrite Htruthy. simpl.
    apply favorited_by_iff. exists f. split; [| auto].
    unfold db1. cbn [tbl_favorites set_favorites]. apply in_or_app. simpl. auto.
  - destruct (removeFavorite_removes_pair_facts userId postId db1) as [Hgone Hposts].
    destruct (Hfound (snd (removeFavorite userId postId db1)) Hposts) as [r [E Hf]].
    exists r. split; [exact E |].
    rewrite Hf. unfold viewer_favorited. rewrite Htruthy, Hgone. reflexivity.
Qed.

Lemma favorite_round_trip_witness :
  (exists r, getPost "p2" (Some "alice")
               (snd (addFavorite Fixtures.g1 "alice" "p2" Fixtures.db0)) = Some r
             /\ PostWithTags.isFavorited r = true)
  /\ (exists r, getPost "p2" (Some "alice")
                  (snd (removeFavorite "alice" "p2"
                          (snd (addFavorite Fixtures.g1 "alice" "p2" Fixtures.db0))))
                = Some r
                /\ PostWithTags.isFavorited r = false).
Proof.
  apply (@favorite_round_trip Fixtures.g1 "alice" "p2" Fixtures.db0);
    [discriminate | reflexivity | reflexivity].
Defined.

(** ** Exclusions *)

Lemma taken_all (table : list UserExcludeTag) (rows acc : list UserExcludeTag) :
  fold_left
    (fun acc r => if conflicts userExcludeTags_unique r (table ++ acc)
                  then acc else acc ++ [r]) rows acc
  = acc ++ rows.
Proof.
  unfold userExcludeTags_unique.
  revert acc. induction rows as [|r rows IH]; intros acc; cbn [fold_left].
  - rewrite app_nil_r. reflexivity.
  - rewrite conflicts_nil, IH, <- app_assoc. reflexivity.
Qed.

Lemma insert_userExcludeTags_cases (g : Gen) (rows : list (string * string)) (db : DB) :
  insert_userExcludeTags_onConflictDoNothing g rows db =
  if forallb (fun ut => has_user db (fst ut) && has_tag db (snd ut)) rows
  then (Resolved tt,
        set_userExcludeTags
          (tbl_userExcludeTags db
             ++ map (fun ut => {| userExcludeTags.userId := fst ut;
                                  userExcludeTags.tagId := snd ut;
                                  userExcludeTags.createdAt := Some (now g) |}) rows)
          db)
  else (Rejected foreign_key_violation, db).
Proof.
  unfold insert_userExcludeTags_onConflictDoNothing. rewrite taken_all.
  cbn [app].
  assert (Hf : forall l : list (string * string),
             forallb (fun r => has_user db (userExcludeTags.userId r)
                               && has_tag db (userExcludeTags.tagId r))
               (map (fun ut => {| userExcludeTags.userId := fst ut;
                                  userExcludeTags.tagId := snd ut;
                                  userExcludeTags.createdAt := Some (now g) |}) l)
             = forallb (fun ut => has_user db (fst ut) && has_tag db (snd ut)) l).
  { induction l as [|x l IH]; simpl; [reflexivity | rewrite IH; reflexivity]. }
  rewrite Hf. reflexivity.
Qed.

Lemma excludedTagIds_app (uid : string) (db db' : DB) (rows : list UserExcludeTag) :
  tbl_userExcludeTags db' = tbl_userExcludeTags db ++ rows ->
  excludedTagIds uid db'
  = excludedTagIds uid db
    ++ map userExcludeTags.tagId
         (filter (fun e => String.eqb (userExcludeTags.userId e) uid) rows).
Proof.
  intros E. unfold excludedTagIds. rewrite E, filter_app, map_app. reflexivity.
Qed.

Lemma excludedTagIds_own_rows (g : Gen) (uid u : string) (tagIds : list string) :
  map userExcludeTags.tagId
    (filter (fun e => String.eqb (userExcludeTags.userId e) uid)
       (map (fun ut => {| userExcludeTags.userId := fst ut;
                          userExcludeTags.tagId := snd ut;
                          userExcludeTags.createdAt := Some (now g) |})
          (map (fun tagId => (u, tagId)) tagIds)))
  = if String.eqb u uid then tagIds else [].
Proof.
  induction tagIds as [|t l IH]; simpl; [destruct (String.eqb u uid); reflexivity |].
  destruct (String.eqb u uid); simpl; rewrite IH; reflexivity.
Qed.

Lemma rows_of_other_user (u userId : string) (l : list UserExcludeTag) :
  u <> userId ->
  filter (fun e => String.eqb (userExcludeTags.userId e) u)
    (filter (fun e => negb (String.eqb (userExcludeTags.userId e) userId)) l)
  = filter (fun e => String.eqb (userExcludeTags.userId e) u) l.
Proof.
  intros Hu. induction l as [|e l IH]; [reflexivity |].
  simpl. destruct (String.eqb_spec (userExcludeTags.userId e) userId) as [E | E]; simpl.
  - assert (Hne : String.eqb (userExcludeTags.userId e) u = false)
      by (apply String.eqb_neq; congruence).
    rewrite Hne. exact IH.
  - destruct (String.eqb (userExcludeTags.userId e) u); [f_equal |]; exact IH.
Qed.

Lemma forallb_own_rows (db : DB) (userId : string) (tagIds : list string) :
  forallb (fun ut => has_user db (fst ut) && has_tag db (snd ut))
    (map (fun tagId => (userId, tagId)) tagIds)
  = match tagIds with
    | [] => true
    | _ :: _ => has_user db userId && forallb (has_tag db) tagIds
    end.
Proof.
  induction tagIds as [|x l IH]; [reflexivity |].
  cbn [map forallb fst snd]. rewrite IH.
  destruct l as [|y l]; destruct (has_user db userId); simpl;
    rewrite ?andb_true_r; reflexivity.
Qed.

Lemma setUserExcludeTags_cases (g : Gen) (userId : string) (tagIds : list string)
    (db : DB) :
  setUserExcludeTags g userId tagIds db =
  let cleared :=
    set_userExcludeTags
      (filter (fun e => negb (String.eqb (userExcludeTags.userId e) userId))
         (tbl_userExcludeTags db)) db in
  match tagIds with
  | [] => (Resolved tt, cleared)
  | _ :: _ =>
      if has_user db userId && forallb (has_tag db) tagIds
      then (Resolved tt,
            set_userExcludeTags
              (tbl_userExcludeTags cleared
                 ++ map (fun ut => {| userExcludeTags.userId := fst ut;
                                      userExcludeTags.tagId := snd ut;
                                      userExcludeTags.createdAt := Some (now g) |})
                      (map (fun tagId => (userId, tagId)) tagIds))
              cleared)
      else (Rejected foreign_key_violation, db)
  end.
Proof.
  unfold setUserExcludeTags, transaction, await, delete_userExcludeTags_of.
  destruct tagIds as [|t l]; [reflexivity |].
  change (Nat.ltb 0 (List.length (t :: l))) with true. cbv iota.
  rewrite insert_userExcludeTags_cases.
  set (cleared := set_userExcludeTags _ db).
  pose proof (forallb_own_rows cleared userId (t :: l)) as Hf.
  change (has_user cleared) with (has_user db) in Hf.
  change (has_tag cleared) with (has_tag db) in Hf.
  change (has_user cleared) with (has_user db).
  change (has_tag cleared) with (has_tag db).
  rewrite Hf. cbv zeta.
  destruct (has_user db userId && forallb (has_tag db) (t :: l)); reflexivity.
Qed.



Lemma addExcludeTag_cases (g : Gen) (userId tagId : string) (db : DB) :
  addExcludeTag g userId tagId db =
  if has_user db userId && has_tag db tagId
  then (Resolved tt,
        set_userExcludeTags
          (tbl_userExcludeTags db
             ++ [{| userExcludeTags.userId := userId; userExcludeTags.tagId := tagId;
                    userExcludeTags.createdAt := Some (now g) |}]) db)
  else (Rejected foreign_key_violation, db).
Proof.
  unfold addExcludeTag. rewrite insert_userExcludeTags_cases. simpl.
  rewrite andb_true_r. reflexivity.
Qed.



(** X19: [getUserExcludeTags] lists exactly the stored tags whose id is
    among the user's excluded tag ids. *)
Theorem getUserExcludeTags_iff (userId : string) (db : DB) (t : Tag) :
  In t (getUserExcludeTags userId db)
  <-> In t (tbl_tags db) /\ In (tags.id t) (excludedTagIds userId db).
Proof.
  unfold getUserExcludeTags, filter_Boolean, excludedTagIds.
  rewrite in_flat_map. split.
  - intros [[t'|] [Hin Ht]]; [| contradiction].
    destruct Ht as [<- | []].
    apply in_map_iff in Hin as [[e o] [Eo Hrow]]. simpl in Eo. subst o.
    apply filter_In in Hrow as [Hrow Hu]. simpl in Hu. apply String.eqb_eq in Hu.
    apply leftJoin_sound in Hrow as [[e0 o0] [H0 [E | [b [Hb [Hon E]]]]]];
      simpl in E; inversion E; subst.
    apply in_map_iff in H0 as [e1 [E1 He1]]. inversion E1; subst.
    simpl in Hon. apply String.eqb_eq in Hon.
    split; [exact Hb |]. apply in_map_iff. exists e0. split; [exact Hon |].
    apply filter_In. split; [exact He1 | apply String.eqb_eq; reflexivity].
  - intros [Ht Hid]. apply in_map_iff in Hid as [e [Eid He]].
    apply filter_In in He as [He Hu].
    exists (Some t). split; [| simpl; auto].
    apply in_map_iff. exists (e, Some t). split; [reflexivity |].
    apply filter_In. split; [| exact Hu].
    apply (@leftJoin_match _ _ (map (fun e => (e, @None Tag)) (tbl_userExcludeTags db))
             (tbl_tags db)
             (fun r t => String.eqb (userExcludeTags.tagId (fst r)) (tags.id t))
             (fun r t => (fst r, t)) (e, None) t).
    + apply in_map_iff. eauto.
    + exact Ht.
    + simpl. rewrite Eid. apply String.eqb_refl.
Qed.

(** X20: [removeExcludeTag] reads [tagId] as a uuid.  When it reads as
    the uuid [u], the call resolves: it takes [u] out of the user's excluded
    tag ids, every occurrence of it, keeps the user's other exclusions in
    order, and changes nobody else's exclusions and no other table.  When
    [tagId] is not uuid syntax, the call is rejected and nothing is written. *)
Theorem removeExcludeTag_removes (userId tagId : string) (db : DB) :
  match uuid_in tagId with
  | Some u =>
      exists db',
        removeExcludeTag userId tagId db = (Resolved tt, db')
        /\ excludedTagIds userId db'
           = filter (fun x => negb (String.eqb x u)) (excludedTagIds userId db)
        /\ (forall v, v <> userId -> excludedTagIds v db' = excludedTagIds v db)
        /\ set_userExcludeTags (tbl_userExcludeTags db') db = db'
  | None =>
      removeExcludeTag userId tagId db = (Rejected invalid_text_representation, db)
  end.
Proof.
  unfold removeExcludeTag, as_uuid. destruct (uuid_in tagId) as [u|]; [| reflexivity].
  eexists. split; [reflexivity |].
  unfold excludedTagIds. cbn [tbl_userExcludeTags set_userExcludeTags].
  split; [| split; [| reflexivity]].
  - induction (tbl_userExcludeTags db) as [|e l IH]; [reflexivity |].
    simpl. destruct (String.eqb (userExcludeTags.userId e) userId) eqn:Eu; simpl.
    + destruct (String.eqb (userExcludeTags.tagId e) u) eqn:Et; simpl.
      * exact IH.
      * rewrite Eu. simpl. f_equal. exact IH.
    + rewrite Eu. exact IH.
  - intros v Hv. f_equal.
    induction (tbl_userExcludeTags db) as [|e l IH]; [reflexivity |].
    simpl. destruct (String.eqb_spec (userExcludeTags.userId e) userId) as [E | E]; simpl.
    + assert (Hne : String.eqb (userExcludeTags.userId e) v = false)
        by (apply String.eqb_neq; congruence).
      destruct (String.eqb (userExcludeTags.tagId e) u); simpl; rewrite ?Hne; exact IH.
    + destruct (String.eqb (userExcludeTags.userId e) v); [f_equal |]; exact IH.
Qed.

Lemma removeExcludeTag_removes_witness :
  (exists db',
      removeExcludeTag "alice" "{BBBBBBBB-BBBB-4BBB-8BBB-BBBBBBBBBBBB}" Canonical.db
      = (Resolved tt, db')
      /\ excludedTagIds "alice" db' = [])
  /\ removeExcludeTag "alice" "t-cat" Canonical.db
     = (Rejected invalid_text_representation, Canonical.db).
Proof.
  split.
  - pose proof (removeExcludeTag_removes "alice" "{BBBBBBBB-BBBB-4BBB-8BBB-BBBBBBBBBBBB}"
                  Canonical.db) as H.
    change (uuid_in "{BBBBBBBB-BBBB-4BBB-8BBB-BBBBBBBBBBBB}")
      with (Some Canonical.id_cat) in H.
    destruct H as [db' [E [Hx _]]]. exists db'. split; [exact E |].
    rewrite Hx. reflexivity.
  - exact (removeExcludeTag_removes "alice" "t-cat" Canonical.db).
Defined.

(** ** Users *)

Lemma only_row_of_id (l : list User) (x : User) :
  NoDup (map users.id l) -> In x l ->
  filter (fun u => String.eqb (users.id u) (users.id x)) l = [x].
Proof.
  induction l as [|y l IH]; simpl; [contradiction |].
  intros Hnd Hin. inversion Hnd as [|? ? Hy Hl]; subst.
  destruct Hin as [-> | Hin].
  - rewrite String.eqb_refl. f_equal. apply filter_none.
    apply not_true_iff_false. intros H. apply existsb_exists in H as [z [Hz E]].
    apply String.eqb_eq in E. apply Hy. rewrite <- E. apply in_map, Hz.
  - destruct (String.eqb_spec (users.id y) (users.id x)) as [E | E].
    + exfalso. apply Hy. rewrite E. apply in_map, Hin.
    + apply IH; assumption.
Qed.

Lemma first_of_id (l : list User) (id : string) :
  NoDup (map users.id l) ->
  (forall u, match filter (fun v : User => String.eqb (users.id v) id) l with
             | user :: _ => Some user
             | [] => None
             end = Some u <-> In u l /\ users.id u = id)
  /\ (match filter (fun v : User => String.eqb (users.id v) id) l with
      | user :: _ => Some user
      | [] => None
      end = None <-> existsb (fun v : User => String.eqb (users.id v) id) l = false).
Proof.
  intros Hnd. split.
  - intros u. split.
    + destruct (filter (fun v : User => String.eqb (users.id v) id) l)
        as [|v rest] eqn:E; intros H; [discriminate H |].
      inversion H; subst v.
      assert (Hin : In u (filter (fun v : User => String.eqb (users.id v) id) l))
        by (rewrite E; left; reflexivity).
      apply filter_In in Hin as [Hin Hid]. apply String.eqb_eq in Hid. auto.
    + intros [Hu <-].
      match goal with
      | |- match ?sel with _ :: _ => _ | [] => _ end = _ =>
          replace sel with [u]
            by (symmetry; exact (@only_row_of_id l u Hnd Hu))
      end.
      reflexivity.
  - pose proof (@nonempty_filter_existsb _
                  (fun v : User => String.eqb (users.id v) id) l) as Hne.
    destruct (filter (fun v : User => String.eqb (users.id v) id) l);
      simpl in Hne; rewrite <- Hne; unfold Nat.ltb; simpl; split; congruence.
Qed.

(** X21: with [users.id] a primary key, [getUser(id)] returns the stored
    user of that id, and [undefined] exactly when there is none. *)
Theorem getUser_lookup (id : string) (db : DB) :
  NoDup (map users.id (tbl_users db)) ->
  (forall u, getUser id db = Some u <-> In u (tbl_users db) /\ users.id u = id)
  /\ (getUser id db = None <-> has_user db id = false).
Proof.
  intros Hnd. exact (@first_of_id (tbl_users db) id Hnd).
Qed.

Lemma getUser_lookup_witness :
  (forall u, getUser "bob" Fixtures.db0 = Some u
             <-> In u (tbl_users Fixtures.db0) /\ users.id u = "bob")
  /\ (getUser "bob" Fixtures.db0 = None <-> has_user Fixtures.db0 "bob" = false).
Proof.
  apply (getUser_lookup "bob" Fixtures.db0).
  simpl. repeat constructor; simpl; intuition discriminate.
Defined.

Lemma same_email_iff (e : option string) (u : User) :
  same_email e u = true <-> e <> None /\ users.email u = e.
Proof.
  unfold same_email. destruct e as [x|], (users.email u) as [y|]; split;
    try (intros H; discriminate H); try (intros [H1 H2]; congruence).
  - intros H. apply String.eqb_eq in H. subst. split; [discriminate | reflexivity].
  - intros [_ H]. inversion H. apply String.eqb_refl.
Qed.

Lemma only_row_where {A} (p : A -> bool) (l : list A) (v : A) :
  NoDup l -> In v l -> p v = true ->
  (forall x, In x l -> p x = true -> x = v) ->
  filter p l = [v].
Proof.
  induction l as [|y l IH]; simpl; [contradiction |].
  intros Hnd Hin Hv Hall. inversion Hnd as [|? ? Hy Hl]; subst.
  destruct Hin as [-> | Hin].
  - rewrite Hv. f_equal. apply filter_none.
    apply not_true_iff_false. intros H. apply existsb_exists in H as [z [Hz E]].
    apply Hy. rewrite <- (Hall z (or_intror Hz) E). exact Hz.
  - destruct (p y) eqn:Ey.
    + exfalso. apply Hy. rewrite (Hall y (or_introl eq_refl) Ey). exact Hin.
    + apply IH; auto.
Qed.

Lemma upsert_set_id (jsNow : timestamp) (ud : UpsertUser) (e : option string) (x : User) :
  users.id (if same_email e x then upsert_set jsNow ud x else x) = users.id x
  /\ users.email (if same_email e x then upsert_set jsNow ud x else x) = users.email x.
Proof. destruct (same_email e x); split; reflexivity. Qed.

Lemma keys_ok_users (db : DB) (l : list User) :
  keys_ok db ->
  NoDup (map users.id l) ->
  (forall u v, In u l -> In v l ->
     users.email u <> None -> users.email u = users.email v -> u = v) ->
  keys_ok (set_users l db).
Proof.
  intros [_ [Ht [Hp _]]] Hid Hem. repeat split; assumption.
Qed.

Lemma upsertUser_updates (g : Gen) (jsNow : timestamp) (ud : UpsertUser)
    (db : DB) (v : User) :
  keys_ok db -> In v (tbl_users db) ->
  same_email (users.email (upsert_values g ud)) v = true ->
  let db' := set_users (map (fun x => if same_email (users.email (upsert_values g ud)) x
                                      then upsert_set jsNow ud x else x)
                          (tbl_users db)) db in
  upsertUser g jsNow ud db = (Resolved (upsert_set jsNow ud v), db')
  /\ In (upsert_set jsNow ud v) (tbl_users db')
  /\ map users.id (tbl_users db') = map users.id (tbl_users db)
  /\ map users.email (tbl_users db') = map users.email (tbl_users db)
  /\ (forall x, In x (tbl_users db) -> users.id x <> users.id v -> In x (tbl_users db'))
  /\ keys_ok db'.
Proof.
  intros Hk Hv Hsame db'.
  set (e := users.email (upsert_values g ud)) in *.
  assert (Hone : filter (same_email e) (tbl_users db) = [v]).
  { destruct Hk as [Hid [_ [_ Hem]]].
    apply only_row_where; auto.
    - apply (NoDup_map_inv users.id). exact Hid.
    - intros x Hx Ex. apply same_email_iff in Ex as [Hne Ex].
      apply same_email_iff in Hsame as [_ Ev].
      apply Hem; auto; congruence. }
  assert (Hids : map users.id (tbl_users db') = map users.id (tbl_users db)).
  { unfold db'. cbn [tbl_users set_users]. rewrite map_map. apply map_ext.
    intros x. apply upsert_set_id. }
  assert (Hems : map users.email (tbl_users db') = map users.email (tbl_users db)).
  { unfold db'. cbn [tbl_users set_users]. rewrite map_map. apply map_ext.
    intros x. apply upsert_set_id. }
  split; [| split; [| split; [| split; [| split]]]].
  - unfold upsertUser. cbv zeta. fold e.
    match goal with
    | |- match ?sel with _ :: _ => _ | [] => _ end = _ => replace sel with [v]
    end.
    reflexivity.
  - unfold db'. cbn [tbl_users set_users]. apply in_map_iff. exists v.
    rewrite Hsame. auto.
  - exact Hids.
  - exact Hems.
  - intros x Hx Hne. unfold db'. cbn [tbl_users set_users]. apply in_map_iff.
    exists x. split; [| exact Hx].
    destruct (same_email e x) eqn:Ex; [| reflexivity].
    exfalso. apply Hne. f_equal.
    assert (Hin : In x (filter (same_email e) (tbl_users db)))
      by (apply filter_In; auto).
    rewrite Hone in Hin. destruct Hin as [<- | []]. reflexivity.
  - apply keys_ok_users; [exact Hk | |].
    + change (NoDup (map users.id (tbl_users db'))). rewrite Hids. apply Hk.
    + intros a b Ha Hb Hne Hab.
      apply in_map_iff in Ha as [x [<- Hx]]. apply in_map_iff in Hb as [y [<- Hy]].
      destruct (upsert_set_id jsNow ud e x) as [_ Ex].
      destruct (upsert_set_id jsNow ud e y) as [_ Ey].
      cbv beta in Hne, Hab.
      assert (Hne' : users.email x <> None)
        by (intros E; apply Hne; exact (eq_trans Ex E)).
      assert (Hab' : users.email x = users.email y)
        by exact (eq_trans (eq_sym Ex) (eq_trans Hab Ey)).
      destruct Hk as [_ [_ [_ Hem]]].
      rewrite (Hem x y Hx Hy Hne' Hab'). reflexivity.
Qed.

Lemma upsertUser_inserts (g : Gen) (jsNow : timestamp) (ud : UpsertUser) (db : DB) :
  keys_ok db ->
  (forall v, In v (tbl_users db) ->
     same_email (users.email (upsert_values g ud)) v = false) ->
  upsertUser g jsNow ud db
  = (if has_user db (users.id (upsert_values g ud))
     then (Rejected unique_violation, db)
     else (Resolved (upsert_values g ud),
           set_users (tbl_users db ++ [upsert_values g ud]) db))
  /\ (has_user db (users.id (upsert_values g ud)) = false ->
      keys_ok (set_users (tbl_users db ++ [upsert_values g ud]) db)).
Proof.
  intros Hk Hnone. set (r := upsert_values g ud) in *. split.
  - unfold upsertUser. cbv zeta. fold r.
    match goal with
    | |- match ?sel with _ :: _ => _ | [] => _ end = _ => replace sel with (@nil User)
    end.
    + reflexivity.
    + symmetry. apply filter_none. apply not_true_iff_false. intros H.
      apply existsb_exists in H as [z [Hz E]]. rewrite (Hnone z Hz) in E. discriminate E.
  - intros Hfresh. apply keys_ok_users; [exact Hk | |].
    + rewrite map_app. simpl.
      apply NoDup_app.
      * apply Hk.
      * repeat constructor. intros [].
      * intros a Ha [<- | []].
        assert (E : has_user db (users.id r) = true).
        { unfold has_user. apply existsb_exists.
          apply in_map_iff in Ha as [u [Eu Hu]]. exists u. split; [exact Hu |].
          apply String.eqb_eq. exact Eu. }
        congruence.
    + destruct Hk as [_ [_ [_ Hem]]].
      intros a b Ha Hb Hne Hab.
      apply in_app_iff in Ha as [Ha | [<- | []]];
        apply in_app_iff in Hb as [Hb | [<- | []]].
      * apply Hem; assumption.
      * exfalso. assert (E : same_email (users.email r) a = true)
          by (apply same_email_iff; split; congruence).
        rewrite (Hnone a Ha) in E. discriminate E.
      * exfalso. assert (E : same_email (users.email r) b = true)
          by (apply same_email_iff; split; congruence).
        rewrite (Hnone b Hb) in E. discriminate E.
      * reflexivity.
Qed.

Lemma getUser_stored (db : DB) (u : User) :
  NoDup (map users.id (tbl_users db)) -> In u (tbl_users db) ->
  getUser (users.id u) db = Some u.
Proof.
  intros Hnd Hu. apply (@first_of_id (tbl_users db) (users.id u) Hnd). auto.
Qed.

Lemma upsertUser_spec (g : Gen) (jsNow : timestamp) (ud : UpsertUser) (db : DB) :
  keys_ok db ->
  match upsertUser g jsNow ud db with
  | (Rejected e, db') =>
      e = unique_violation /\ db' = db
      /\ has_user db (users.id (upsert_values g ud)) = true
      /\ (forall v, In v (tbl_users db) ->
            same_email (users.email (upsert_values g ud)) v = false)
  | (Resolved u, db') =>
      keys_ok db' /\ set_users (tbl_users db') db = db'
      /\ In u (tbl_users db') /\ getUser (users.id u) db' = Some u
      /\ ((exists v, In v (tbl_users db)
                     /\ same_email (users.email (upsert_values g ud)) v = true
                     /\ u = upsert_set jsNow ud v
                     /\ map users.id (tbl_users db') = map users.id (tbl_users db)
                     /\ (forall x, In x (tbl_users db) -> users.id x <> users.id v ->
                           In x (tbl_users db')))
          \/ ((forall v, In v (tbl_users db) ->
                 same_email (users.email (upsert_values g ud)) v = false)
              /\ has_user db (users.id (upsert_values g ud)) = false
              /\ u = upsert_values g ud
              /\ tbl_users db' = tbl_users db ++ [u]))
  end.
Proof.
  intros Hk.
  destruct (existsb (same_email (users.email (upsert_values g ud))) (tbl_users db))
    eqn:Hex.
  - apply existsb_exists in Hex as [v [Hv Hsame]].
    destruct (@upsertUser_updates g jsNow ud db v Hk Hv Hsame)
      as [E [Hin [Hids [_ [Hrest Hk']]]]].
    rewrite E. repeat split; try apply Hk'; try assumption.
    + apply getUser_stored; [apply Hk' | exact Hin].
    + left. exists v. repeat split; assumption.
  - assert (Hnone : forall v, In v (tbl_users db) ->
                      same_email (users.email (upsert_values g ud)) v = false).
    { intros v Hv. apply not_true_iff_false. intros E.
      assert (X : existsb (same_email (users.email (upsert_values g ud))) (tbl_users db)
                  = true) by (apply existsb_exists; exists v; auto).
      congruence. }
    destruct (@upsertUser_inserts g jsNow ud db Hk Hnone) as [E Hk'].
    rewrite E.
    destruct (has_user db (users.id (upsert_values g ud))) eqn:Hid.
    + repeat split; assumption.
    + specialize (Hk' eq_refl). repeat split; try apply Hk'.
      * cbn [tbl_users set_users]. apply in_app_iff. right. left. reflexivity.
      * apply getUser_stored; [apply Hk' |].
        cbn [tbl_users set_users]. apply in_app_iff. right. left. reflexivity.
      * right. repeat split; assumption.
Qed.

(** X22: [upsertUser] on a store whose keys hold.  It rejects only when
    no stored row has the email and the id is taken, and then writes nothing.
    Otherwise it resolves to a stored row that [getUser] finds under its id,
    the keys still hold and only [users] changed: a row with the same email
    was updated in place (same id, no row added, every other row kept), or
    the proposed row was appended. *)
Theorem upsertUser_creates_or_updates (g : Gen) (jsNow : timestamp)
    (ud : UpsertUser) (db : DB) :
  keys_ok db ->
  match upsertUser g jsNow ud db with
  | (Rejected e, db') =>
      e = unique_violation /\ db' = db
      /\ has_user db (users.id (upsert_values g ud)) = true
      /\ (forall v, In v (tbl_users db) ->
            same_email (users.email (upsert_values g ud)) v = false)
  | (Resolved u, db') =>
      keys_ok db' /\ set_users (tbl_users db') db = db'
      /\ In u (tbl_users db') /\ getUser (users.id u) db' = Some u
      /\ ((exists v, In v (tbl_users db)
                     /\ same_email (users.email (upsert_values g ud)) v = true
                     /\ u = upsert_set jsNow ud v
                     /\ map users.id (tbl_users db') = map users.id (tbl_users db)
                     /\ (forall x, In x (tbl_users db) -> users.id x <> users.id v ->
                           In x (tbl_users db')))
          \/ ((forall v, In v (tbl_users db) ->
                 same_email (users.email (upsert_values g ud)) v = false)
              /\ has_user db (users.id (upsert_values g ud)) = false
              /\ u = upsert_values g ud
              /\ tbl_users db' = tbl_users db ++ [u]))
  end.
Proof.
  exact (@upsertUser_spec g jsNow ud db).
Qed.

Lemma upsertUser_creates_or_updates_witness :
  keys_ok Stores.db_carol
  /\ exists u db',
       upsertUser Fixtures.g1 300%Z Stores.carol_again Stores.db_carol = (Resolved u, db')
       /\ users.id u = "carol" /\ users.firstName u = Some "Caroline"
       /\ users.lastName u = None /\ users.createdAt u = Some 5%Z
       /\ users.updatedAt u = Some 300%Z
       /\ List.length (tbl_users db') = 1
       /\ keys_ok db' /\ getUser "carol" db' = Some u.
Proof.
  assert (Hk : keys_ok Stores.db_carol).
  { unfold keys_ok. simpl. repeat split; try (repeat constructor; simpl; tauto).
    intros u v [<- | []] [<- | []] _ _. reflexivity. }
  split; [exact Hk |].
  pose proof (@upsertUser_creates_or_updates Fixtures.g1 300%Z Stores.carol_again
                Stores.db_carol Hk) as H.
  destruct (upsertUser Fixtures.g1 300%Z Stores.carol_again Stores.db_carol)
    as [[u | e] db'] eqn:E; vm_compute in E; [| discriminate E].
  inversion E; subst u db'; clear E.
  destruct H as [Hk' [_ [_ [Hget _]]]].
  eexists. eexists. split; [reflexivity |].
  repeat split; try reflexivity; try apply Hk'; try exact Hget.
Defined.

Lemma upsert_of_profile_values (g : Gen) (p : Profile) :
  users.id (upsert_values g (upsert_of_profile p)) = gen_random_uuid g
  /\ users.email (upsert_values g (upsert_of_profile p))
     = Some (first_or_empty (emails p)).
Proof. split; reflexivity. Qed.

Lemma google_verify_twice (g1 g2 : Gen) (t1 t2 : timestamp) (p1 p2 : Profile) (db : DB) :
  keys_ok db -> has_user db (gen_random_uuid g1) = false ->
  first_or_empty (emails p1) = first_or_empty (emails p2) ->
  exists u1 db1 u2 db2,
    google_verify g1 t1 p1 db = (Resolved u1, db1)
    /\ google_verify g2 t2 p2 db1 = (Resolved u2, db2)
    /\ users.id u2 = users.id u1
    /\ users.email u2 = Some (first_or_empty (emails p1))
    /\ users.createdAt u2 = users.createdAt u1
    /\ users.firstName u2
       = Some (or_empty (match name p2 with Some (given, _) => given | None => None end))
    /\ map users.id (tbl_users db2) = map users.id (tbl_users db1)
    /\ getUser (users.id u1) db2 = Some u2
    /\ keys_ok db2.
Proof.
  intros Hk Hfresh Hsame. unfold google_verify.
  pose proof (@upsertUser_spec g1 t1 (upsert_of_profile p1) db Hk) as H1.
  destruct (upsert_of_profile_values g1 p1) as [Hid1 Hem1].
  destruct (upsertUser g1 t1 (upsert_of_profile p1) db) as [[u1 | e] db1].
  2: { destruct H1 as [_ [_ [Hused _]]]. rewrite Hid1 in Hused. congruence. }
  destruct H1 as [Hk1 [_ [Hin1 [_ Hcase]]]].
  assert (Hu1 : users.email u1 = Some (first_or_empty (emails p1))).
  { destruct Hcase as [[v [_ [Hv [-> _]]]] | [_ [_ [-> _]]]].
    - apply same_email_iff in Hv as [_ Hv]. rewrite Hem1 in Hv. exact Hv.
    - exact Hem1. }
  assert (Hmatch : same_email (users.email (upsert_values g2 (upsert_of_profile p2))) u1
                   = true).
  { apply same_email_iff.
    destruct (upsert_of_profile_values g2 p2) as [_ ->]. rewrite Hu1, Hsame.
    split; [discriminate | reflexivity]. }
  destruct (@upsertUser_updates g2 t2 (upsert_of_profile p2) db1 u1 Hk1 Hin1 Hmatch)
    as [E [Hin [Hids [_ [_ Hk2]]]]].
  exists u1, db1. eexists. eexists. split; [reflexivity |].
  split; [exact E |].
  repeat split; try apply Hk2; try assumption.
  apply (@getUser_stored _ (upsert_set t2 (upsert_of_profile p2) u1)); [apply Hk2 | exact Hin].
Qed.

(** X23: the Google verify callback keys the account by the first email of
    the profile, or by the empty string when the profile has none.  On a store
    whose keys hold, a login followed by a login of any profile with the same
    first email (two profiles without email included) resolves both times, to
    the same user id: the second login adds no row, keeps [createdAt], takes
    over the names of the second profile, and [getUser] then returns the
    updated row. *)
Theorem google_verify_same_email_same_account
    (g1 g2 : Gen) (t1 t2 : timestamp) (p1 p2 : Profile) (db : DB) :
  keys_ok db -> has_user db (gen_random_uuid g1) = false ->
  first_or_empty (emails p1) = first_or_empty (emails p2) ->
  exists u1 db1 u2 db2,
    google_verify g1 t1 p1 db = (Resolved u1, db1)
    /\ google_verify g2 t2 p2 db1 = (Resolved u2, db2)
    /\ users.id u2 = users.id u1
    /\ users.email u2 = Some (first_or_empty (emails p1))
    /\ users.createdAt u2 = users.createdAt u1
    /\ users.firstName u2
       = Some (or_empty (match name p2 with Some (given, _) => given | None => None end))
    /\ map users.id (tbl_users db2) = map users.id (tbl_users db1)
    /\ getUser (users.id u1) db2 = Some u2
    /\ keys_ok db2.
Proof.
  exact (@google_verify_twice g1 g2 t1 t2 p1 p2 db).
Qed.

Lemma google_verify_same_email_same_account_witness :
  exists u1 db1 u2 db2,
    google_verify Fixtures.g1 300%Z Stores.anon1 Stores.db_carol = (Resolved u1, db1)
    /\ google_verify Fixtures.g2 301%Z Stores.anon2 db1 = (Resolved u2, db2)
    /\ users.id u2 = users.id u1
    /\ users.email u2 = Some ""
    /\ users.firstName u2 = Some "Ben"
    /\ List.length (tbl_users db2) = 2.
Proof.
  assert (Hk : keys_ok Stores.db_carol).
  { unfold keys_ok. simpl. repeat split; try (repeat constructor; simpl; tauto).
    intros u v [<- | []] [<- | []] _ _. reflexivity. }
  destruct (@google_verify_same_email_same_account Fixtures.g1 Fixtures.g2 300%Z 301%Z
              Stores.anon1 Stores.anon2 Stores.db_carol Hk eq_refl eq_refl)
    as [u1 [db1 [u2 [db2 [E1 [E2 [Hid [Hem [_ [Hfn [Hids _]]]]]]]]]]].
  exists u1, db1, u2, db2. repeat split; try assumption.
  rewrite <- (length_map users.id), Hids, length_map.
  vm_compute in E1. inversion E1. reflexivity.
Defined.

(** ** The favorites of a user *)

Lemma collect_favorites_step_as_collect (m : JsMap PostWithTags.t) (r : FavRow.t) :
  FavRow.isFavorited r = true ->
  collect_favorites_step m r = fold_left collect_step (FavRow_to_Row r) m.
Proof.
  intros _. unfold collect_favorites_step, FavRow_to_Row.
  destruct (FavRow.post r) as [p|]; reflexivity.
Qed.

Lemma collect_favorites_as_collect (rows : list FavRow.t) (m : JsMap PostWithTags.t) :
  (forall r, In r rows -> FavRow.isFavorited r = true) ->
  fold_left collect_favorites_step rows m
  = fold_left collect_step (flat_map FavRow_to_Row rows) m.
Proof.
  revert m. induction rows as [|r rows IH]; intros m Hall; [reflexivity |].
  cbn [fold_left flat_map]. rewrite fold_left_app.
  rewrite <- collect_favorites_step_as_collect by (apply Hall; left; reflexivity).
  apply IH. intros r' Hr'. apply Hall. right. exact Hr'.
Qed.

Lemma favorites_join_sound (db : DB) (j : FavJoinRow) :
  In j (favorites_join db) ->
  In (fj_favorite j) (tbl_favorites db)
  /\ (forall p, fj_post j = Some p ->
        In p (tbl_posts db) /\ posts.id p = favorites.postId (fj_favorite j))
  /\ (forall u, fj_user j = Some u ->
        In u (tbl_users db)
        /\ exists p, fj_post j = Some p /\ users.id u = posts.userId p)
  /\ (forall t, fj_tag j = Some t ->
        In t (tbl_tags db)
        /\ exists p pt, fj_post j = Some p /\ In pt (tbl_postTags db)
                        /\ postTags.postId pt = posts.id p
                        /\ postTags.tagId pt = tags.id t).
Proof.
  unfold favorites_join. cbv zeta. intros H4.
  apply leftJoin_sound in H4 as [j3 [H3 E4]].
  apply leftJoin_sound in H3 as [j2 [H2 E3]].
  apply leftJoin_sound in H2 as [j1 [H1 E2]].
  apply leftJoin_sound in H1 as [j0 [H0 E1]].
  apply in_map_iff in H0 as [f [<- Hf]].
  assert (P1 : fj_favorite j1 = f /\ fj_user j1 = None /\ fj_postTag j1 = None
               /\ fj_tag j1 = None
               /\ forall p, fj_post j1 = Some p ->
                    In p (tbl_posts db) /\ posts.id p = favorites.postId f).
  { destruct E1 as [E | [p [Hp [Hon E]]]]; rewrite E; cbn; conjs; try reflexivity;
      try (intros ? X; discriminate X).
    intros p' X. inversion X; subst p'. split; [exact Hp |].
    apply String.eqb_eq in Hon. cbn in Hon. congruence. }
  destruct P1 as [F1 [U1 [PT1 [T1 Hp1]]]].
  assert (P2 : fj_favorite j2 = f /\ fj_post j2 = fj_post j1 /\ fj_postTag j2 = None
               /\ fj_tag j2 = None
               /\ forall u, fj_user j2 = Some u ->
                    In u (tbl_users db)
                    /\ exists p, fj_post j1 = Some p /\ users.id u = posts.userId p).
  { destruct E2 as [E | [u [Hu [Hon E]]]]; rewrite E; cbn; conjs; try assumption;
      try reflexivity; try (intros ? X; discriminate X).
    intros u' X. inversion X; subst u'. split; [exact Hu |].
    destruct (fj_post j1) as [p|]; [| discriminate Hon].
      exists p. split; [reflexivity |]. apply String.eqb_eq in Hon. congruence. }
  destruct P2 as [F2 [Po2 [PT2 [T2 Hu2]]]].
  assert (P3 : fj_favorite j3 = f /\ fj_post j3 = fj_post j1 /\ fj_user j3 = fj_user j2
               /\ fj_tag j3 = None
               /\ forall pt, fj_postTag j3 = Some pt ->
                    In pt (tbl_postTags db)
                    /\ exists p, fj_post j1 = Some p
                                 /\ postTags.postId pt = posts.id p).
  { destruct E3 as [E | [pt [Hpt [Hon E]]]]; rewrite E; cbn; conjs; try assumption;
      try reflexivity; try (intros ? X; discriminate X).
    intros pt' X. inversion X; subst pt'. split; [exact Hpt |]. rewrite Po2 in Hon.
    destruct (fj_post j1) as [p|]; [| discriminate Hon].
      exists p. split; [reflexivity |]. apply String.eqb_eq in Hon. congruence. }
  destruct P3 as [F3 [Po3 [U3 [T3 Hpt3]]]].
  assert (P4 : fj_favorite j = f /\ fj_post j = fj_post j1 /\ fj_user j = fj_user j2
               /\ forall t, fj_tag j = Some t ->
                    In t (tbl_tags db)
                    /\ exists pt, fj_postTag j3 = Some pt
                                  /\ postTags.tagId pt = tags.id t).
  { destruct E4 as [E | [t [Ht [Hon E]]]]; rewrite E; cbn; conjs; try assumption;
      try reflexivity; try (intros ? X; discriminate X).
    intros t' X. inversion X; subst t'. split; [exact Ht |].
    destruct (fj_postTag j3) as [pt|]; [| discriminate Hon].
      exists pt. split; [reflexivity |]. apply String.eqb_eq in Hon. exact Hon. }
  destruct P4 as [F4 [Po4 [U4 Ht4]]].
  rewrite F4, Po4, U4. split; [exact Hf |]. split; [exact Hp1 |]. split; [exact Hu2 |].
  intros t Ht. destruct (Ht4 t Ht) as [Hin [pt [Ept Etag]]].
  split; [exact Hin |].
  destruct (Hpt3 pt Ept) as [Hpt [p [Ep Epid]]].
  exists p, pt. auto.
Qed.

Lemma getUserFavorites_collect (userId : string) (limit offset : nat) (db : DB) :
  getUserFavorites userId limit offset db
  = collect (flat_map FavRow_to_Row (getUserFavorites_rows userId limit offset db)).
Proof.
  unfold getUserFavorites, collect. f_equal. apply collect_favorites_as_collect.
  unfold getUserFavorites_rows. intros r Hr.
  apply in_map_iff in Hr as [j [<- _]]. reflexivity.
Qed.

Lemma getUserFavorites_row (userId : string) (limit offset : nat) (db : DB)
    (row : Row.t) :
  In row (flat_map FavRow_to_Row (getUserFavorites_rows userId limit offset db)) ->
  exists j, In j (favorites_join db)
            /\ favorites.userId (fj_favorite j) = userId
            /\ fj_post j = Some (Row.post row) /\ fj_user j = Row.user row
            /\ fj_tag j = Row.tag row /\ Row.isFavorited row = true.
Proof.
  intros H. apply in_flat_map in H as [fr [Hfr Hrow]].
  unfold getUserFavorites_rows in Hfr. apply in_map_iff in Hfr as [j [<- Hj]].
  apply In_firstn, In_skipn, orderBy_In, filter_In in Hj as [Hj Hu].
  apply String.eqb_eq in Hu.
  unfold FavRow_to_Row in Hrow. cbn in Hrow.
  destruct (fj_post j) as [p|] eqn:Ep; [| destruct Hrow].
  destruct Hrow as [<- | []]. exists j. cbn. auto 10.
Qed.

Lemma getUserFavorites_sound (userId : string) (limit offset : nat) (db : DB)
    (r : PostWithTags.t) :
  In r (getUserFavorites userId limit offset db) ->
  In (PostWithTags.post r) (tbl_posts db)
  /\ favorited_by db userId (PostWithTags.id r) = true
  /\ PostWithTags.isFavorited r = true
  /\ (forall u, PostWithTags.user r = Some u ->
        In u (tbl_users db) /\ users.id u = posts.userId (PostWithTags.post r))
  /\ (forall t, In t (PostWithTags.tags r) ->
        In t (tbl_tags db) /\ carries db (PostWithTags.id r) (tags.id t) = true)
  /\ NoDup (map tags.id (PostWithTags.tags r)).
Proof.
  rewrite getUserFavorites_collect. intros Hin.
  destruct (collect_entry_from _ _ Hin) as [row [Hrow [Epost [Euser Efav]]]].
  apply getUserFavorites_row in Hrow as [j [Hj [Hu [Ep [Eu [_ Etrue]]]]]].
  destruct (favorites_join_sound _ _ Hj) as [Hf [Hpost [Huser _]]].
  destruct (Hpost _ Ep) as [Hstored Hid].
  conjs.
  - rewrite <- Epost. exact Hstored.
  - apply favorited_by_iff. exists (fj_favorite j). conjs; auto.
    unfold PostWithTags.id. rewrite <- Epost. auto.
  - congruence.
  - intros u Eu'. rewrite <- Euser, <- Eu in Eu'.
    destruct (Huser u Eu') as [Hin' [p [Ep' Eid]]]. split; [exact Hin' |].
    rewrite <- Epost. congruence.
  - intros t Ht. destruct (collect_tag_row _ _ _ Hin Ht) as [row' [Hrow' [Eid' Etag']]].
    apply getUserFavorites_row in Hrow' as [j' [Hj' [_ [Ep' [_ [Et' _]]]]]].
    destruct (favorites_join_sound _ _ Hj') as [_ [_ [_ Htag]]].
    rewrite Etag' in Et'. destruct (Htag t Et') as [Hin' [p [pt [Ep2 [Hpt [E1 E2]]]]]].
    split; [exact Hin' |]. apply carries_iff. exists pt. conjs; auto.
    rewrite <- Eid'. congruence.
  - apply (collect_tags_distinct _ _ Hin).
Qed.

(** X24: every entry [getUserFavorites] returns is a stored post the user
    has a favorite row for, flagged [isFavorited]; its user, when present, is
    the stored owner of the post; its tags are stored tags the post carries,
    no tag id twice; and no post id occurs twice, however many favorite rows
    the pair has.  The user's exclusions are not read. *)
Theorem getUserFavorites_entries (userId : string) (limit offset : nat) (db : DB) :
  NoDup (map PostWithTags.id (getUserFavorites userId limit offset db))
  /\ (forall r, In r (getUserFavorites userId limit offset db) ->
        In (PostWithTags.post r) (tbl_posts db)
        /\ favorited_by db userId (PostWithTags.id r) = true
        /\ PostWithTags.isFavorited r = true
        /\ (forall u, PostWithTags.user r = Some u ->
              In u (tbl_users db) /\ users.id u = posts.userId (PostWithTags.post r))
        /\ (forall t, In t (PostWithTags.tags r) ->
              In t (tbl_tags db) /\ carries db (PostWithTags.id r) (tags.id t) = true)
        /\ NoDup (map tags.id (PostWithTags.tags r)))
  /\ (forall zones,
        getUserFavorites userId limit offset (set_userExcludeTags zones db)
        = getUserFavorites userId limit offset db).
Proof.
  split; [| split].
  - rewrite getUserFavorites_collect. apply collect_ids_NoDup.
  - intros r. apply getUserFavorites_sound.
  - intros zones. reflexivity.
Qed.

Lemma favorites_join_complete (db : DB) (f : Favorite) (p : Post) :
  In f (tbl_favorites db) -> In p (tbl_posts db) ->
  favorites.postId f = posts.id p ->
  (exists j, In j (favorites_join db) /\ fj_favorite j = f /\ fj_post j = Some p)
  /\ (forall pt t, In pt (tbl_postTags db) -> postTags.postId pt = posts.id p ->
        In t (tbl_tags db) -> postTags.tagId pt = tags.id t ->
        exists j, In j (favorites_join db) /\ fj_favorite j = f
                  /\ fj_post j = Some p /\ fj_tag j = Some t).
Proof.
  intros Hf Hp Hid. unfold favorites_join. cbv zeta.
  set (r0 := map _ (tbl_favorites db)).
  set (on1 := fun (j : FavJoinRow) (p : Post) =>
                String.eqb (favorites.postId (fj_favorite j)) (posts.id p)).
  set (put1 := fun (j : FavJoinRow) (p : option Post) =>
                 {| fj_favorite := fj_favorite j; fj_post := p; fj_user := fj_user j;
                    fj_postTag := fj_postTag j; fj_tag := fj_tag j |}).
  set (r1 := leftJoin r0 (tbl_posts db) on1 put1).
  set (j0 := {| fj_favorite := f; fj_post := None; fj_user := None;
                fj_postTag := None; fj_tag := None |}).
  assert (H0 : In j0 r0) by (unfold r0; apply in_map_iff; exists f; auto).
  assert (H1 : In (put1 j0 (Some p)) r1).
  { apply leftJoin_match; auto. unfold on1. cbn. apply String.eqb_eq. exact Hid. }
  match goal with
  | |- context [leftJoin (leftJoin r1 (tbl_users db) ?on ?put)] =>
      set (on2 := on); set (put2 := put); set (r2 := leftJoin r1 (tbl_users db) on2 put2)
  end.
  destruct (@leftJoin_complete _ _ r1 (tbl_users db) on2 put2 _ H1) as [ou H2].
  fold r2 in H2.
  match goal with
  | |- context [leftJoin (leftJoin r2 (tbl_postTags db) ?on ?put)] =>
      set (on3 := on); set (put3 := put);
      set (r3 := leftJoin r2 (tbl_postTags db) on3 put3)
  end.
  match goal with
  | |- context [leftJoin r3 (tbl_tags db) ?on ?put] =>
      set (on4 := on); set (put4 := put)
  end.
  split.
  - destruct (@leftJoin_complete _ _ r2 (tbl_postTags db) on3 put3 _ H2) as [opt H3].
    fold r3 in H3.
    destruct (@leftJoin_complete _ _ r3 (tbl_tags db) on4 put4 _ H3) as [ot H4].
    eexists. split; [exact H4 |]. split; reflexivity.
  - intros pt t Hpt Ept Ht Etag.
    assert (H3 : In (put3 (put2 (put1 j0 (Some p)) ou) (Some pt)) r3).
    { apply leftJoin_match; auto. unfold on3. cbn. apply String.eqb_eq. auto. }
    assert (H4 : In (put4 (put3 (put2 (put1 j0 (Some p)) ou) (Some pt)) (Some t))
                   (leftJoin r3 (tbl_tags db) on4 put4)).
    { apply leftJoin_match; auto. unfold on4. cbn. apply String.eqb_eq. auto. }
    eexists. split; [exact H4 |]. conjs; reflexivity.
Qed.

Lemma getUserFavorites_rows_all (userId : string) (limit : nat) (db : DB)
    (j : FavJoinRow) (p : Post) :
  List.length (filter (fun j => String.eqb (favorites.userId (fj_favorite j)) userId)
                 (favorites_join db)) <= limit ->
  In j (favorites_join db) -> favorites.userId (fj_favorite j) = userId ->
  fj_post j = Some p ->
  In {| Row.post := p; Row.user := fj_user j; Row.tag := fj_tag j;
        Row.isFavorited := true |}
     (flat_map FavRow_to_Row (getUserFavorites_rows userId limit 0 db)).
Proof.
  intros Hlen Hj Hu Ep. apply in_flat_map.
  exists {| FavRow.post := fj_post j; FavRow.user := fj_user j;
            FavRow.tag := fj_tag j; FavRow.isFavorited := true |}.
  split.
  - unfold getUserFavorites_rows.
    apply (in_map (fun j => {| FavRow.post := fj_post j; FavRow.user := fj_user j;
                               FavRow.tag := fj_tag j; FavRow.isFavorited := true |})).
    simpl skipn. rewrite firstn_all2 by (rewrite orderBy_length; exact Hlen).
    apply orderBy_In, filter_In. split; [exact Hj |]. apply String.eqb_eq. exact Hu.
  - unfold FavRow_to_Row. cbn. rewrite Ep. left. reflexivity.
Qed.

Lemma getUserFavorites_all (userId : string) (limit : nat) (db : DB)
    (f : Favorite) (p : Post) :
  List.length (filter (fun j => String.eqb (favorites.userId (fj_favorite j)) userId)
                 (favorites_join db)) <= limit ->
  In f (tbl_favorites db) -> favorites.userId f = userId ->
  In p (tbl_posts db) -> favorites.postId f = posts.id p ->
  exists r, In r (getUserFavorites userId limit 0 db)
            /\ PostWithTags.id r = posts.id p
            /\ (forall t, In t (tbl_tags db) ->
                  carries db (posts.id p) (tags.id t) = true ->
                  In (tags.id t) (map tags.id (PostWithTags.tags r))).
Proof.
  intros Hlen Hf Hu Hp Hid.
  destruct (favorites_join_complete db f p Hf Hp Hid) as [[j [Hj [Ef Ep]]] Htags].
  assert (Hrow := @getUserFavorites_rows_all userId limit db j p Hlen Hj
                    (eq_trans (f_equal favorites.userId Ef) Hu) Ep).
  destruct (collect_row_In _ _ Hrow) as [r [Hr Er]]. cbn in Er.
  exists r. rewrite getUserFavorites_collect. conjs; [exact Hr | exact Er |].
  intros t Ht Hc. apply carries_iff in Hc as [pt [Hpt [E1 E2]]].
  destruct (Htags pt t Hpt E1 Ht E2) as [j' [Hj' [Ef' [Ep' Et']]]].
  assert (Hrow' := @getUserFavorites_rows_all userId limit db j' p Hlen Hj'
                     (eq_trans (f_equal favorites.userId Ef') Hu) Ep').
  apply (@collect_tag_kept _ r _ t Hr Hrow'); [cbn; congruence | exact Et'].
Qed.

(** X25: when [limit] is at least the number of join rows of the user's
    favorites and [offset] is 0, [getUserFavorites] lists every stored post
    the user has a favorite row for, with the id of every stored tag the post
    carries. *)
Theorem getUserFavorites_whole_result (userId : string) (limit : nat) (db : DB)
    (f : Favorite) (p : Post) :
  List.length (filter (fun j => String.eqb (favorites.userId (fj_favorite j)) userId)
                 (favorites_join db)) <= limit ->
  In f (tbl_favorites db) -> favorites.userId f = userId ->
  In p (tbl_posts db) -> favorites.postId f = posts.id p ->
  exists r, In r (getUserFavorites userId limit 0 db)
            /\ PostWithTags.id r = posts.id p
            /\ (forall t, In t (tbl_tags db) ->
                  carries db (posts.id p) (tags.id t) = true ->
                  In (tags.id t) (map tags.id (PostWithTags.tags r))).
Proof.
  exact (@getUserFavorites_all userId limit db f p).
Qed.

Lemma getUserFavorites_whole_result_witness :
  exists r, In r (getUserFavorites "bob" 20 0 Stores.db_fav)
            /\ PostWithTags.id r = "p1"
            /\ (forall t, In t (tbl_tags Stores.db_fav) ->
                  carries Stores.db_fav "p1" (tags.id t) = true ->
                  In (tags.id t) (map tags.id (PostWithTags.tags r))).
Proof.
  apply (@getUserFavorites_whole_result "bob" 20 Stores.db_fav
           {| favorites.userId := "bob"; favorites.postId := "p1";
              favorites.createdAt := Some 40%Z |} Fixtures.p1).
  - vm_compute. repeat constructor.
  - simpl. auto.
  - reflexivity.
  - simpl. auto.
  - reflexivity.
Defined.

(** ** [GET /api/user/posts] *)

Lemma collect_length (rows : list Row.t) :
  List.length (collect rows) <= List.length rows.
Proof.
  rewrite <- (length_map PostWithTags.id (collect rows)).
  rewrite <- (length_map (fun row => posts.id (Row.post row)) rows).
  apply NoDup_incl_length; [apply collect_ids_NoDup |].
  intros k Hk. apply in_map_iff in Hk as [r [<- Hr]].
  destruct (collect_In_row _ _ Hr) as [row [Hrow E]].
  apply in_map_iff. exists row. split; [| exact Hrow].
  unfold PostWithTags.id. rewrite E. reflexivity.
Qed.

(** A [LIMIT] of the number of rows is no [LIMIT]: the page is all the
    rows after the skipped ones. *)
Lemma getPosts_without_limit (m : nat) tagIds userId excludeTagIds (db : DB) :
  getPosts (List.length (filtered (getPosts_query tagIds userId excludeTagIds db))) m
    tagIds userId excludeTagIds db
  = collect
      (map (config_fields (getPosts_query tagIds userId excludeTagIds db))
         (skipn m
            (orderBy (fun a b => desc_le (posts.createdAt (j_post a))
                                         (posts.createdAt (j_post b)))
               (filtered (getPosts_query tagIds userId excludeTagIds db))))).
Proof.
  unfold getPosts, run_page. cbv zeta. rewrite firstn_all2; [reflexivity |].
  rewrite length_skipn, orderBy_length. apply Nat.le_sub_l.
Qed.

Lemma page_bounds_limit (limit offset : JsNumber) (whole n m : nat) (z : Z) :
  page_bounds limit offset whole = Some (n, m) ->
  limit = Num z -> (0 <= z)%Z -> n = Z.to_nat z.
Proof.
  unfold page_bounds. intros H -> Hz.
  destruct (Z.ltb_spec z 0); [lia |].
  destruct (z <=? int8_max)%Z; [| discriminate H].
  destruct offset as [|o]; [| destruct (o <? 0)%Z; [| destruct (o <=? int8_max)%Z]];
    congruence.
Qed.

Lemma page_bounds_None (limit offset : JsNumber) (whole : nat) :
  page_bounds limit offset whole = None ->
  (exists z, offset = Num z /\ ((z < 0)%Z \/ (int8_max < z)%Z))
  \/ (exists z, limit = Num z /\ (int8_max < z)%Z).
Proof.
  unfold page_bounds. intros H.
  destruct offset as [|o].
  - right. destruct limit as [|l]; [discriminate H |].
    destruct (Z.ltb_spec l 0); [discriminate H |].
    destruct (Z.leb_spec l int8_max); [discriminate H |]. eauto.
  - destruct (Z.ltb_spec o 0); [left; eauto |].
    destruct (Z.leb_spec o int8_max); [| left; eauto].
    right. destruct limit as [|l]; [discriminate H |].
    destruct (Z.ltb_spec l 0); [discriminate H |].
    destruct (Z.leb_spec l int8_max); [discriminate H |]. eauto.
Qed.

Lemma own_posts_of_page (userId : string) (n m : nat) (db : DB) :
  NoDup (map PostWithTags.id
           (filter (fun post => String.eqb (posts.userId (PostWithTags.post post)) userId)
              (getPosts n m None (Some userId) None db)))
  /\ List.length
       (filter (fun post => String.eqb (posts.userId (PostWithTags.post post)) userId)
          (getPosts n m None (Some userId) None db)) <= n
  /\ (forall r,
        In r (filter (fun post => String.eqb (posts.userId (PostWithTags.post post)) userId)
                (getPosts n m None (Some userId) None db)) ->
        posts.userId (PostWithTags.post r) = userId
        /\ In (PostWithTags.post r) (tbl_posts db)
        /\ In r (getPosts n m None (Some userId) None db)
        /\ (truthy (Some userId) = true ->
            forall t, In t (excludedTagIds userId db) ->
                      carries db (PostWithTags.id r) t = false)).
Proof.
  conjs.
  - apply key_unique_in_selection, getPosts_ids_NoDup.
  - etransitivity; [apply filter_length_le |].
    unfold getPosts. cbv zeta.
    etransitivity; [apply collect_length | apply run_page_length].
  - intros r Hr. apply filter_In in Hr as [Hr Hown]. apply String.eqb_eq in Hown.
    conjs; [exact Hown | apply (getPosts_sound _ _ _ _ _ _ _ Hr) | exact Hr |].
    intros Hu t Ht.
    apply (@getPosts_viewer_exclusions n m None userId None db r t Hu Hr Ht).
Qed.

Lemma get_api_user_posts_sound (userId : string) (limit offset : JsNumber) (db : DB) :
  match get_api_user_posts userId limit offset db with
  | answer_posts l =>
      NoDup (map PostWithTags.id l)
      /\ (forall z, limit = Num z -> (0 <= z)%Z -> List.length l <= Z.to_nat z)
      /\ (forall r, In r l ->
            posts.userId (PostWithTags.post r) = userId
            /\ In (PostWithTags.post r) (tbl_posts db)
            /\ (exists n m, In r (getPosts n m None (Some userId) None db))
            /\ (truthy (Some userId) = true ->
                forall t, In t (excludedTagIds userId db) ->
                          carries db (PostWithTags.id r) t = false))
  | answer_message status _ =>
      status = 500
      /\ ((exists z, offset = Num z /\ ((z < 0)%Z \/ (int8_max < z)%Z))
          \/ (exists z, limit = Num z /\ (int8_max < z)%Z))
  | answer_post _ => False
  end.
Proof.
  unfold get_api_user_posts. cbv zeta.
  destruct (page_bounds limit offset _) as [[n m]|] eqn:Eb.
  - destruct (own_posts_of_page userId n m db) as [Hnd [Hlen Hall]]. conjs.
    + exact Hnd.
    + intros z El Hz. rewrite <- (@page_bounds_limit limit offset _ n m z Eb El Hz).
      exact Hlen.
    + intros r Hr. destruct (Hall r Hr) as [H1 [H2 [H3 H4]]]. conjs; eauto.
  - split; [reflexivity |]. apply (@page_bounds_None limit offset _ Eb).
Qed.


(** ** The writes keep the constraints of the schema *)

Lemma has_user_In (db : DB) (uid : string) :
  has_user db uid = true <-> In uid (map users.id (tbl_users db)).
Proof.
  unfold has_user. rewrite existsb_exists, in_map_iff.
  split; intros [u [H1 H2]]; exists u.
  - apply String.eqb_eq in H2. auto.
  - split; [exact H2 | apply String.eqb_eq; exact H1].
Qed.

Lemma key_unique_snoc {Row Key} (key : Row -> Key) (rows : list Row) (r : Row) :
  NoDup (map key rows) -> ~ In (key r) (map key rows) ->
  NoDup (map key (rows ++ [r])).
Proof.
  intros Hnd Hnew. rewrite map_app. apply NoDup_app; [exact Hnd | |].
  - repeat constructor. intros [].
  - intros k Hk [<- | []]. exact (Hnew Hk).
Qed.

Lemma references_ok_grow (db db' : DB) :
  references_ok db ->
  (forall i, has_user db i = true -> has_user db' i = true) ->
  (forall i, has_tag db i = true -> has_tag db' i = true) ->
  (forall i, has_post db i = true -> has_post db' i = true) ->
  (forall p, In p (tbl_posts db') ->
     In p (tbl_posts db) \/ has_user db' (posts.userId p) = true) ->
  (forall pt, In pt (tbl_postTags db') ->
     In pt (tbl_postTags db)
     \/ (has_post db' (postTags.postId pt) = true
         /\ has_tag db' (postTags.tagId pt) = true)) ->
  (forall f, In f (tbl_favorites db') ->
     In f (tbl_favorites db)
     \/ (has_user db' (favorites.userId f) = true
         /\ has_post db' (favorites.postId f) = true)) ->
  (forall e, In e (tbl_userExcludeTags db') ->
     In e (tbl_userExcludeTags db)
     \/ (has_user db' (userExcludeTags.userId e) = true
         /\ has_tag db' (userExcludeTags.tagId e) = true)) ->
  references_ok db'.
Proof.
  intros [Rp [Rpt [Rf Re]]] Hu Ht Hp Np Npt Nf Ne. unfold references_ok. conjs.
  - intros p Hin. destruct (Np p Hin) as [Hold | Hnew]; [| exact Hnew].
    apply Hu, Rp, Hold.
  - intros pt Hin. destruct (Npt pt Hin) as [Hold | Hnew]; [| exact Hnew].
    destruct (Rpt pt Hold). split; [apply Hp | apply Ht]; assumption.
  - intros f Hin. destruct (Nf f Hin) as [Hold | Hnew]; [| exact Hnew].
    destruct (Rf f Hold). split; [apply Hu | apply Hp]; assumption.
  - intros e Hin. destruct (Ne e Hin) as [Hold | Hnew]; [| exact Hnew].
    destruct (Re e Hold). split; [apply Hu | apply Ht]; assumption.
Qed.

Lemma keys_ok_same (db db' : DB) :
  tbl_users db' = tbl_users db -> tbl_tags db' = tbl_tags db ->
  tbl_posts db' = tbl_posts db -> keys_ok db -> keys_ok db'.
Proof.
  unfold keys_ok. intros -> -> ->. auto.
Qed.

Lemma has_grows {A} (p : A -> bool) (l extra : list A) :
  existsb p l = true -> existsb p (l ++ extra) = true.
Proof.
  intros H. rewrite existsb_app, H. reflexivity.
Qed.

Lemma integrity_createPost (g : Gen) (post : InsertPost) (tagIds : list string) (db : DB) :
  integrity db -> integrity (snd (createPost g post tagIds db)).
Proof.
  intros [Hk Hr]. rewrite createPost_cases.
  destruct (has_post db (gen_random_uuid g)) eqn:Hfresh; [split; assumption |].
  destruct (has_user db (ip_userId post)) eqn:Hu; cbn [negb]; [| split; assumption].
  destruct (forallb (has_tag db) tagIds) eqn:Ht; [| split; assumption].
  cbn [snd]. unfold committed. split.
  - destruct Hk as [K1 [K2 [K3 K4]]]. unfold keys_ok. cbn. conjs; try assumption.
    apply key_unique_snoc; [exact K3 |]. cbn. intros Hin.
    apply has_post_In in Hin. congruence.
  - assert (Hnew : has_post (set_postTags
                     (tbl_postTags db
                        ++ map (fun tagId => {| postTags.postId := gen_random_uuid g;
                                                postTags.tagId := tagId |}) tagIds)
                     (set_posts (tbl_posts db ++ [newPost_of g post]) db))
                     (gen_random_uuid g) = true).
    { unfold has_post. cbn. rewrite existsb_app. cbn. rewrite String.eqb_refl.
      apply orb_true_r. }
    apply (@references_ok_grow db); auto.
    + intros i Hi. unfold has_post in *. cbn. apply has_grows. exact Hi.
    + cbn. intros p Hp. apply in_app_iff in Hp as [Hp | [<- | []]]; [left; exact Hp |].
      right. exact Hu.
    + cbn [tbl_postTags set_postTags]. intros pt Hpt.
      apply in_app_iff in Hpt as [Hpt | Hpt]; [left; exact Hpt |].
      right. apply in_map_iff in Hpt as [t [<- Hin]]. cbn [postTags.postId postTags.tagId].
      split; [exact Hnew |].
      rewrite forallb_forall in Ht. apply (Ht t Hin).
Qed.

Lemma integrity_deletePost (id userId : string) (db : DB) :
  integrity db -> integrity (snd (deletePost id userId db)).
Proof.
  intros Hi. unfold deletePost, as_uuid.
  destruct (uuid_in id) as [u|]; [| exact Hi].
  destruct Hi as [[K1 [K2 [K3 K4]]] [Rp [Rpt [Rf Re]]]].
  unfold await, delete_posts, resolve. cbn [fst snd].
  set (cond := fun p : Post => String.eqb (posts.id p) u
                               && String.eqb (posts.userId p) userId).
  assert (Hkept : forall pid,
             notInArray pid (map posts.id (filter cond (tbl_posts db))) = true ->
             existsb (fun p => String.eqb (posts.id p) pid) (tbl_posts db) = true ->
             existsb (fun p => String.eqb (posts.id p) pid)
               (filter (fun p => negb (cond p)) (tbl_posts db)) = true).
  { intros pid Hnot Hex. apply existsb_exists in Hex as [p [Hp E]].
    apply existsb_exists. exists p. split; [| exact E].
    apply filter_In. split; [exact Hp |].
    destruct (cond p) eqn:Ec; [| reflexivity]. exfalso.
    apply notInArray_In in Hnot. apply Hnot. apply String.eqb_eq in E. subst pid.
    apply in_map, filter_In. auto. }
  split.
  - unfold keys_ok. cbn. conjs; try assumption.
    apply key_unique_in_selection. exact K3.
  - unfold references_ok, has_user, has_tag, has_post. cbn. conjs.
    + intros p Hp. apply filter_In in Hp as [Hp _]. apply (Rp p Hp).
    + intros pt Hpt. apply filter_In in Hpt as [Hpt Hnot].
      destruct (Rpt pt Hpt) as [H1 H2]. split; [| exact H2].
      apply Hkept; assumption.
    + intros f Hf. apply filter_In in Hf as [Hf Hnot].
      destruct (Rf f Hf) as [H1 H2]. split; [exact H1 |].
      apply Hkept; assumption.
    + exact Re.
Qed.

Lemma integrity_addFavorite (g : Gen) (userId postId : string) (db : DB) :
  integrity db -> integrity (snd (addFavorite g userId postId db)).
Proof.
  intros [Hk Hr]. unfold addFavorite, insert_favorites_onConflictDoNothing.
  destruct (conflicts favorites_unique _ (tbl_favorites db)); [split; assumption |].
  destruct (has_user db userId && has_post db postId) eqn:Hfk; [| split; assumption].
  apply andb_true_iff in Hfk as [Hu Hp]. cbn [snd]. split.
  - apply (@keys_ok_same db); auto.
  - apply (@references_ok_grow db); auto.
    cbn. intros f Hf. apply in_app_iff in Hf as [Hf | [<- | []]]; auto.
Qed.

Lemma integrity_removeFavorite (userId postId : string) (db : DB) :
  integrity db -> integrity (snd (removeFavorite userId postId db)).
Proof.
  intros [Hk Hr]. unfold removeFavorite. cbn [snd]. split.
  - apply (@keys_ok_same db); auto.
  - apply (@references_ok_grow db); auto.
    cbn. intros f Hf. apply filter_In in Hf as [Hf _]. auto.
Qed.

Lemma integrity_insert_userExcludeTags (g : Gen) (rows : list (string * string))
    (db : DB) :
  integrity db ->
  integrity (snd (insert_userExcludeTags_onConflictDoNothing g rows db)).
Proof.
  intros [Hk Hr]. rewrite insert_userExcludeTags_cases.
  destruct (forallb _ rows) eqn:Hfk; [| split; assumption].
  cbn [snd]. split.
  - apply (@keys_ok_same db); auto.
  - apply (@references_ok_grow db); auto.
    cbn. intros e He. apply in_app_iff in He as [He | He]; [left; exact He |].
    right. apply in_map_iff in He as [ut [<- Hut]]. cbn.
    rewrite forallb_forall in Hfk. apply andb_true_iff, (Hfk ut Hut).
Qed.

Lemma integrity_removeExcludeTag (userId tagId : string) (db : DB) :
  integrity db -> integrity (snd (removeExcludeTag userId tagId db)).
Proof.
  intros Hi. unfold removeExcludeTag, as_uuid.
  destruct (uuid_in tagId) as [u|]; [| exact Hi].
  destruct Hi as [Hk Hr]. cbn [snd]. split.
  - apply (@keys_ok_same db); auto.
  - apply (@references_ok_grow db); auto.
    cbn. intros e He. apply filter_In in He as [He _]. auto.
Qed.

Lemma integrity_setUserExcludeTags (g : Gen) (userId : string) (tagIds : list string)
    (db : DB) :
  integrity db -> integrity (snd (setUserExcludeTags g userId tagIds db)).
Proof.
  intros Hi.
  assert (Hcleared : integrity (snd (delete_userExcludeTags_of userId db))).
  { destruct Hi as [Hk Hr]. unfold delete_userExcludeTags_of. cbn [snd]. split.
    - apply (@keys_ok_same db); auto.
    - apply (@references_ok_grow db); auto.
      cbn. intros e He. apply filter_In in He as [He _]. auto. }
  unfold setUserExcludeTags, transaction, await.
  unfold delete_userExcludeTags_of in *. cbn [fst snd] in *.
  destruct (Nat.ltb 0 (List.length tagIds)).
  - match goal with
    | |- integrity (snd match ?c with _ => _ end) =>
        pose proof (@integrity_insert_userExcludeTags g
                      (map (fun tagId => (userId, tagId)) tagIds) _ Hcleared) as Hins;
        destruct c as [[a | e] db'] eqn:E
    end.
    + cbn [snd] in *. exact Hins.
    + cbn [snd]. exact Hi.
  - unfold resolve. cbn [snd]. exact Hcleared.
Qed.

Lemma integrity_createTag (g : Gen) (tag : InsertTag) (db : DB) :
  integrity db -> integrity (snd (createTag g tag db)).
Proof.
  intros [Hk Hr]. unfold createTag, insert_tags. cbv zeta. rewrite conflicts_tags.
  cbn [tags.id].
  destruct (has_tag db (gen_random_uuid g)) eqn:Hfresh; [split; assumption |].
  cbn [snd]. split.
  - destruct Hk as [K1 [K2 [K3 K4]]]. unfold keys_ok. cbn. conjs; try assumption.
    apply key_unique_snoc; [exact K2 |]. cbn. intros Hin.
    apply has_tag_In in Hin. congruence.
  - apply (@references_ok_grow db); auto.
    intros i H. unfold has_tag in *. cbn. apply has_grows. exact H.
Qed.

Lemma integrity_getOrCreateTag (g : Gen) (name : string) (category : TagCategory)
    (db : DB) :
  integrity db -> integrity (snd (getOrCreateTag g name category db)).
Proof.
  intros Hi. rewrite getOrCreateTag_cases.
  destruct (select_tags_name_category name category db); [| exact Hi].
  pose proof (@integrity_createTag g {| it_name := name; it_category := category |}
                db Hi) as Hc.
  unfold createTag, insert_tags in Hc. cbv zeta in Hc. rewrite conflicts_tags in Hc.
  cbn [tags.id it_name it_category] in Hc.
  destruct (has_tag db (gen_random_uuid g)); exact Hc.
Qed.

Lemma integrity_upsertUser (g : Gen) (jsNow : timestamp) (ud : UpsertUser) (db : DB) :
  integrity db -> integrity (snd (upsertUser g jsNow ud db)).
Proof.
  intros [Hk Hr]. pose proof (@upsertUser_spec g jsNow ud db Hk) as H.
  destruct (upsertUser g jsNow ud db) as [[u | e] db'].
  - destruct H as [Hk' [Hset [_ [_ Hcase]]]]. cbn [snd]. split; [exact Hk' |].
    rewrite <- Hset.
    assert (Hids : forall i, In i (map users.id (tbl_users db)) ->
                             In i (map users.id (tbl_users db'))).
    { destruct Hcase as [[v [_ [_ [_ [E _]]]]] | [_ [_ [_ E]]]]; rewrite E; auto.
      intros i Hin. rewrite map_app. apply in_app_iff. auto. }
    apply (@references_ok_grow db); auto.
    intros i Hin. apply has_user_In. apply has_user_In in Hin. cbn. auto.
  - destruct H as [_ [-> _]]. split; assumption.
Qed.

Lemma integrity_getOrCreateTags (gens : nat -> Gen) (l : list (string * TagCategory))
    (i : nat) (db : DB) :
  integrity db -> integrity (snd (getOrCreateTags gens i l db)).
Proof.
  revert i db. induction l as [|[name category] l IH]; intros i db Hi; [exact Hi |].
  cbn [getOrCreateTags]. unfold await.
  pose proof (@integrity_getOrCreateTag (gens i) name category db Hi) as H1.
  destruct (getOrCreateTag (gens i) name category db) as [[t | e] db1]; cbn [snd] in *.
  - apply IH. exact H1.
  - exact H1.
Qed.

(** X27: every write of the storage layer keeps the constraints
    [schema.ts] declares.  On a store whose primary keys and unique email
    hold and whose references all point at stored rows, the store left by
    [createPost], [deletePost], [addFavorite], [removeFavorite],
    [addExcludeTag], [removeExcludeTag], [setUserExcludeTags], [createTag],
    [getOrCreateTag], [upsertUser] and [initializeDefaultTags] satisfies them
    again, whether the call resolves or rejects and whatever values the
    database generates. *)
Theorem writes_keep_integrity (db : DB) :
  integrity db ->
  (forall g post tagIds, integrity (snd (createPost g post tagIds db)))
  /\ (forall id userId, integrity (snd (deletePost id userId db)))
  /\ (forall g userId postId, integrity (snd (addFavorite g userId postId db)))
  /\ (forall userId postId, integrity (snd (removeFavorite userId postId db)))
  /\ (forall g userId tagId, integrity (snd (addExcludeTag g userId tagId db)))
  /\ (forall userId tagId, integrity (snd (removeExcludeTag userId tagId db)))
  /\ (forall g userId tagIds, integrity (snd (setUserExcludeTags g userId tagIds db)))
  /\ (forall g tag, integrity (snd (createTag g tag db)))
  /\ (forall g name category, integrity (snd (getOrCreateTag g name category db)))
  /\ (forall g jsNow userData, integrity (snd (upsertUser g jsNow userData db)))
  /\ (forall gens, integrity (initializeDefaultTags gens db)).
Proof.
  intros Hi. conjs; intros.
  - apply integrity_createPost, Hi.
  - apply integrity_deletePost, Hi.
  - apply integrity_addFavorite, Hi.
  - apply integrity_removeFavorite, Hi.
  - apply integrity_insert_userExcludeTags, Hi.
  - apply integrity_removeExcludeTag, Hi.
  - apply integrity_setUserExcludeTags, Hi.
  - apply integrity_createTag, Hi.
  - apply integrity_getOrCreateTag, Hi.
  - apply integrity_upsertUser, Hi.
  - apply integrity_getOrCreateTags, Hi.
Qed.

Lemma writes_keep_integrity_witness :
  integrity Canonical.db
  /\ integrity (snd (deletePost Canonical.id_p1 "alice" Canonical.db))
  /\ tbl_favorites (snd (deletePost Canonical.id_p1 "alice" Canonical.db)) = [].
Proof.
  assert (Hi : integrity Canonical.db).
  { split.
    - unfold keys_ok. cbn. conjs; try (repeat constructor; cbn; intuition discriminate).
      intros u v [<- | [<- | []]] _ H; cbn in H; congruence.
    - unfold references_ok. cbn. conjs.
      + intros p [<- | [<- | []]]; reflexivity.
      + intros pt [<- | [<- | []]]; split; reflexivity.
      + intros f [<- | []]; split; reflexivity.
      + intros e [<- | []]; split; reflexivity. }
  split; [exact Hi |]. split; [| reflexivity].
  apply (@writes_keep_integrity Canonical.db Hi).
Defined.

(** ** The order of the feed *)

Lemma desc_le_total (a b : option timestamp) :
  desc_le a b = true \/ desc_le b a = true.
Proof.
  destruct a as [x|], b as [y|]; simpl; auto.
  destruct (Z.leb_spec y x); [left; reflexivity | right; apply Z.leb_le; lia].
Qed.

Lemma desc_le_trans (a b c : option timestamp) :
  desc_le a b = true -> desc_le b c = true -> desc_le a c = true.
Proof.
  destruct a as [x|], b as [y|], c as [z|]; simpl; try congruence; auto.
  rewrite !Z.leb_le. lia.
Qed.

Lemma StronglySorted_firstn {A} (R : A -> A -> Prop) (n : nat) (l : list A) :
  StronglySorted R l -> StronglySorted R (firstn n l).
Proof.
  revert n. induction l as [|x l IH]; intros [|n] Hs; simpl; try constructor.
  - apply IH. inversion Hs; assumption.
  - inversion Hs as [|? ? _ Hall]; subst.
    rewrite Forall_forall in *. intros y Hy. apply Hall.
    apply (In_firstn _ _ _ Hy).
Qed.

Lemma StronglySorted_skipn {A} (R : A -> A -> Prop) (n : nat) (l : list A) :
  StronglySorted R l -> StronglySorted R (skipn n l).
Proof.
  revert l. induction n as [|n IH]; intros [|x l] Hs; simpl; auto.
  apply IH. inversion Hs; assumption.
Qed.

Lemma StronglySorted_map {A B} (R : B -> B -> Prop) (f : A -> B) (l : list A) :
  StronglySorted (fun a b => R (f a) (f b)) l -> StronglySorted R (map f l).
Proof.
  induction 1 as [|x l Hs IH Hall]; simpl; constructor; [exact IH |].
  rewrite Forall_forall in *. intros y Hy.
  apply in_map_iff in Hy as [a [<- Ha]]. apply Hall, Ha.
Qed.

Lemma StronglySorted_snoc {A} (R : A -> A -> Prop) (l : list A) (x : A) :
  StronglySorted R l -> Forall (fun a => R a x) l -> StronglySorted R (l ++ [x]).
Proof.
  induction 1 as [|y l Hs IH Hall]; simpl; intros Hx.
  - repeat constructor.
  - inversion Hx; subst. constructor; [apply IH; assumption |].
    apply Forall_app. split; [exact Hall | repeat constructor; assumption].
Qed.

Lemma Map_set_same_post (m : JsMap PostWithTags.t) (k : string)
    (v v' : PostWithTags.t) :
  NoDup (map fst m) -> In (k, v) m ->
  PostWithTags.post v' = PostWithTags.post v ->
  entry_posts (Map_set k v' m) = entry_posts m.
Proof.
  intros Hnd Hin Epost. unfold Map_set, entry_posts.
  assert (Hhas : Map_has k m = true).
  { apply Map_has_In, in_map_iff. exists (k, v). auto. }
  rewrite Hhas, map_map. apply map_ext_in. intros [k0 v0] H0. simpl.
  destruct (String.eqb_spec k0 k) as [-> | Hne]; [| reflexivity].
  simpl. rewrite Epost. f_equal. apply (@Map_key_unique _ k v v0 m Hnd Hin H0).
Qed.

Lemma collect_step_posts (m : JsMap PostWithTags.t) (done : list Row.t) (row : Row.t) :
  collected m done ->
  entry_posts (collect_step m row)
  = if Map_has (posts.id (Row.post row)) m
    then entry_posts m else entry_posts m ++ [Row.post row].
Proof.
  intros Hc. unfold collect_step. cbv zeta.
  pose proof (collected_fresh row Hc) as H1.
  set (m1 := if negb (Map_has (posts.id (Row.post row)) m) then _ else m) in *.
  assert (E1 : entry_posts m1
               = if Map_has (posts.id (Row.post row)) m
                 then entry_posts m else entry_posts m ++ [Row.post row]).
  { unfold m1. destruct (Map_has (posts.id (Row.post row)) m) eqn:Hhas; simpl.
    - reflexivity.
    - unfold Map_set. rewrite Hhas. unfold entry_posts. rewrite map_app. reflexivity. }
  rewrite <- E1.
  destruct (Row.tag row) as [tag|]; [| reflexivity].
  destruct (Map_get (posts.id (Row.post row)) m1) as [existingPost|] eqn:Eget;
    [| reflexivity].
  match goal with
  | |- entry_posts (if ?b then _ else _) = _ => destruct b; [| reflexivity]
  end.
  apply (@Map_set_same_post m1 _ existingPost); [apply H1 | | reflexivity].
  apply Map_get_In, Eget.
Qed.

Lemma collect_fold_sorted (rows done : list Row.t) (m : JsMap PostWithTags.t) :
  collected m done ->
  StronglySorted newer_first (entry_posts m) ->
  Forall (fun a => Forall (fun r => newer_first a (Row.post r)) rows) (entry_posts m) ->
  StronglySorted (fun r1 r2 => newer_first (Row.post r1) (Row.post r2)) rows ->
  StronglySorted newer_first (entry_posts (fold_left collect_step rows m)).
Proof.
  revert done m. induction rows as [|row rows IH]; intros done m Hc Hs Hall Hrows;
    [exact Hs |].
  cbn [fold_left]. inversion Hrows as [|? ? Hrest Hhead]; subst.
  assert (Hold : Forall (fun a => newer_first a (Row.post row)) (entry_posts m)).
  { rewrite Forall_forall in *. intros a Ha. specialize (Hall a Ha).
    inversion Hall; assumption. }
  assert (Hold' : Forall (fun a => Forall (fun r => newer_first a (Row.post r)) rows)
                    (entry_posts m)).
  { rewrite Forall_forall in *. intros a Ha. specialize (Hall a Ha).
    inversion Hall; assumption. }
  apply (IH (done ++ [row])).
  - apply collected_step, Hc.
  - rewrite (collect_step_posts row Hc).
    destruct (Map_has _ m); [exact Hs |]. apply StronglySorted_snoc; assumption.
  - rewrite (collect_step_posts row Hc).
    destruct (Map_has _ m); [exact Hold' |].
    apply Forall_app. split; [exact Hold' |]. constructor; [| constructor].
    rewrite Forall_forall in *. intros r Hr. apply Hhead, Hr.
  - exact Hrest.
Qed.

Lemma collect_sorted (rows : list Row.t) :
  StronglySorted (fun r1 r2 => newer_first (Row.post r1) (Row.post r2)) rows ->
  StronglySorted (fun a b => newer_first (PostWithTags.post a) (PostWithTags.post b))
    (collect rows).
Proof.
  intros Hrows.
  pose proof (@collect_fold_sorted rows [] [] collected_nil (SSorted_nil _)
                (Forall_nil _) Hrows) as H.
  unfold collect, Map_values. unfold entry_posts in H.
  remember (fold_left collect_step rows []) as m eqn:Em. clear Em Hrows.
  induction m as [|[k v] m IH]; simpl in *; [constructor |].
  inversion H as [|? ? Hs Hall]; subst. constructor; [apply IH, Hs |].
  rewrite Forall_forall in *. intros b Hb.
  apply in_map_iff in Hb as [[k' v'] [<- Hin]]. apply Hall.
  apply in_map_iff. exists (k', v'). auto.
Qed.

Lemma run_page_sorted (limit offset : nat) tagIds userId excludeTagIds (db : DB) :
  StronglySorted (fun r1 r2 => newer_first (Row.post r1) (Row.post r2))
    (run_page limit offset (getPosts_query tagIds userId excludeTagIds db)).
Proof.
  unfold run_page. rewrite getPosts_query_fields.
  apply (@StronglySorted_map JoinRow Row.t
           (fun r1 r2 => newer_first (Row.post r1) (Row.post r2)) (fields userId)).
  apply StronglySorted_firstn, StronglySorted_skipn.
  apply Sorted_StronglySorted.
  - intros a b c Hab Hbc. unfold newer_first in *. cbn in *.
    apply (desc_le_trans _ _ _ Hab Hbc).
  - pose proof (@orderBy_Sorted JoinRow
                  (fun a b => desc_le (posts.createdAt (j_post a))
                                      (posts.createdAt (j_post b)))
                  (fun a b => desc_le_total _ _)
                  (filtered (getPosts_query tagIds userId excludeTagIds db))) as H.
    exact H.
Qed.

(** X28: every page of [getPosts] is ordered newest first: an entry comes
    before every later entry with a smaller or equal [createdAt], a post
    without [createdAt] before all that have one.  The grouping keeps the
    order of the rows, since [postsMap] keeps insertion order. *)
Theorem getPosts_newest_first limit offset tagIds userId excludeTagIds (db : DB) :
  StronglySorted (fun a b => newer_first (PostWithTags.post a) (PostWithTags.post b))
    (getPosts limit offset tagIds userId excludeTagIds db).
Proof.
  unfold getPosts. cbv zeta. apply collect_sorted, run_page_sorted.
Qed.

(** ** [POST /api/exclude-tags] *)

Lemma addExcludeTag_stored (g : Gen) (userId tagId : string) (db : DB) :
  has_user db userId = true -> has_tag db tagId = true ->
  exists db',
    addExcludeTag g userId tagId db = (Resolved tt, db')
    /\ excludedTagIds userId db' = excludedTagIds userId db ++ [tagId]
    /\ tbl_users db' = tbl_users db /\ tbl_tags db' = tbl_tags db.
Proof.
  intros Hu Ht. rewrite addExcludeTag_cases, Hu, Ht. cbn [andb].
  eexists. split; [reflexivity |]. conjs; try reflexivity.
  match goal with
  | |- excludedTagIds ?u (set_userExcludeTags (_ ++ ?rows) ?c) = _ =>
      rewrite (@excludedTagIds_app u c
                 (set_userExcludeTags (tbl_userExcludeTags c ++ rows) c)
                 rows eq_refl)
  end.
  simpl. rewrite String.eqb_refl. reflexivity.
Qed.

Lemma has_same_tables (db db' : DB) :
  tbl_users db' = tbl_users db -> tbl_tags db' = tbl_tags db ->
  (forall u, has_user db' u = has_user db u)
  /\ (forall t, has_tag db' t = has_tag db t).
Proof.
  intros Eu Et. unfold has_user, has_tag. rewrite Eu, Et. auto.
Qed.

Lemma addExcludeTags_all (blank : string -> bool) (gens : nat -> Gen)
    (userId : string) (tagIds : list (option string)) (i : nat) (db : DB) :
  has_user db userId = true ->
  (forall t, In t (kept blank tagIds) -> has_tag db t = true) ->
  exists db',
    addExcludeTags blank gens i userId tagIds db = (Resolved tt, db')
    /\ excludedTagIds userId db' = excludedTagIds userId db ++ kept blank tagIds
    /\ tbl_users db' = tbl_users db /\ tbl_tags db' = tbl_tags db.
Proof.
  revert i db. induction tagIds as [|[tagId|] rest IH]; intros i db Hu Hall.
  - exists db. cbn. rewrite app_nil_r. auto.
  - cbn [addExcludeTags kept flat_map] in *. destruct (blank tagId) eqn:Hb.
    + apply IH; assumption.
    + cbn [app] in Hall.
      destruct (@addExcludeTag_stored (gens i) userId tagId db Hu
                  (Hall tagId (or_introl eq_refl))) as [db1 [E1 [X1 [U1 T1]]]].
      destruct (has_same_tables db db1 U1 T1) as [Su St].
      destruct (IH (S i) db1) as [db' [E [X [U T]]]].
      * rewrite Su. exact Hu.
      * intros t Ht. rewrite St. apply Hall. right. exact Ht.
      * exists db'. unfold await. rewrite E1. cbn [fst snd].
        conjs; [exact E | | congruence | congruence].
        rewrite X, X1, <- app_assoc. reflexivity.
  - cbn [addExcludeTags kept flat_map app] in *. apply IH; assumption.
Qed.

Lemma addExcludeTags_stops (blank : string -> bool) (gens : nat -> Gen)
    (userId bad : string) (before after : list (option string)) (i : nat) (db : DB) :
  has_user db userId = true ->
  (forall t, In t (kept blank before) -> has_tag db t = true) ->
  blank bad = false -> has_tag db bad = false ->
  exists db',
    addExcludeTags blank gens i userId (before ++ Some bad :: after) db
    = (Rejected foreign_key_violation, db')
    /\ excludedTagIds userId db' = excludedTagIds userId db ++ kept blank before.
Proof.
  intros Hu Hall Hb Hbad. revert i db Hu Hall Hbad.
  induction before as [|[tagId|] rest IH]; intros i db Hu Hall Hbad.
  - exists db. cbn [app addExcludeTags kept flat_map]. rewrite Hb. unfold await.
    rewrite addExcludeTag_cases, Hu, Hbad. cbn. rewrite app_nil_r. auto.
  - cbn [app addExcludeTags kept flat_map] in *. destruct (blank tagId) eqn:Hbt.
    + apply IH; assumption.
    + cbn [app] in Hall.
      destruct (@addExcludeTag_stored (gens i) userId tagId db Hu
                  (Hall tagId (or_introl eq_refl))) as [db1 [E1 [X1 [U1 T1]]]].
      destruct (has_same_tables db db1 U1 T1) as [Su St].
      destruct (IH (S i) db1) as [db' [E X]].
      * rewrite Su. exact Hu.
      * intros t Ht. rewrite St. apply Hall. right. exact Ht.
      * rewrite St. exact Hbad.
      * exists db'. unfold await. rewrite E1. cbn [fst snd].
        split; [exact E |]. rewrite X, X1, <- app_assoc. reflexivity.
  - cbn [app addExcludeTags kept flat_map] in *. apply IH; assumption.
Qed.

Lemma post_api_exclude_tags_cases (blank : string -> bool) (gens : nat -> Gen)
    (userId : string) (l : list (option string)) (db : DB) :
  has_user db userId = true ->
  (l <> [] -> (forall t, In t (kept blank l) -> has_tag db t = true) ->
   exists db',
     post_api_exclude_tags blank gens userId (Some l) db = (reply_success, db')
     /\ excludedTagIds userId db' = excludedTagIds userId db ++ kept blank l)
  /\ (forall before bad after,
        l = before ++ Some bad :: after ->
        (forall t, In t (kept blank before) -> has_tag db t = true) ->
        blank bad = false -> has_tag db bad = false ->
        exists db',
          post_api_exclude_tags blank gens userId (Some l) db
          = (reply_message 500 "Failed to add exclude tags", db')
          /\ excludedTagIds userId db' = excludedTagIds userId db ++ kept blank before).
Proof.
  intros Hu. split.
  - intros Hne Hall.
    destruct (@addExcludeTags_all blank gens userId l 0 db Hu Hall) as [db' [E [X _]]].
    exists db'. unfold post_api_exclude_tags.
    destruct l as [|x l']; [congruence |]. cbn [List.length Nat.eqb].
    rewrite E. auto.
  - intros before bad after -> Hall Hb Hbad.
    destruct (@addExcludeTags_stops blank gens userId bad before after 0 db
                Hu Hall Hb Hbad) as [db' [E X]].
    exists db'. unfold post_api_exclude_tags.
    rewrite length_app. cbn [List.length]. rewrite Nat.add_succ_r. cbn [Nat.eqb].
    rewrite E. auto.
Qed.


